(** * draugr.numpy_utilities.datasets.splitting

    A shallow embedding of [src/draugr/numpy_utilities/datasets/splitting.py]:
    the [Split] enumeration, the proportional [SplitIndexer], the content-hash
    splitter [train_valid_test_split] and the projection [select_split].

    Conventions of the embedding.
    - Python [float] and [numpy.float64] are IEEE 754 binary64: the kernel's
      primitive [float], whose operations are specified bit for bit by
      [SpecFloat] through [FloatAxioms].
    - Python [int] is [Z]; [numpy.int64] is a [Z] with its wrap-around written
      out where the source can reach it.
    - Python [str] is a [string] holding the UTF-8 encoding of the text.  The
      only pattern the source matches is ASCII and the only character class
      excludes the ASCII newline, so matching the bytes and matching the code
      points select the same positions.
    - [dict] is an association list in insertion order; a well-formed one has
      no repeated key.
    - The interpreter is CPython on a 64-bit host: [sys.maxsize = 2^63 - 1].
    - [numpy.random] is global state: the functions that use it take the
      generator state and return the new one. *)

From Stdlib Require Import String Ascii Floats Uint63 Reals Lra.
From Stdlib Require Import ZArith Bool Lia List Permutation.
Import ListNotations.

Set Warnings "-inexact-float".
Local Open Scope Z_scope.

(** ** Python values, exceptions and containers *)

Module Py.

(** The exceptions the specification speaks of. *)
Inductive exn : Set :=
| NotImplementedError
| KeyError
| ZeroDivisionError.

(** The outcome of a call: a value, or a raised exception. *)
Inductive result (A : Type) : Type :=
| Ok (a : A)
| Raise (e : exn).
Arguments Ok {A} a.
Arguments Raise {A} e.

Definition bind {A B : Type} (r : result A) (k : A -> result B) : result B :=
  match r with
  | Ok a => k a
  | Raise e => Raise e
  end.

(** [range(n)]. *)
Definition range (n : Z) : list Z := map Z.of_nat (seq 0 (Z.to_nat n)).

(** A slice bound as [list.__getitem__] reads it: [None] is the default, a
    negative bound counts from the end, and the result is clamped to
    [0 .. len]. *)
Definition slice_bound (len : Z) (default : Z) (b : option Z) : Z :=
  match b with
  | None => default
  | Some i =>
      let i := if i <? 0 then i + len else i in
      if i <? 0 then 0 else if len <? i then len else i
  end.

(** [l[lo:hi]] with step one. *)
Definition slice {A : Type} (l : list A) (lo hi : option Z) : list A :=
  let len := Z.of_nat (length l) in
  let a := slice_bound len 0 lo in
  let b := slice_bound len len hi in
  firstn (Z.to_nat (b - a)) (skipn (Z.to_nat a) l).

(** Keys of a [dict] are compared with [==]. *)
Class Key (K : Type) : Type := {
  key_eqb : K -> K -> bool;
  key_eqb_eq : forall a b, key_eqb a b = true <-> a = b
}.

Definition dict (K V : Type) : Type := list (K * V).

Section Dict.
Context {K V : Type} `{Key K}.

Definition keys (d : dict K V) : list K := map fst d.

(** [d[k]]: the bound value, or [KeyError]. *)
Fixpoint getitem (d : dict K V) (k : K) : result V :=
  match d with
  | [] => Raise KeyError
  | (k', v) :: d' => if key_eqb k k' then Ok v else getitem d' k
  end.

(** [d[k] = v]: rebinds [k] in place, or appends the new key. *)
Fixpoint setitem (d : dict K V) (k : K) (v : V) : dict K V :=
  match d with
  | [] => [(k, v)]
  | (k', v') :: d' =>
      if key_eqb k k' then (k', v) :: d' else (k', v') :: setitem d' k v
  end.

(** A dictionary holds each key once. *)
Definition wf (d : dict K V) : Prop := NoDup (keys d).

End Dict.

#[export] Instance string_Key : Key string := {
  key_eqb := String.eqb;
  key_eqb_eq := String.eqb_eq
}.

End Py.
Import Py.

(** ** numpy.int64 and numpy.float64 *)

Module Np.

Definition int64_min : Z := - 2 ^ 63.
Definition int64_max : Z := 2 ^ 63 - 1.

(** Negation of a [numpy.int64]: the minimum wraps to itself. *)
Definition int64_neg (z : Z) : Z := if z =? int64_min then int64_min else - z.

(** The correctly rounded conversion of an integer to binary64, as in
    [float(n)] and in the promotion of an [int] operand. *)
Definition float_of_Z (n : Z) : float :=
  SF2Prim (binary_normalize prec emax n 0 false).

(** The integer [floor] of the rational [(-1)^s * m * 2^e]. *)
Definition floor_of (s : bool) (m : positive) (e : Z) : Z :=
  let v := if s then Z.neg m else Z.pos m in
  if 0 <=? e then v * 2 ^ e else v / 2 ^ (- e).

(** [numpy.floor] on a float64: zeros, infinities and NaN are returned as
    they are, and so is a value with no fractional bit. *)
Definition floor (x : float) : float :=
  match Prim2SF x with
  | S754_finite s m e =>
      if 0 <=? e then x else float_of_Z (floor_of s m e)
  | _ => x
  end.

(** [ndarray.astype(int)] on a float64: truncation toward zero; NaN, the
    infinities and values outside int64 give the x86-64 "integer indefinite"
    value, the minimum. *)
Definition astype_int (x : float) : Z :=
  match Prim2SF x with
  | S754_zero _ => 0
  | S754_finite s m e =>
      let t := if s then - floor_of false m e else floor_of false m e in
      if (int64_min <=? t) && (t <=? int64_max) then t else int64_min
  | _ => int64_min
  end.

End Np.

(** ** SHA-1 (FIPS 180-4), as [hashlib.sha1] computes it *)

Module Sha1.

Definition w32 (x : Z) : Z := x mod 2 ^ 32.
Definition add32 (x y : Z) : Z := w32 (x + y).
Definition rotl (n x : Z) : Z :=
  w32 (Z.lor (Z.shiftl x n) (Z.shiftr x (32 - n))).
Definition not32 (x : Z) : Z := 2 ^ 32 - 1 - x.

Definition byte_of_ascii (c : ascii) : Z := Z.of_N (N_of_ascii c).

Fixpoint bytes_of_string (s : string) : list Z :=
  match s with
  | EmptyString => []
  | String c s' => byte_of_ascii c :: bytes_of_string s'
  end.

(** Big-endian bytes of [x], [n] of them. *)
Fixpoint be_bytes (n : nat) (x : Z) : list Z :=
  match n with
  | O => []
  | S n' => be_bytes n' (x / 256) ++ [x mod 256]
  end.

(** Big-endian value of a byte sequence. *)
Definition be_value (bs : list Z) : Z :=
  fold_left (fun acc b => acc * 256 + b) bs 0.

(** Padding: a one bit, zeros up to 56 modulo 64, the bit length on 64 bits. *)
Definition pad (msg : list Z) : list Z :=
  let len := Z.of_nat (length msg) in
  let zeros := Z.to_nat ((55 - len) mod 64) in
  msg ++ [128] ++ repeat 0 zeros ++ be_bytes 8 (8 * len).

(** The blocks of a padded message, each as sixteen 32-bit words. *)
Fixpoint words (n : nat) (bs : list Z) : list Z :=
  match n with
  | O => []
  | S n' => be_value (firstn 4 bs) :: words n' (skipn 4 bs)
  end.

Fixpoint blocks (n : nat) (bs : list Z) : list (list Z) :=
  match n with
  | O => []
  | S n' => words 16 (firstn 64 bs) :: blocks n' (skipn 64 bs)
  end.

(** The message schedule, most recent word first: [extend k w] adds [k]
    words to the schedule [w]. *)
Fixpoint extend (k : nat) (w : list Z) : list Z :=
  match k with
  | O => w
  | S k' =>
      let x := Z.lxor (Z.lxor (nth 2 w 0) (nth 7 w 0))
                      (Z.lxor (nth 13 w 0) (nth 15 w 0)) in
      extend k' (rotl 1 x :: w)
  end.

Definition schedule (block : list Z) : list Z := rev (extend 64 (rev block)).

Definition f (t : nat) (b c d : Z) : Z :=
  if (t <? 20)%nat then Z.lor (Z.land b c) (Z.land (not32 b) d)
  else if (t <? 40)%nat then Z.lxor (Z.lxor b c) d
  else if (t <? 60)%nat then
    Z.lor (Z.lor (Z.land b c) (Z.land b d)) (Z.land c d)
  else Z.lxor (Z.lxor b c) d.

Definition K (t : nat) : Z :=
  if (t <? 20)%nat then 0x5A827999
  else if (t <? 40)%nat then 0x6ED9EBA1
  else if (t <? 60)%nat then 0x8F1BBCDC
  else 0xCA62C1D6.

Definition state : Type := Z * Z * Z * Z * Z.

Definition round (st : state) (tw : nat * Z) : state :=
  let '(a, b, c, d, e) := st in
  let '(t, w) := tw in
  let tmp := add32 (add32 (add32 (add32 (rotl 5 a) (f t b c d)) e) (K t)) w in
  (tmp, a, rotl 30 b, c, d).

Definition compress (h : state) (block : list Z) : state :=
  let '(h0, h1, h2, h3, h4) := h in
  let '(a, b, c, d, e) :=
    fold_left round (combine (seq 0 80) (schedule block)) h in
  (add32 h0 a, add32 h1 b, add32 h2 c, add32 h3 d, add32 h4 e).

Definition init : state :=
  (0x67452301, 0xEFCDAB89, 0x98BADCFE, 0x10325476, 0xC3D2E1F0).

(** The digest as the integer [int(hexdigest(), 16)]. *)
Definition digest_int (msg : list Z) : Z :=
  let p := pad msg in
  let '(h0, h1, h2, h3, h4) :=
    fold_left compress (blocks (length p / 64) p) init in
  (((h0 * 2 ^ 32 + h1) * 2 ^ 32 + h2) * 2 ^ 32 + h3) * 2 ^ 32 + h4.

End Sha1.

(** ** The module [splitting] *)

Module Splitting.

(** [class Split(Enum)]. *)
Inductive Split : Set :=
| Training
| Validation
| Testing.

Definition Split_value (s : Split) : string :=
  match s with
  | Training => "training"
  | Validation => "validation"
  | Testing => "testing"
  end.

Definition Split_eqb (a b : Split) : bool :=
  match a, b with
  | Training, Training | Validation, Validation | Testing, Testing => true
  | _, _ => false
  end.

Lemma Split_eqb_eq (a b : Split) : Split_eqb a b = true <-> a = b.
Proof. destruct a, b; simpl; split; congruence. Qed.

#[export] Instance Split_Key : Key Split := {
  key_eqb := Split_eqb;
  key_eqb_eq := Split_eqb_eq
}.

(** What a caller can pass where a [Split] is expected: a member of the
    enumeration, [None], a string, an integer, or an object of a class with
    an [__eq__] of its own, given by what that [__eq__] answers for each
    member of [Split] (such as [unittest.mock.ANY], which answers [True]
    for all). *)
Inductive value : Set :=
| VNone
| VSplit (s : Split)
| VStr (s : string)
| VInt (z : Z)
| VObj (eq : Split -> bool).

(** [a == b] on these values, with [a] the left operand: its [__eq__] is
    asked first.  A member of an [Enum] equals only itself: it is not equal
    to its own [value] string; [str], [int] and [None] answer
    [NotImplemented] for a member, and the comparison falls back to
    identity. *)
Definition value_eqb (a b : value) : bool :=
  match a, b with
  | VNone, VNone => true
  | VSplit x, VSplit y => Split_eqb x y
  | VStr x, VStr y => String.eqb x y
  | VInt x, VInt y => x =? y
  | VObj eq, VSplit y => eq y
  | _, _ => false
  end.

(** [a is None]. *)
Definition is_None (a : value) : bool :=
  match a with
  | VNone => true
  | _ => false
  end.

(** *** [SplitIndexer] *)

Record SplitIndexer : Set := {
  total_num : Z;
  normalised_split : float * float * float;
  training_percentage : float;
  validation_percentage : float;
  testing_percentage : float;
  training_num : Z;
  validation_num : Z;
  testing_num : Z
}.

(** [sum(splits)]: the builtin starts from the integer [0] and adds from the
    left. *)
Definition sum3 (a b c : float) : float := (((0 + a) + b) + c)%float.

(** [unnormalised]: the proportions scaled by [num], floored on request, cast
    to integers. *)
Definition unnormalised (normalised : float * float * float) (num : Z)
    (floored : bool) : Z * Z * Z :=
  let '(p1, p2, p3) := normalised in
  let scale (p : float) : float := (p * Np.float_of_Z num)%float in
  let fl (x : float) : float := if floored then Np.floor x else x in
  (Np.astype_int (fl (scale p1)),
   Np.astype_int (fl (scale p2)),
   Np.astype_int (fl (scale p3))).

(** [SplitIndexer.__init__].  The division is numpy's: on a zero divisor it
    gives NaN or an infinity and a warning, and raises nothing. *)
Definition init (dataset_length : Z) (training validation testing : float)
    : result SplitIndexer :=
  let s := sum3 training validation testing in
  let normalised := ((training / s)%float, (validation / s)%float,
                     (testing / s)%float) in
  let '(p1, p2, p3) := normalised in
  let '(n1, n2, n3) := unnormalised normalised dataset_length true in
  Ok {| total_num := dataset_length;
        normalised_split := normalised;
        training_percentage := p1;
        validation_percentage := p2;
        testing_percentage := p3;
        training_num := n1;
        validation_num := n2;
        testing_num := n3 |}.

(** The default weights [0.7], [0.2] and [0.1]. *)
Definition default_training : float := 0x1.6666666666666p-1%float.
Definition default_validation : float := 0x1.999999999999ap-3%float.
Definition default_testing : float := 0x1.999999999999ap-4%float.

Section Select.
Context {A : Type}.
Variable self : SplitIndexer.

Definition select_train_indices (ind : list A) : list A :=
  slice ind None (Some (training_num self)).

Definition select_validation_indices (ind : list A) : list A :=
  if validation_num self =? 0 then []
  else if testing_num self =? 0 then
    slice ind (Some (training_num self)) None
  else
    slice ind (Some (training_num self))
              (Some (Np.int64_neg (testing_num self))).

Definition select_testing_indices (ind : list A) : list A :=
  if testing_num self =? 0 then []
  else slice ind (Some (Np.int64_neg (testing_num self))) None.

End Select.

(** The global generator of [numpy.random]: seeding replaces its state, a
    permutation consumes it. *)
Section Random.
Variable rng : Type.
Variable np_random_seed : Z -> rng.
Variable np_random_permutation : Z -> rng -> list Z * rng.

Definition shuffled_indices (self : SplitIndexer) (st : rng)
    : dict Split (list Z) * rng :=
  let '(split_indices, st') := np_random_permutation (total_num self) st in
  ([(Training, select_train_indices self split_indices);
    (Validation, select_validation_indices self split_indices);
    (Testing, select_testing_indices self split_indices)], st').

Definition select_shuffled_split_indices (self : SplitIndexer) (split : value)
    (seed : Z) (st : rng) : result (list Z) * rng :=
  let st0 := np_random_seed seed in
  let '(split_indices, st') := np_random_permutation (total_num self) st0 in
  (if value_eqb split (VSplit Training) then
     Ok (select_train_indices self split_indices)
   else if value_eqb split (VSplit Validation) then
     Ok (select_validation_indices self split_indices)
   else if value_eqb split (VSplit Testing) then
     Ok (select_testing_indices self split_indices)
   else if is_None split then Ok split_indices
   else Raise NotImplementedError, st').

End Random.

(** *** [train_valid_test_split] *)

(** A [pathlib.PosixPath] by its [parts]: the root first, when the path has
    one, then the components.  The root starts with a slash and no component
    holds one. *)
Definition Path : Set := list string.

Definition is_anchor (s : string) : bool :=
  match s with
  | String c _ => Ascii.eqb c "/"%char
  | EmptyString => false
  end.

(** [PurePath.name]: the last component, and the empty string for a path
    that has none (the path [.] and a path that is only its root). *)
Definition name (p : Path) : string :=
  match p with
  | [] => EmptyString
  | [x] => if is_anchor x then EmptyString else x
  | _ :: _ :: _ => last p EmptyString
  end.

Definition sys_maxsize : Z := 2 ^ 63 - 1.

Definition newline : ascii := ascii_of_nat 10.
Definition marker : string := "_nohash_".

(** The text after the prefix [p] of [s], when [s] starts with it. *)
Fixpoint strip_prefix (p s : string) : option string :=
  match p, s with
  | EmptyString, _ => Some s
  | String a p', String b s' =>
      if Ascii.eqb a b then strip_prefix p' s' else None
  | String _ _, EmptyString => None
  end.

(** What [.*] leaves: the text from the first newline on. *)
Fixpoint skip_line (s : string) : string :=
  match s with
  | EmptyString => EmptyString
  | String c s' => if Ascii.eqb c newline then s else skip_line s'
  end.

(** [$]: the end of the text, or just before a newline that ends it. *)
Definition at_end (s : string) : bool :=
  match s with
  | EmptyString => true
  | String c EmptyString => Ascii.eqb c newline
  | _ => false
  end.

(** A match of [_nohash_.*$] at the start of [s]: the text that follows it.
    The greedy [.*] stops at the first newline; a shorter run would stop
    before a character that is no newline, where [$] does not hold. *)
Definition match_here (s : string) : option string :=
  match strip_prefix marker s with
  | Some r => if at_end (skip_line r) then Some (skip_line r) else None
  | None => None
  end.

(** [re.sub(r"_nohash_.*$", "", s)]: the leftmost match is removed; what
    follows it is empty or one newline and holds no other match. *)
Fixpoint re_sub_nohash (s : string) : string :=
  match s with
  | EmptyString => EmptyString
  | String c s' =>
      match match_here s with
      | Some r => r
      | None => String c (re_sub_nohash s')
      end
  end.

(** [b_rep]. *)
Definition b_rep (c : string) (file_name : Path) : list Z :=
  Sha1.bytes_of_string (re_sub_nohash (c ++ name file_name)).

(** The pseudo-percentage of a digest. *)
Definition percentage_of (digest : Z) : float :=
  (Np.float_of_Z (digest mod (sys_maxsize + 1))
   * (100 / Np.float_of_Z sys_maxsize))%float.

Definition percentage_hash (c : string) (file_name : Path) : float :=
  percentage_of (Sha1.digest_int (b_rep c file_name)).

(** The three lists a category is split into, in the order the source
    declares them. *)
Record images : Set := {
  training_images : list Path;
  testing_images : list Path;
  validation_images : list Path
}.

(** One turn of the inner loop. *)
Definition assign (c : string) (validation_percentage testing_percentage : float)
    (acc : images) (file_name : Path) : images :=
  let ph := percentage_hash c file_name in
  if (ph <? validation_percentage + testing_percentage)%float then
    if (ph <? testing_percentage)%float then
      {| training_images := training_images acc;
         testing_images := testing_images acc ++ [file_name];
         validation_images := validation_images acc |}
    else
      {| training_images := training_images acc;
         testing_images := testing_images acc;
         validation_images := validation_images acc ++ [file_name] |}
  else
    {| training_images := training_images acc ++ [file_name];
       testing_images := testing_images acc;
       validation_images := validation_images acc |}.

(** One turn of the outer loop. *)
Definition split_category (validation_percentage testing_percentage : float)
    (result : dict string (dict Split (list Path)))
    (item : string * list Path) : dict string (dict Split (list Path)) :=
  let '(c, vs) := item in
  let acc := fold_left (assign c validation_percentage testing_percentage) vs
               {| training_images := [];
                  testing_images := [];
                  validation_images := [] |} in
  setitem result c
    [(Training, training_images acc);
     (Validation, validation_images acc);
     (Testing, testing_images acc)].

(** [train_valid_test_split]; [verbose] only prints and is left out. *)
Definition train_valid_test_split (categories : dict string (list Path))
    (validation_percentage testing_percentage : float)
    : dict string (dict Split (list Path)) :=
  fold_left (split_category validation_percentage testing_percentage)
    categories [].

(** *** [select_split] *)

Section SelectSplit.
Context {K A : Type} `{Key K}.

(** [for item in v[split]: data[k].append(item)]. *)
Definition append_items (data : dict K (list A)) (k : K) (items : list A)
    : result (dict K (list A)) :=
  fold_left
    (fun acc item =>
       bind acc (fun data =>
       bind (getitem data k) (fun l => Ok (setitem data k (l ++ [item])))))
    items (Ok data).

(** [select_split]; [verbose] only prints and is left out. *)
Definition select_split (data_cat_split : dict K (dict Split (list A)))
    (split : Split) : result (dict K (list A)) :=
  let data := map (fun kv => (fst kv, @nil A)) data_cat_split in
  fold_left
    (fun acc kv =>
       bind acc (fun data =>
       bind (getitem (snd kv) split) (fun items =>
       append_items data (fst kv) items)))
    data_cat_split (Ok data).

End SelectSplit.

End Splitting.

(** ** Binary64 rounding, for the proofs

    [SpecFloat] rounds a mantissa with a location in three steps: a shift
    that tracks the round and sticky bits, the choice of a neighbour, and a
    second shift that absorbs a carry.  The definitions below restate the
    first two steps on a quotient [A / B] of integers, where shifting one
    more bit is dividing by [2 * B], and give floats their real values. *)

Module B64.

Abbreviation fexp := (SpecFloat.fexp prec emax).

(** Where [A / B] lies between its integer part and the next integer. *)
Definition loc_of (A B : Z) : location :=
  if A mod B =? 0 then loc_Exact else loc_Inexact (2 * (A mod B) ?= B).

Definition rec_of (A B : Z) : shr_record :=
  shr_record_of_loc (A / B) (loc_of A B).

(** The integer nearest to [A / B], ties to even. *)
Definition rnd (A B : Z) : Z := round_nearest_even (A / B) (loc_of A B).

(** Mantissa and exponent of [A / B * 2^e] rounded to binary64. *)
Definition round_core (A B e : Z) : Z * Z :=
  let k := Z.max (fexp (Zdigits2 (A / B) + e) - e) 0 in
  let e1 := e + k in
  let m2 := rnd A (B * 2 ^ k) in
  let k2 := Z.max (fexp (Zdigits2 m2 + e1) - e1) 0 in
  (m2 / 2 ^ k2, e1 + k2).

(** The outcome of [binary_round_aux] by its mantissa and exponent. *)
Definition pack (s : bool) (me : Z * Z) : spec_float :=
  match fst me with
  | 0 => S754_zero s
  | Z.pos m =>
      if snd me <=? emax - prec then S754_finite s m (snd me)
      else S754_infinity s
  | Z.neg _ => S754_nan
  end.

(** A mantissa that has the exponent its size asks for. *)
Definition canonical (m e : Z) : Prop := fexp (Zdigits2 m + e) = e.

(** A float that is zero or positive and finite. *)
Definition nn (r : spec_float) : Prop :=
  match r with
  | S754_zero _ | S754_finite false _ _ => True
  | _ => False
  end.

Local Open Scope R_scope.

Definition bpow (e : Z) : R := powerRZ 2 e.

(** The value of a finite float; zero for the others. *)
Definition SF2R (x : spec_float) : R :=
  match x with
  | S754_finite s m e => (if s then -1 else 1) * (IZR (Z.pos m) * bpow e)
  | _ => 0
  end.

(** The unit roundoff and half the least subnormal. *)
Definition u : R := bpow (-53).
Definition eta : R := bpow (-1075).

(** [r] is a rounding to nearest of the real [X >= 0]: it is a valid float,
    it is within the standard error of [X] unless it overflowed, and it does
    not pass a float that bounds [X]. *)
Definition rounded (X : R) (r : spec_float) : Prop :=
  valid_binary r = true /\
  (r = S754_infinity false \/
   (nn r /\ Rabs (SF2R r - X) <= u * X + eta)) /\
  (forall mF eF,
     SpecFloat.bounded prec emax mF eF = true ->
     X <= IZR (Z.pos mF) * bpow eF ->
     nn r /\ SF2R r <= IZR (Z.pos mF) * bpow eF).

(** The value of a primitive float. *)
Definition val (x : float) : R := SF2R (Prim2SF x).

End B64.

(** ** The contract of the specification, and what the statements need *)

Module Contract.
Import Splitting.

(** A proportional weight of the contract: a float that is not negative,
    and finite. *)
Definition weight (w : float) : Prop :=
  (0 <=? w)%float = true /\ (w <? infinity)%float = true.

(** Not all three weights are zero: one of them is positive. *)
Definition not_all_zero (w1 w2 w3 : float) : Prop :=
  ((0 <? w1) || (0 <? w2) || (0 <? w3))%float = true.

(** [c] is the integer part of the float [x], a finite float that is not
    negative. *)
Definition is_floor (c : Z) (x : float) : Prop :=
  B64.nn (Prim2SF x) /\ (0 <= c)%Z /\ (IZR c <= B64.val x < IZR c + 1)%R.

(** The three counts of an indexer. *)
Definition counts (self : SplitIndexer) : Z * Z * Z :=
  (training_num self, validation_num self, testing_num self).

(** The contract of [numpy.random.permutation]: a permutation of
    [range(n)], whatever the state of the generator. *)
Definition permutes {rng : Type}
    (np_random_permutation : Z -> rng -> list Z * rng) : Prop :=
  forall n st, 0 <= n ->
    Permutation (fst (np_random_permutation n st)) (range n).

(** [b] is a run of consecutive entries of [l]. *)
Definition block {A : Type} (b l : list A) : Prop :=
  exists pre post, l = pre ++ b ++ post.

(** Two lists share no element. *)
Definition disjoint {A : Type} (l1 l2 : list A) : Prop :=
  forall x, In x l1 -> In x l2 -> False.

(** The argument is neither a member of [Split] nor [None], and it is
    equal to no member: a string, an integer, or an object whose [__eq__]
    answers [False] for the three members. *)
Definition other_value (v : value) : Prop :=
  match v with
  | VNone | VSplit _ => False
  | VStr _ | VInt _ => True
  | VObj eq =>
      eq Training = false /\ eq Validation = false /\ eq Testing = false
  end.

(** The branch the loop body [assign] takes for an item. *)
Definition split_of (c : string) (validation_percentage testing_percentage : float)
    (file_name : Path) : Split :=
  let ph := percentage_hash c file_name in
  if (ph <? validation_percentage + testing_percentage)%float then
    if (ph <? testing_percentage)%float then Testing else Validation
  else Training.

(** [file_name] is in the list that [result] gives for category [c] and
    split [sp]. *)
Definition assigned (result : dict string (dict Split (list Path)))
    (c : string) (sp : Split) (file_name : Path) : Prop :=
  exists d l, getitem result c = Ok d /\ getitem d sp = Ok l /\ In file_name l.

(** The items of [vs] whose branch is [sp], in their order. *)
Definition selected (c : string) (validation_percentage testing_percentage : float)
    (sp : Split) (vs : list Path) : list Path :=
  filter (fun f =>
            Split_eqb (split_of c validation_percentage testing_percentage f) sp)
    vs.

(** What the outer loop binds to a category. *)
Definition category_result (c : string)
    (validation_percentage testing_percentage : float) (vs : list Path)
    : dict Split (list Path) :=
  [(Training, selected c validation_percentage testing_percentage Training vs);
   (Validation, selected c validation_percentage testing_percentage Validation vs);
   (Testing, selected c validation_percentage testing_percentage Testing vs)].

(** The text has no underscore. *)
Fixpoint no_underscore (s : string) : bool :=
  match s with
  | EmptyString => true
  | String c s' => negb (Ascii.eqb c "_"%char) && no_underscore s'
  end.

(** The last character of a text, or [d] for the empty text. *)
Fixpoint last_char (s : string) (d : ascii) : ascii :=
  match s with
  | EmptyString => d
  | String c s' => last_char s' c
  end.

(** The text has no newline. *)
Fixpoint no_newline (s : string) : bool :=
  match s with
  | EmptyString => true
  | String c s' => negb (Ascii.eqb c newline) && no_newline s'
  end.

End Contract.

(** ** The procedure as the specification words it

    Section 4.2 of the specification: strip the suffix from the item's name,
    concatenate the category label with the stripped name, hash, map to a
    percentage, and compare with the testing threshold first. *)

Module Spec.
Import Splitting.

Definition stripped_name (file_name : Path) : string :=
  re_sub_nohash (name file_name).

Definition percentage (c : string) (file_name : Path) : float :=
  percentage_of
    (Sha1.digest_int (Sha1.bytes_of_string (c ++ stripped_name file_name))).

Definition split_of (c : string) (validation_percentage testing_percentage : float)
    (file_name : Path) : Split :=
  let p := percentage c file_name in
  if (p <? testing_percentage)%float then Testing
  else if (p <? validation_percentage + testing_percentage)%float
       then Validation
  else Training.

(** Step 5 alone, on a percentage. *)
Definition decide (p validation_percentage testing_percentage : float) : Split :=
  if (p <? testing_percentage)%float then Testing
  else if (p <? validation_percentage + testing_percentage)%float
       then Validation
  else Training.

End Spec.

(** ** A generator that meets the contract of [numpy.random]

    Its state is an integer; a permutation is [range(n)] rotated by the
    state.  The statements that assume the contract are instantiated with
    it. *)

Module Rotation.

Definition rng : Type := Z.

Definition seed (s : Z) : rng := s.

Definition rotate {A : Type} (k : nat) (l : list A) : list A :=
  skipn k l ++ firstn k l.

Definition permutation (n : Z) (st : rng) : list Z * rng :=
  (rotate (Z.to_nat (st mod (Z.max n 1))) (range n), st + 1).

End Rotation.

(** * Facts about binary64 rounding *)

Module B64Facts.
Import B64.
Local Open Scope Z_scope.







Lemma fexp_eq (e : Z) : fexp e = Z.max (e - 53) (-1074).
Proof. reflexivity. Qed.

Lemma digits2_pos_bounds (p : positive) :
  2 ^ (Z.pos (digits2_pos p) - 1) <= Z.pos p < 2 ^ Z.pos (digits2_pos p).
Proof.
  induction p as [p IH | p IH |]; simpl digits2_pos.
  - rewrite Pos2Z.inj_succ, (Pos2Z.inj_xI p).
    set (d := Z.pos (digits2_pos p)) in *.
    assert (Hd : 0 < d) by (unfold d; lia).
    replace (Z.succ d - 1) with (Z.succ (d - 1)) by lia.
    rewrite (Z.pow_succ_r 2 (d - 1)) by lia. rewrite (Z.pow_succ_r 2 d) by lia. lia.
  - rewrite Pos2Z.inj_succ, (Pos2Z.inj_xO p).
    set (d := Z.pos (digits2_pos p)) in *.
    assert (Hd : 0 < d) by (unfold d; lia).
    replace (Z.succ d - 1) with (Z.succ (d - 1)) by lia.
    rewrite (Z.pow_succ_r 2 (d - 1)) by lia. rewrite (Z.pow_succ_r 2 d) by lia. lia.
  - simpl. lia.
Qed.

Lemma Zdigits2_bounds (m : Z) :
  0 < m -> 2 ^ (Zdigits2 m - 1) <= m < 2 ^ Zdigits2 m.
Proof.
  destruct m as [| p | p]; try lia. intros _. apply digits2_pos_bounds.
Qed.

Lemma Zdigits2_pos (m : Z) : 0 < m -> 0 < Zdigits2 m.
Proof. destruct m; simpl; lia. Qed.

Lemma Zdigits2_unique (m d : Z) :
  2 ^ (d - 1) <= m < 2 ^ d -> 0 < d -> Zdigits2 m = d.
Proof.
  intros Hm Hd.
  assert (0 < m) by (pose proof (Z.pow_pos_nonneg 2 (d - 1)); lia).
  pose proof (Zdigits2_bounds m H) as Hb.
  pose proof (Zdigits2_pos m H) as Hp.
  destruct (Z.lt_trichotomy (Zdigits2 m) d) as [Hlt | [Heq | Hgt]]; auto.
  - assert (2 ^ Zdigits2 m <= 2 ^ (d - 1)) by (apply Z.pow_le_mono_r; lia). lia.
  - assert (2 ^ d <= 2 ^ (Zdigits2 m - 1)) by (apply Z.pow_le_mono_r; lia). lia.
Qed.

Lemma Zdigits2_le (a b : Z) : 0 <= a <= b -> Zdigits2 a <= Zdigits2 b.
Proof.
  intros [Ha Hab].
  destruct (Z.eq_dec a 0) as [-> | Hn].
  - destruct b; simpl; lia.
  - assert (0 < a) by lia. assert (0 < b) by lia.
    pose proof (Zdigits2_bounds a H). pose proof (Zdigits2_bounds b H0).
    destruct (Z_lt_le_dec (Zdigits2 b) (Zdigits2 a)) as [Hlt | ]; [| lia].
    assert (2 ^ Zdigits2 b <= 2 ^ (Zdigits2 a - 1)) by (apply Z.pow_le_mono_r; lia). lia.
Qed.

Lemma div_mod_double (A B : Z) :
  0 <= A -> 0 < B ->
  A / (2 * B) = (A / B) / 2 /\ A mod (2 * B) = B * ((A / B) mod 2) + A mod B.
Proof.
  intros HA HB.
  pose proof (Z.div_mod A B ltac:(lia)) as E.
  pose proof (Z.mod_pos_bound A B HB) as Hr.
  pose proof (Z.div_mod (A / B) 2 ltac:(lia)) as E2.
  pose proof (Z.mod_pos_bound (A / B) 2 ltac:(lia)) as Hr2.
  assert (Hd : A = 2 * B * (A / B / 2) + (B * ((A / B) mod 2) + A mod B)) by nia.
  assert (Hb : 0 <= B * ((A / B) mod 2) + A mod B < 2 * B) by nia.
  split.
  - symmetry. eapply Z.div_unique_pos; eauto.
  - symmetry. eapply Z.mod_unique_pos; eauto.
Qed.

Lemma shr_1_of_loc (m : Z) (l : location) :
  0 <= m ->
  shr_1 (shr_record_of_loc m l) =
  {| shr_m := m / 2; shr_r := Z.odd m;
     shr_s := match l with loc_Exact => false | _ => true end |}.
Proof.
  intros Hm. rewrite <- Z.div2_div.
  destruct m as [| [p | p |] | p]; try lia; destruct l as [| []]; reflexivity.
Qed.

Lemma shr_1_rec_of (A B : Z) :
  0 <= A -> 0 < B -> shr_1 (rec_of A B) = rec_of A (2 * B).
Proof.
  intros HA HB.
  destruct (div_mod_double A B HA HB) as [Hq Hm].
  pose proof (Z.mod_pos_bound A B HB) as Hr.
  assert (Hq0 : 0 <= A / B) by (apply Z.div_pos; lia).
  unfold rec_of. rewrite shr_1_of_loc by assumption.
  unfold loc_of. rewrite Hq, Hm, Zmod_odd.
  set (q := A / B) in *. set (r := A mod B) in *.
  destruct (Z.odd q); destruct (Z.eqb_spec r 0) as [Hr0 | Hr0].
  - destruct (Z.eqb_spec (B * 1 + r) 0); [lia |].
    replace (2 * (B * 1 + r) ?= 2 * B) with Eq
      by (symmetry; apply Z.compare_eq_iff; lia).
    reflexivity.
  - destruct (Z.eqb_spec (B * 1 + r) 0); [lia |].
    replace (2 * (B * 1 + r) ?= 2 * B) with Gt
      by (symmetry; apply Z.compare_gt_iff; lia).
    reflexivity.
  - destruct (Z.eqb_spec (B * 0 + r) 0); [| lia]. reflexivity.
  - destruct (Z.eqb_spec (B * 0 + r) 0); [lia |].
    replace (2 * (B * 0 + r) ?= 2 * B) with Lt
      by (symmetry; apply Z.compare_lt_iff; lia).
    reflexivity.
Qed.

Lemma iter_pos_shr_1 (p : positive) : forall A B,
  0 <= A -> 0 < B ->
  SpecFloat.iter_pos shr_1 p (rec_of A B) = rec_of A (B * 2 ^ Z.pos p).
Proof.
  induction p as [p IH | p IH |]; intros A B HA HB; simpl SpecFloat.iter_pos.
  - assert (Hp : 0 < 2 ^ Z.pos p) by (apply Z.pow_pos_nonneg; lia).
    rewrite shr_1_rec_of, IH, IH by (try apply Z.mul_pos_pos; lia).
    f_equal.
    replace (Z.pos p~1) with (1 + Z.pos p + Z.pos p) by lia.
    rewrite !Z.pow_add_r by lia. ring.
  - assert (Hp : 0 < 2 ^ Z.pos p) by (apply Z.pow_pos_nonneg; lia).
    rewrite IH, IH by (try apply Z.mul_pos_pos; lia).
    f_equal.
    replace (Z.pos p~0) with (Z.pos p + Z.pos p) by lia.
    rewrite !Z.pow_add_r by lia. ring.
  - rewrite shr_1_rec_of by lia. f_equal. lia.
Qed.


Lemma loc_of_rec_of (A B : Z) : loc_of_shr_record (rec_of A B) = loc_of A B.
Proof. unfold rec_of. destruct (loc_of A B) as [| []]; reflexivity. Qed.

Lemma shr_m_rec_of (A B : Z) : shr_m (rec_of A B) = A / B.
Proof. unfold rec_of. destruct (loc_of A B) as [| []]; reflexivity. Qed.

Lemma rec_of_exact (m : Z) : shr_record_of_loc m loc_Exact = rec_of m 1.
Proof. unfold rec_of, loc_of. rewrite Z.mod_1_r, Z.div_1_r. reflexivity. Qed.

(** [rnd A B] is an integer nearest to [A / B]. *)
Lemma rnd_cases (A B : Z) :
  0 <= A -> 0 < B ->
  (rnd A B = A / B /\ 2 * (A mod B) <= B) \/
  (rnd A B = A / B + 1 /\ B <= 2 * (A mod B)).
Proof.
  intros HA HB. unfold rnd, loc_of.
  pose proof (Z.mod_pos_bound A B HB) as Hr.
  destruct (Z.eqb_spec (A mod B) 0) as [E | E]; cbn [round_nearest_even].
  - left. lia.
  - destruct (Z.compare_spec (2 * (A mod B)) B) as [C | C | C];
      cbn [round_nearest_even].
    + destruct (Z.even (A / B)); [left | right]; lia.
    + left. lia.
    + right. lia.
Qed.

Lemma rnd_near (A B : Z) :
  0 <= A -> 0 < B -> 2 * A - B <= 2 * (rnd A B * B) <= 2 * A + B.
Proof.
  intros HA HB.
  pose proof (Z.div_mod A B ltac:(lia)) as E.
  pose proof (Z.mod_pos_bound A B HB) as Hr.
  destruct (rnd_cases A B HA HB) as [[-> H] | [-> H]]; nia.
Qed.

Lemma rnd_floor (A B : Z) :
  0 <= A -> 0 < B -> A / B <= rnd A B <= A / B + 1.
Proof.
  intros HA HB. destruct (rnd_cases A B HA HB) as [[-> H] | [-> H]]; lia.
Qed.

Lemma rnd_le (A B K : Z) :
  0 <= A -> 0 < B -> A <= K * B -> rnd A B <= K.
Proof.
  intros HA HB HK.
  pose proof (Z.div_mod A B ltac:(lia)) as E.
  pose proof (Z.mod_pos_bound A B HB) as Hr.
  destruct (rnd_cases A B HA HB) as [[-> H] | [-> H]]; nia.
Qed.

Lemma rnd_ge (A B K : Z) :
  0 <= A -> 0 < B -> K * B <= A -> K <= rnd A B.
Proof.
  intros HA HB HK.
  pose proof (Z.div_mod A B ltac:(lia)) as E.
  pose proof (Z.mod_pos_bound A B HB) as Hr.
  destruct (rnd_cases A B HA HB) as [[-> H] | [-> H]]; nia.
Qed.

Lemma rnd_exact (A : Z) : rnd A 1 = A.
Proof. unfold rnd, loc_of. rewrite Z.mod_1_r, Z.div_1_r. reflexivity. Qed.

Lemma shr_fexp_rec_of (A B e : Z) :
  0 <= A -> 0 < B ->
  let k := Z.max (fexp (Zdigits2 (A / B) + e) - e) 0 in
  shr_fexp prec emax (A / B) e (loc_of A B) = (rec_of A (B * 2 ^ k), e + k).
Proof.
  intros HA HB k. unfold shr_fexp. fold (rec_of A B).
  subst k. destruct (fexp (Zdigits2 (A / B) + e) - e) as [| p | p] eqn:E;
    unfold shr.
  - rewrite Z.max_id. simpl. rewrite Z.mul_1_r, Z.add_0_r. reflexivity.
  - rewrite iter_pos_shr_1 by assumption.
    rewrite Z.max_l by lia. reflexivity.
  - rewrite Z.max_r by lia. simpl. rewrite Z.mul_1_r, Z.add_0_r. reflexivity.
Qed.


Lemma binary_round_aux_core (s : bool) (A B e : Z) :
  0 <= A -> 0 < B ->
  binary_round_aux prec emax s (A / B) e (loc_of A B) =
  pack s (round_core A B e).
Proof.
  intros HA HB. unfold binary_round_aux.
  rewrite shr_fexp_rec_of by assumption.
  rewrite shr_m_rec_of, loc_of_rec_of.
  set (k := Z.max (fexp (Zdigits2 (A / B) + e) - e) 0).
  fold (rnd A (B * 2 ^ k)).
  assert (Hk : 0 < B * 2 ^ k)
    by (apply Z.mul_pos_pos; [lia | apply Z.pow_pos_nonneg; lia]).
  pose proof (rnd_floor A (B * 2 ^ k) HA Hk) as Hf.
  assert (Hm : 0 <= rnd A (B * 2 ^ k))
    by (pose proof (Z.div_pos A (B * 2 ^ k) HA Hk); lia).
  replace (rnd A (B * 2 ^ k)) with (rnd A (B * 2 ^ k) / 1) at 1
    by apply Z.div_1_r.
  replace loc_Exact with (loc_of (rnd A (B * 2 ^ k)) 1)
    by (unfold loc_of; rewrite Z.mod_1_r; reflexivity).
  rewrite shr_fexp_rec_of by lia.
  rewrite shr_m_rec_of, Z.div_1_r, Z.mul_1_l.
  unfold pack, round_core. fold k. simpl fst. simpl snd. reflexivity.
Qed.


Lemma Zdigits2_0 : Zdigits2 0 = 0.
Proof. reflexivity. Qed.

Lemma Zdigits2_nonneg (m : Z) : 0 <= Zdigits2 m.
Proof. destruct m; simpl; lia. Qed.

Lemma Zdigits2_lt_pow (m d : Z) : 0 <= m < 2 ^ d -> 0 <= d -> Zdigits2 m <= d.
Proof.
  intros [H0 H1] Hd. destruct (Z.eq_dec m 0) as [-> | Hn]; [simpl; lia |].
  pose proof (Zdigits2_bounds m ltac:(lia)) as Hb.
  destruct (Z_lt_le_dec d (Zdigits2 m)) as [Hlt |]; [| lia].
  assert (2 ^ d <= 2 ^ (Zdigits2 m - 1)) by (apply Z.pow_le_mono_r; lia). lia.
Qed.

Lemma Zdigits2_ge_pow (m d : Z) : 2 ^ (d - 1) <= m -> 0 < d -> d <= Zdigits2 m.
Proof.
  intros H1 Hd.
  assert (0 < m) by (pose proof (Z.pow_pos_nonneg 2 (d - 1)); lia).
  pose proof (Zdigits2_bounds m H) as Hb.
  destruct (Z_lt_le_dec (Zdigits2 m) d) as [Hlt |]; [| lia].
  assert (2 ^ Zdigits2 m <= 2 ^ (d - 1)) by (apply Z.pow_le_mono_r; lia). lia.
Qed.

(** The second shift of [binary_round_aux]: it only absorbs a carry. *)
Lemma renormalise (m e1 : Z) :
  0 <= m <= 2 ^ 53 -> -1074 <= e1 ->
  (0 < m -> e1 = -1074 \/ 2 ^ 52 <= m) ->
  let k2 := Z.max (fexp (Zdigits2 m + e1) - e1) 0 in
  let m3 := m / 2 ^ k2 in
  let e3 := e1 + k2 in
  0 <= m3 < 2 ^ 53 /\ e1 <= e3 /\ m3 * 2 ^ (e3 - e1) = m /\
  (0 < m3 -> fexp (Zdigits2 m3 + e3) = e3).
Proof.
  intros Hm He Hc k2 m3 e3.
  destruct (Z.eq_dec m (2 ^ 53)) as [E | E].
  - assert (Hk : k2 = 1).
    { unfold k2. rewrite E. change (Zdigits2 (2 ^ 53)) with 54.
      rewrite fexp_eq. lia. }
    unfold m3, e3. rewrite Hk, E.
    change (2 ^ 53 / 2 ^ 1) with (2 ^ 52).
    replace (e1 + 1 - e1) with 1 by lia.
    change (Zdigits2 (2 ^ 52)) with 53. rewrite fexp_eq. lia.
  - assert (Hd : Zdigits2 m <= 53) by (apply Zdigits2_lt_pow; lia).
    assert (Hk : k2 = 0) by (unfold k2; rewrite fexp_eq; lia).
    unfold m3, e3. rewrite Hk. rewrite Z.div_1_r, Z.add_0_r, Z.sub_diag.
    rewrite Z.mul_1_r. repeat split; try lia.
    intros Hp. rewrite fexp_eq. destruct (Hc Hp) as [-> | H52]; [lia |].
    assert (53 <= Zdigits2 m) by (apply Zdigits2_ge_pow; lia). lia.
Qed.

Lemma round_core_spec (A B e : Z) :
  0 <= A -> 0 < B -> e <= fexp (Zdigits2 (A / B) + e) ->
  let e1 := fexp (Zdigits2 (A / B) + e) in
  let m3 := fst (round_core A B e) in
  let e3 := snd (round_core A B e) in
  0 <= m3 < 2 ^ 53 /\ e1 <= e3 /\
  m3 * 2 ^ (e3 - e1) = rnd A (B * 2 ^ (e1 - e)) /\
  (0 < m3 -> fexp (Zdigits2 m3 + e3) = e3).
Proof.
  intros HA HB He e1 m3 e3.
  unfold m3, e3, round_core. cbn [fst snd]. fold e1.
  rewrite (Z.max_l (e1 - e) 0) by lia.
  replace (e + (e1 - e)) with e1 by lia.
  set (k := e1 - e). assert (Hk : 0 <= k) by (unfold k; lia).
  assert (H2k : 0 < 2 ^ k) by (apply Z.pow_pos_nonneg; lia).
  assert (HB1 : 0 < B * 2 ^ k) by (apply Z.mul_pos_pos; lia).
  pose proof (rnd_floor A (B * 2 ^ k) HA HB1) as Hf.
  rewrite <- Z.div_div in Hf by lia.
  set (q := A / B) in *. set (d := Zdigits2 q) in *.
  assert (Hq : 0 <= q) by (apply Z.div_pos; lia).
  assert (He1 : e1 = Z.max (d + e - 53) (-1074)) by (unfold e1; apply fexp_eq).
  assert (Hq1 : 0 <= q / 2 ^ k) by (apply Z.div_pos; lia).
  apply renormalise.
  - split; [lia |].
    destruct (Z.eq_dec q 0) as [Hq0 | Hq0].
    + rewrite Hq0, Z.div_0_l in Hf by lia. lia.
    + pose proof (Zdigits2_bounds q ltac:(lia)) as Hb. fold d in Hb.
      assert (Hd : 0 < d) by (apply Zdigits2_pos; lia).
      destruct (Z_lt_le_dec d k) as [Hdk | Hdk].
      * assert (q / 2 ^ k = 0).
        { apply Z.div_small. split; [lia |].
          assert (2 ^ d <= 2 ^ k) by (apply Z.pow_le_mono_r; lia). lia. }
        lia.
      * assert (q / 2 ^ k < 2 ^ (d - k)).
        { apply Z.div_lt_upper_bound; [lia |].
          rewrite <- Z.pow_add_r by lia. replace (k + (d - k)) with d by lia.
          lia. }
        assert (2 ^ (d - k) <= 2 ^ 53) by (apply Z.pow_le_mono_r; lia).
        lia.
  - lia.
  - intros Hp.
    destruct (Z.eq_dec e1 (-1074)) as [-> | Hn]; [left; reflexivity | right].
    assert (Hd53 : d - k = 53) by lia.
    assert (Hd : 0 < d) by lia.
    assert (Hq0 : 0 < q).
    { destruct (Z.eq_dec q 0) as [E | E]; [| lia].
      unfold d in Hd. rewrite E in Hd. simpl in Hd. lia. }
    pose proof (Zdigits2_bounds q Hq0) as Hb. fold d in Hb.
    assert (2 ^ 52 <= q / 2 ^ k).
    { apply Z.div_le_lower_bound; [lia |].
      rewrite <- Z.pow_add_r by lia. replace (k + 52) with (d - 1) by lia.
      lia. }
    lia.
Qed.


(** *** Real values *)

Local Open Scope R_scope.



Lemma bpow_pos (e : Z) : 0 < bpow e.
Proof. apply powerRZ_lt. lra. Qed.

Lemma bpow_add (a b : Z) : bpow (a + b) = bpow a * bpow b.
Proof. apply powerRZ_add. lra. Qed.

Lemma bpow_IZR (e : Z) : (0 <= e)%Z -> bpow e = IZR (2 ^ e).
Proof.
  intros He. unfold bpow.
  rewrite <- (Z2Nat.id e He) at 1. rewrite <- pow_powerRZ.
  rewrite pow_IZR, Z2Nat.id by assumption. reflexivity.
Qed.

Lemma bpow_lt (a b : Z) : (a < b)%Z -> bpow a < bpow b.
Proof.
  intros H. replace b with (a + (b - a))%Z by lia. rewrite bpow_add.
  rewrite (bpow_IZR (b - a)) by lia.
  assert (1 < IZR (2 ^ (b - a))).
  { apply IZR_lt. apply Z.pow_gt_1; lia. }
  pose proof (bpow_pos a). nra.
Qed.

Lemma bpow_le (a b : Z) : (a <= b)%Z -> bpow a <= bpow b.
Proof.
  intros H. destruct (Z.eq_dec a b) as [-> | N]; [lra |].
  apply Rlt_le, bpow_lt. lia.
Qed.

Lemma bpow_lt_inv (a b : Z) : bpow a < bpow b -> (a < b)%Z.
Proof.
  intros H. destruct (Z_lt_le_dec a b) as [| L]; [assumption |].
  pose proof (bpow_le b a L). lra.
Qed.

Lemma bpow_split (e e' : Z) :
  (e' <= e)%Z -> bpow e = IZR (2 ^ (e - e')) * bpow e'.
Proof.
  intros H. rewrite <- bpow_IZR by lia. rewrite <- bpow_add.
  f_equal. lia.
Qed.

Lemma bpow_0 : bpow 0 = 1.
Proof. reflexivity. Qed.

Lemma bpow_1 : bpow 1 = 2.
Proof. unfold bpow. simpl. lra. Qed.

Lemma bpow_m1 : bpow (-1) = / 2.
Proof. unfold bpow. simpl. rewrite Rmult_1_r. reflexivity. Qed.

Lemma bpow_opp (e : Z) : bpow (- e) = / bpow e.
Proof.
  pose proof (bpow_pos e). pose proof (bpow_add e (- e)) as E.
  rewrite Z.add_opp_diag_r, bpow_0 in E.
  apply Rmult_eq_reg_l with (bpow e); [| lra].
  rewrite Rinv_r by lra. lra.
Qed.




Section RoundCore.
Variables A B e : Z.
Hypothesis HA : (0 <= A)%Z.
Hypothesis HB : (0 < B)%Z.
Hypothesis He : (e <= fexp (Zdigits2 (A / B) + e))%Z.

Let e1 : Z := fexp (Zdigits2 (A / B) + e).
Let B1 : Z := (B * 2 ^ (e1 - e))%Z.
Let m3 : Z := fst (round_core A B e).
Let e3 : Z := snd (round_core A B e).
Let X : R := IZR A / IZR B * bpow e.
Let v : R := IZR m3 * bpow e3.

Lemma core_B1_pos : (0 < B1)%Z.
Proof.
  unfold B1. apply Z.mul_pos_pos; [assumption |].
  apply Z.pow_pos_nonneg; unfold e1; lia.
Qed.

Lemma core_value : v = IZR (rnd A B1) * bpow e1.
Proof.
  destruct (round_core_spec A B e HA HB He) as (_ & H1 & H2 & _).
  fold e1 m3 e3 B1 in H1, H2. unfold v.
  rewrite (bpow_split e3 e1) by assumption.
  rewrite <- H2, mult_IZR. ring.
Qed.

Lemma core_exact : X = IZR A / IZR B1 * bpow e1.
Proof.
  unfold X, B1. rewrite mult_IZR.
  rewrite (bpow_split e1 e) by (unfold e1; lia).
  assert (0 < IZR B) by (apply IZR_lt; assumption).
  assert (0 < IZR (2 ^ (e1 - e))).
  { apply IZR_lt, Z.pow_pos_nonneg; unfold e1; lia. }
  field. lra.
Qed.

Lemma core_half_ulp : Rabs (v - X) <= bpow (e1 - 1).
Proof.
  rewrite core_value, core_exact.
  pose proof core_B1_pos as HB1.
  pose proof (rnd_near A B1 HA HB1) as [L U].
  apply IZR_le in L, U.
  rewrite minus_IZR, !mult_IZR in L. rewrite plus_IZR, !mult_IZR in U.
  assert (P : 0 < IZR B1) by (apply IZR_lt; assumption).
  replace (e1 - 1)%Z with (e1 + -1)%Z by lia. rewrite bpow_add.
  rewrite bpow_m1.
  pose proof (bpow_pos e1) as Pe.
  set (m := IZR (rnd A B1)) in *. set (b := IZR B1) in *.
  replace (m * bpow e1 - IZR A / b * bpow e1)
    with ((m * b - IZR A) / b * bpow e1) by (field; lra).
  rewrite Rabs_mult, (Rabs_pos_eq (bpow e1)) by lra.
  assert (Hab : Rabs ((m * b - IZR A) / b) <= / 2).
  { apply Rabs_le. split.
    - apply Rmult_le_reg_r with b; [assumption |].
      unfold Rdiv. rewrite Rmult_assoc, Rinv_l by lra. lra.
    - apply Rmult_le_reg_r with b; [assumption |].
      unfold Rdiv. rewrite Rmult_assoc, Rinv_l by lra. lra. }
  rewrite (Rmult_comm (bpow e1)).
  apply Rmult_le_compat_r; lra.
Qed.

Lemma core_mono_up (K eK : Z) :
  (e1 <= eK)%Z -> X <= IZR K * bpow eK -> v <= IZR K * bpow eK.
Proof.
  intros HeK HX. rewrite core_value. rewrite core_exact in HX.
  rewrite (bpow_split eK e1) in * by assumption.
  pose proof core_B1_pos as HB1.
  assert (P : 0 < IZR B1) by (apply IZR_lt; assumption).
  pose proof (bpow_pos e1) as Pe.
  rewrite <- Rmult_assoc, <- mult_IZR in *.
  apply Rmult_le_reg_r in HX; [| assumption].
  apply Rmult_le_compat_r; [lra |]. apply IZR_le.
  apply rnd_le; try assumption.
  apply le_IZR. rewrite mult_IZR.
  apply Rmult_le_reg_r with (/ IZR B1); [apply Rinv_0_lt_compat; assumption |].
  rewrite Rmult_assoc, Rinv_r by lra. unfold Rdiv in HX. lra.
Qed.

Lemma core_mono_down (K eK : Z) :
  (e1 <= eK)%Z -> IZR K * bpow eK <= X -> IZR K * bpow eK <= v.
Proof.
  intros HeK HX. rewrite core_value. rewrite core_exact in HX.
  rewrite (bpow_split eK e1) in * by assumption.
  pose proof core_B1_pos as HB1.
  assert (P : 0 < IZR B1) by (apply IZR_lt; assumption).
  pose proof (bpow_pos e1) as Pe.
  rewrite <- Rmult_assoc, <- mult_IZR in *.
  apply Rmult_le_reg_r in HX; [| assumption].
  apply Rmult_le_compat_r; [lra |]. apply IZR_le.
  apply rnd_ge; try assumption.
  apply le_IZR. rewrite mult_IZR.
  apply Rmult_le_reg_r with (/ IZR B1); [apply Rinv_0_lt_compat; assumption |].
  rewrite Rmult_assoc, Rinv_r by lra. unfold Rdiv in HX. lra.
Qed.

End RoundCore.


(** *** Canonical representations *)


Lemma bounded_iff (m : positive) (e : Z) :
  SpecFloat.bounded prec emax m e = true <-> canonical (Z.pos m) e /\ (e <= 971)%Z.
Proof.
  unfold SpecFloat.bounded, canonical_mantissa, canonical. simpl Zdigits2.
  rewrite andb_true_iff, Z.eqb_eq, Z.leb_le. reflexivity.
Qed.

Lemma canonical_digits (m e : Z) :
  canonical m e -> (Zdigits2 m <= 53)%Z /\ (-1074 <= e)%Z /\
                   ((-1074 < e)%Z -> Zdigits2 m = 53%Z).
Proof. unfold canonical. rewrite fexp_eq. lia. Qed.

Lemma IZR_digits_lower (m : Z) :
  (0 < m)%Z -> bpow (Zdigits2 m - 1) <= IZR m.
Proof.
  intros Hm. pose proof (Zdigits2_bounds m Hm) as [L _].
  pose proof (Zdigits2_pos m Hm).
  rewrite bpow_IZR by lia. apply IZR_le. assumption.
Qed.

Lemma IZR_digits_upper (m : Z) :
  (0 <= m)%Z -> IZR m < bpow (Zdigits2 m).
Proof.
  intros Hm. destruct (Z.eq_dec m 0) as [-> | N].
  - change (Zdigits2 0) with 0%Z. rewrite bpow_0. lra.
  - pose proof (Zdigits2_bounds m ltac:(lia)) as [_ U].
    pose proof (Zdigits2_pos m ltac:(lia)).
    rewrite bpow_IZR by lia. apply IZR_lt. assumption.
Qed.

(** Canonical floats are ordered by exponent first. *)
Lemma canonical_le (m e m' e' : Z) :
  (0 < m)%Z -> (0 < m')%Z -> canonical m e -> canonical m' e' ->
  IZR m * bpow e <= IZR m' * bpow e' -> (e <= e')%Z.
Proof.
  intros Hm Hm' C C' H.
  destruct (Z_le_gt_dec e e') as [| G]; [assumption | exfalso].
  destruct (canonical_digits m e C) as (_ & _ & D).
  destruct (canonical_digits m' e' C') as (D' & E' & _).
  pose proof (IZR_digits_lower m Hm) as L. rewrite D in L by lia.
  pose proof (IZR_digits_upper m' ltac:(lia)) as U.
  assert (U' : IZR m' < bpow 53).
  { eapply Rlt_le_trans; [exact U | apply bpow_le; assumption]. }
  pose proof (bpow_le (e' + 1) e ltac:(lia)) as Le. rewrite bpow_add in Le.
  pose proof (bpow_pos e'). pose proof (bpow_pos e).
  change (53 - 1)%Z with 52%Z in L.
  assert (E : bpow 53 = 2 * bpow 52).
  { change 53%Z with (1 + 52)%Z. rewrite bpow_add, bpow_1. reflexivity. }
  rewrite bpow_1 in Le.
  assert (0 < bpow 52) by apply bpow_pos.
  nra.
Qed.

Lemma canonical_lt_mantissa (m e m' : Z) :
  IZR m * bpow e <= IZR m' * bpow e -> (m <= m')%Z.
Proof.
  intros H. pose proof (bpow_pos e). apply le_IZR. nra.
Qed.


(** *** The rounded result as a float *)



Section RoundResult.
Variables A B e : Z.
Hypothesis HA : (0 <= A)%Z.
Hypothesis HB : (0 < B)%Z.
Hypothesis He : (e <= fexp (Zdigits2 (A / B) + e))%Z.

Let e1 : Z := fexp (Zdigits2 (A / B) + e).
Let m3 : Z := fst (round_core A B e).
Let e3 : Z := snd (round_core A B e).
Let X : R := IZR A / IZR B * bpow e.
Let v : R := IZR m3 * bpow e3.
Let r : spec_float := pack false (round_core A B e).

Lemma core_quotient : IZR (A / B) <= IZR A / IZR B < IZR (A / B) + 1.
Proof.
  assert (P : 0 < IZR B) by (apply IZR_lt; assumption).
  pose proof (Z.mul_div_le A B HB) as L.
  pose proof (Z.mul_succ_div_gt A B HB) as U.
  apply IZR_le in L. apply IZR_lt in U.
  rewrite mult_IZR in L. rewrite mult_IZR, succ_IZR in U.
  split.
  - apply Rmult_le_reg_r with (IZR B); [assumption |].
    unfold Rdiv. rewrite Rmult_assoc, Rinv_l by lra. lra.
  - apply Rmult_lt_reg_r with (IZR B); [assumption |].
    unfold Rdiv. rewrite Rmult_assoc, Rinv_l by lra. lra.
Qed.

Lemma core_X_nonneg : 0 <= X.
Proof.
  unfold X. pose proof core_quotient as [L _]. pose proof (bpow_pos e).
  assert (0 <= IZR (A / B)) by (apply IZR_le, Z.div_pos; lia).
  apply Rmult_le_pos; lra.
Qed.

Lemma core_X_lower :
  (0 < A / B)%Z -> bpow (Zdigits2 (A / B) - 1 + e) <= X.
Proof.
  intros Hq. unfold X. rewrite bpow_add.
  pose proof core_quotient as [L _]. pose proof (bpow_pos e).
  pose proof (IZR_digits_lower (A / B) Hq).
  apply Rmult_le_compat_r; lra.
Qed.

Lemma core_e1_le (mF eF : Z) :
  (0 < mF)%Z -> canonical mF eF -> X <= IZR mF * bpow eF -> (e1 <= eF)%Z.
Proof.
  intros Hm C H.
  destruct (canonical_digits mF eF C) as (_ & E & _).
  destruct (Z.eq_dec (A / B) 0) as [Q | Q].
  - unfold e1 in *. rewrite Q in *. change (Zdigits2 0) with 0%Z in *.
    rewrite fexp_eq in *. lia.
  - assert (Hq : (0 < A / B)%Z)
      by (pose proof (Z.div_pos A B HA HB); lia).
    pose proof (core_X_lower Hq) as L.
    pose proof (IZR_digits_upper mF ltac:(lia)) as U.
    pose proof (bpow_pos eF).
    assert (bpow (Zdigits2 (A / B) - 1 + e) < bpow (Zdigits2 mF + eF)).
    { rewrite (bpow_add (Zdigits2 mF)). nra. }
    apply bpow_lt_inv in H1.
    unfold canonical in C. unfold e1. rewrite fexp_eq in *. lia.
Qed.

Lemma core_err_normal : (-1074 < e1)%Z -> Rabs (v - X) <= u * X.
Proof.
  intros N. pose proof (core_half_ulp A B e HA HB He) as H.
  fold e1 m3 e3 in H. fold X v in H.
  assert (D : (e1 = Zdigits2 (A / B) + e - 53)%Z)
    by (unfold e1 in *; rewrite fexp_eq in *; lia).
  assert (Hq : (0 < A / B)%Z).
  { destruct (Z.eq_dec (A / B) 0) as [Q | Q].
    - rewrite Q in D. change (Zdigits2 0) with 0%Z in D. lia.
    - pose proof (Z.div_pos A B HA HB). lia. }
  pose proof (core_X_lower Hq) as L.
  replace (e1 - 1)%Z with (-53 + (Zdigits2 (A / B) - 1 + e))%Z in H by lia.
  rewrite bpow_add in H. fold u in H.
  assert (0 < u) by apply bpow_pos. nra.
Qed.

Lemma core_err_subnormal : e1 = (-1074)%Z -> Rabs (v - X) <= eta.
Proof.
  intros N. pose proof (core_half_ulp A B e HA HB He) as H.
  fold e1 m3 e3 in H. fold X v in H. rewrite N in H. exact H.
Qed.

Lemma core_err : Rabs (v - X) <= u * X + eta.
Proof.
  pose proof core_X_nonneg. assert (0 < u) by apply bpow_pos.
  assert (0 < eta) by apply bpow_pos.
  destruct (Z.eq_dec e1 (-1074)) as [E | N].
  - pose proof (core_err_subnormal E). nra.
  - assert (G : (-1074 < e1)%Z) by (unfold e1 in *; rewrite fexp_eq in *; lia).
    pose proof (core_err_normal G). nra.
Qed.

(** With no division and no shift the result is the value itself. *)
Lemma core_same : B = 1%Z -> e1 = e -> v = X.
Proof.
  intros HB1 E. pose proof (core_value A B e HA HB He) as V.
  fold e1 m3 e3 in V. fold v in V. rewrite V. unfold X.
  rewrite HB1, E, Z.sub_diag, Z.mul_1_l. simpl (2 ^ 0)%Z.
  rewrite rnd_exact. field.
Qed.

Lemma core_nonneg : 0 <= v.
Proof.
  destruct (round_core_spec A B e HA HB He) as ((H0 & _) & _).
  fold m3 in H0. unfold v. pose proof (bpow_pos e3).
  apply IZR_le in H0. nra.
Qed.

Lemma pack_cases :
  (m3 = 0%Z /\ r = S754_zero false /\ v = 0) \/
  (exists p, m3 = Z.pos p /\ canonical (Z.pos p) e3 /\
     ((e3 <= 971)%Z /\ r = S754_finite false p e3 \/
      (971 < e3)%Z /\ r = S754_infinity false)).
Proof.
  destruct (round_core_spec A B e HA HB He) as ((H0 & _) & _ & _ & C).
  fold m3 e3 in H0, C. unfold r, pack. fold m3 e3. unfold v.
  destruct m3 as [| p | p] eqn:E; [left | right | lia].
  - repeat split. simpl. ring.
  - exists p. split; [reflexivity |]. split; [apply C; lia |].
    change (emax - prec)%Z with 971%Z.
    destruct (Z.leb_spec e3 971); [left | right]; split; auto.
Qed.

Lemma pack_valid : valid_binary r = true.
Proof.
  destruct pack_cases as [(_ & -> & _) | (p & _ & C & [[L ->] | [_ ->]])];
    try reflexivity.
  simpl. apply bounded_iff. split; assumption.
Qed.

Lemma pack_value : r = S754_infinity false \/ (nn r /\ SF2R r = v).
Proof.
  destruct pack_cases as [(_ & -> & V) | (p & E & C & [[L ->] | [_ ->]])].
  - right. simpl. rewrite V. auto.
  - right. simpl. unfold v. rewrite E. split; [exact I | ring].
  - left. reflexivity.
Qed.

Lemma pack_up (mF : positive) (eF : Z) :
  SpecFloat.bounded prec emax mF eF = true ->
  X <= IZR (Z.pos mF) * bpow eF ->
  nn r /\ SF2R r <= IZR (Z.pos mF) * bpow eF.
Proof.
  intros HF HX. apply bounded_iff in HF. destruct HF as [CF LF].
  pose proof (core_e1_le (Z.pos mF) eF ltac:(lia) CF HX) as E1.
  pose proof (core_mono_up A B e HA HB He (Z.pos mF) eF E1 HX) as V.
  fold m3 e3 in V. fold v in V.
  destruct pack_cases as [(_ & -> & V0) | (p & E & C & [[L ->] | [G ->]])].
  - simpl. rewrite <- V0. auto.
  - simpl. unfold v in V. rewrite E in V. split; [exact I | lra].
  - exfalso. unfold v in V. rewrite E in V.
    pose proof (canonical_le (Z.pos p) e3 (Z.pos mF) eF
                  ltac:(lia) ltac:(lia) C CF V). lia.
Qed.

(** The rounding does not fall below a float that is below the value. *)
Lemma pack_down (mF : positive) (eF : Z) :
  SpecFloat.bounded prec emax mF eF = true ->
  IZR (Z.pos mF) * bpow eF <= X ->
  r = S754_infinity false \/ (nn r /\ IZR (Z.pos mF) * bpow eF <= SF2R r).
Proof.
  intros HF HX. apply bounded_iff in HF. destruct HF as [CF LF].
  assert (V : IZR (Z.pos mF) * bpow eF <= v).
  { destruct (Z_le_gt_dec e1 eF) as [L | G].
    - pose proof (core_mono_down A B e HA HB He (Z.pos mF) eF L HX) as V.
      fold m3 e3 in V. fold v in V. exact V.
    - destruct (canonical_digits _ _ CF) as (D & Emin & _).
      assert (De : (e1 = Zdigits2 (A / B) + e - 53)%Z)
        by (unfold e1 in *; rewrite fexp_eq in *; lia).
      assert (Hq : (0 < A / B)%Z).
      { destruct (Z.eq_dec (A / B) 0) as [Q | Q].
        - rewrite Q in De. change (Zdigits2 0) with 0%Z in De. lia.
        - pose proof (Z.div_pos A B HA HB). lia. }
      pose proof (core_X_lower Hq) as L.
      replace (Zdigits2 (A / B) - 1 + e)%Z with (52 + e1)%Z in L by lia.
      rewrite bpow_add, (bpow_IZR 52) in L by lia.
      pose proof (core_mono_down A B e HA HB He (2 ^ 52) e1
                    (Z.le_refl _) L) as V.
      fold m3 e3 in V. fold v in V.
      pose proof (IZR_digits_upper (Z.pos mF) ltac:(lia)) as U.
      assert (U' : IZR (Z.pos mF) < bpow 53).
      { eapply Rlt_le_trans; [exact U | apply bpow_le; assumption]. }
      pose proof (bpow_le (eF + 1) e1 ltac:(lia)) as Le.
      rewrite bpow_add, bpow_1 in Le.
      assert (E53 : bpow 53 = 2 * IZR (2 ^ 52)).
      { change 53%Z with (1 + 52)%Z.
        rewrite bpow_add, bpow_1, (bpow_IZR 52) by lia. reflexivity. }
      pose proof (bpow_pos eF). pose proof (bpow_pos e1).
      assert (0 < IZR (2 ^ 52)) by (apply IZR_lt; reflexivity).
      assert (0 < IZR (Z.pos mF)) by (apply IZR_lt; lia).
      apply Rle_trans with (IZR (2 ^ 52) * bpow e1); [| exact V].
      apply Rle_trans with (bpow 53 * bpow eF).
      + apply Rmult_le_compat_r; lra.
      + rewrite E53. nra. }
  destruct pack_value as [-> | [N E]]; [left; reflexivity | right].
  split; [assumption | rewrite E; exact V].
Qed.

Theorem pack_rounded : rounded X r.
Proof.
  split; [apply pack_valid | split].
  - destruct pack_value as [-> | [N V]]; [left; reflexivity | right].
    split; [assumption |]. rewrite V. apply core_err.
  - apply pack_up.
Qed.

(** An exact sum of floats is rounded with a relative error only. *)
Lemma pack_relative :
  B = 1%Z -> (-1074 <= e)%Z ->
  r = S754_infinity false \/ (nn r /\ Rabs (SF2R r - X) <= u * X).
Proof.
  intros HB1 Hemin.
  destruct pack_value as [-> | [N V]]; [left; reflexivity | right].
  split; [assumption |]. rewrite V.
  destruct (Z.eq_dec e1 (-1074)) as [E | E].
  - assert (e1 = e) by (unfold e1 in *; lia).
    rewrite (core_same HB1 H). unfold Rminus. rewrite Rplus_opp_r, Rabs_R0.
    pose proof core_X_nonneg. assert (0 < u) by apply bpow_pos. nra.
  - apply core_err_normal. unfold e1 in *. rewrite fexp_eq in *. lia.
Qed.

Lemma pack_same :
  B = 1%Z -> e1 = e -> r = S754_infinity false \/ (nn r /\ SF2R r = X).
Proof.
  intros HB1 E.
  destruct pack_value as [-> | [N V]]; [left; reflexivity | right].
  split; [assumption |]. rewrite V. apply core_same; assumption.
Qed.

End RoundResult.


(** *** [binary_round] and the operations *)

Lemma iter_xO (m d : positive) :
  Z.pos (Pos.iter xO m d) = (Z.pos m * 2 ^ Z.pos d)%Z.
Proof.
  induction d as [| d IH] using Pos.peano_ind.
  - simpl. lia.
  - rewrite Pos.iter_succ, Pos2Z.inj_xO, IH, Pos2Z.inj_succ.
    rewrite Z.pow_succ_r by lia. ring.
Qed.

Lemma shl_align_spec (m : positive) (e e' : Z) :
  snd (shl_align m e e') = Z.min e e' /\
  Z.pos (fst (shl_align m e e')) = (Z.pos m * 2 ^ (e - Z.min e e'))%Z.
Proof.
  unfold shl_align. destruct (e' - e)%Z as [| p | p] eqn:E; cbn [fst snd].
  - rewrite Z.min_l by lia. rewrite Z.sub_diag. simpl. lia.
  - rewrite Z.min_l by lia. rewrite Z.sub_diag. simpl. lia.
  - rewrite Z.min_r by lia. rewrite iter_xO.
    replace (e - e')%Z with (Z.pos p) by lia. auto.
Qed.

Lemma Zdigits2_shift (m k : Z) :
  (0 < m)%Z -> (0 <= k)%Z -> Zdigits2 (m * 2 ^ k) = (Zdigits2 m + k)%Z.
Proof.
  intros Hm Hk. pose proof (Zdigits2_bounds m Hm) as [L U].
  pose proof (Zdigits2_pos m Hm) as P.
  assert (H2 : (0 < 2 ^ k)%Z) by (apply Z.pow_pos_nonneg; lia).
  apply Zdigits2_unique; [| lia].
  replace (Zdigits2 m + k - 1)%Z with (Zdigits2 m - 1 + k)%Z by lia.
  rewrite !Z.pow_add_r by lia. nia.
Qed.

Section BinaryRound.
Variable m : positive.
Variable e : Z.

Let e0 : Z := Z.min e (fexp (Zdigits2 (Z.pos m) + e)).
Let A : Z := (Z.pos m * 2 ^ (e - e0))%Z.

Lemma binary_round_A_pos : (0 < A)%Z.
Proof.
  unfold A. apply Z.mul_pos_pos; [lia |].
  apply Z.pow_pos_nonneg; unfold e0; lia.
Qed.

Lemma binary_round_digits : (Zdigits2 (A / 1) + e0 = Zdigits2 (Z.pos m) + e)%Z.
Proof.
  rewrite Z.div_1_r. unfold A. rewrite Zdigits2_shift by (unfold e0; lia). lia.
Qed.

Lemma binary_round_He : (e0 <= fexp (Zdigits2 (A / 1) + e0))%Z.
Proof. rewrite binary_round_digits. unfold e0. lia. Qed.

Lemma binary_round_core :
  binary_round prec emax false m e = pack false (round_core A 1 e0).
Proof.
  unfold binary_round.
  pose proof (shl_align_spec m e (fexp (Z.pos (digits2_pos m) + e))) as [S1 S2].
  destruct (shl_align m e (fexp (Z.pos (digits2_pos m) + e))) as [mz ez].
  cbn [fst snd] in S1, S2. change (Z.pos (digits2_pos m)) with (Zdigits2 (Z.pos m)) in *.
  fold e0 in S1, S2. fold A in S2. subst ez. rewrite S2.
  rewrite <- binary_round_aux_core by (pose proof binary_round_A_pos; lia).
  rewrite Z.div_1_r. unfold loc_of. rewrite Z.mod_1_r. reflexivity.
Qed.

Lemma binary_round_X :
  IZR A / IZR 1 * bpow e0 = IZR (Z.pos m) * bpow e.
Proof.
  unfold A. rewrite mult_IZR, (bpow_split e e0) by (unfold e0; lia).
  field.
Qed.

Theorem binary_round_rounded :
  rounded (IZR (Z.pos m) * bpow e) (binary_round prec emax false m e).
Proof.
  rewrite binary_round_core, <- binary_round_X.
  apply pack_rounded; [pose proof binary_round_A_pos; lia | lia |].
  apply binary_round_He.
Qed.

Theorem binary_round_down (mF : positive) (eF : Z) :
  SpecFloat.bounded prec emax mF eF = true ->
  IZR (Z.pos mF) * bpow eF <= IZR (Z.pos m) * bpow e ->
  let r := binary_round prec emax false m e in
  r = S754_infinity false \/ (nn r /\ IZR (Z.pos mF) * bpow eF <= SF2R r).
Proof.
  intros HF HX. cbv zeta. rewrite binary_round_core.
  rewrite <- binary_round_X in HX.
  apply pack_down;
    [pose proof binary_round_A_pos; lia | lia | apply binary_round_He
    | exact HF | exact HX].
Qed.

Theorem binary_round_relative :
  (-1074 <= e)%Z ->
  let r := binary_round prec emax false m e in
  let X := IZR (Z.pos m) * bpow e in
  r = S754_infinity false \/ (nn r /\ Rabs (SF2R r - X) <= u * X).
Proof.
  intros Hemin. cbv zeta. rewrite binary_round_core, <- binary_round_X.
  pose proof binary_round_A_pos as HA.
  apply pack_relative;
    [lia | lia | apply binary_round_He | reflexivity |].
  unfold e0. rewrite fexp_eq. lia.
Qed.

Theorem binary_round_same :
  (fexp (Zdigits2 (Z.pos m) + e) <= e)%Z ->
  let r := binary_round prec emax false m e in
  r = S754_infinity false \/ (nn r /\ SF2R r = IZR (Z.pos m) * bpow e).
Proof.
  intros Hfit. cbv zeta. rewrite binary_round_core, <- binary_round_X.
  pose proof binary_round_A_pos as HA.
  apply pack_same;
    [lia | lia | apply binary_round_He | reflexivity |].
  rewrite binary_round_digits. unfold e0. lia.
Qed.

End BinaryRound.


Lemma nn_cases (x : spec_float) :
  nn x -> (exists s, x = S754_zero s) \/ (exists m e, x = S754_finite false m e).
Proof.
  destruct x as [s | s | | [|] m e]; simpl; try contradiction; intros _.
  - left. exists s. reflexivity.
  - right. exists m, e. reflexivity.
Qed.

Lemma SF2R_nonneg (x : spec_float) : nn x -> 0 <= SF2R x.
Proof.
  intros H. destruct (nn_cases x H) as [[s ->] | (m & e & ->)]; simpl.
  - lra.
  - pose proof (bpow_pos e). assert (0 < IZR (Z.pos m)) by (apply IZR_lt; lia).
    nra.
Qed.

Lemma SF2R_finite (m : positive) (e : Z) :
  SF2R (S754_finite false m e) = IZR (Z.pos m) * bpow e.
Proof. simpl. ring. Qed.

Lemma SF2R_finite_pos (m : positive) (e : Z) :
  0 < SF2R (S754_finite false m e).
Proof.
  rewrite SF2R_finite. pose proof (bpow_pos e).
  assert (0 < IZR (Z.pos m)) by (apply IZR_lt; lia). nra.
Qed.

Lemma rounded_self (x : spec_float) :
  valid_binary x = true -> nn x -> rounded (SF2R x) x.
Proof.
  intros V N. pose proof (SF2R_nonneg x N).
  assert (0 < u) by apply bpow_pos. assert (0 < eta) by apply bpow_pos.
  split; [assumption | split].
  - right. split; [assumption |].
    unfold Rminus. rewrite Rplus_opp_r, Rabs_R0. nra.
  - intros mF eF _ L. auto.
Qed.

Lemma rounded_zero (s : bool) : rounded 0 (S754_zero s).
Proof. apply (rounded_self (S754_zero s)); simpl; auto. Qed.

Lemma Zdigits2_mul (a b : Z) :
  (0 < a)%Z -> (0 < b)%Z ->
  (Zdigits2 a + Zdigits2 b - 1 <= Zdigits2 (a * b))%Z.
Proof.
  intros Ha Hb.
  pose proof (Zdigits2_bounds a Ha) as [La _].
  pose proof (Zdigits2_bounds b Hb) as [Lb _].
  pose proof (Zdigits2_pos a Ha). pose proof (Zdigits2_pos b Hb).
  apply Zdigits2_ge_pow; [| lia].
  replace (Zdigits2 a + Zdigits2 b - 1 - 1)%Z
    with ((Zdigits2 a - 1) + (Zdigits2 b - 1))%Z by lia.
  rewrite Z.pow_add_r by lia.
  assert (0 < 2 ^ (Zdigits2 a - 1))%Z by (apply Z.pow_pos_nonneg; lia).
  assert (0 < 2 ^ (Zdigits2 b - 1))%Z by (apply Z.pow_pos_nonneg; lia).
  nia.
Qed.

Lemma valid_finite (s : bool) (m : positive) (e : Z) :
  valid_binary (S754_finite s m e) = true ->
  canonical (Z.pos m) e /\ (e <= 971)%Z.
Proof. intros V. apply bounded_iff. exact V. Qed.

(** **** Multiplication *)

Theorem SFmul_rounded (x y : spec_float) :
  valid_binary x = true -> valid_binary y = true -> nn x -> nn y ->
  rounded (SF2R x * SF2R y) (SF64mul x y).
Proof.
  intros Vx Vy Nx Ny.
  destruct (nn_cases x Nx) as [[sx ->] | (mx & ex & ->)];
    destruct (nn_cases y Ny) as [[sy ->] | (my & ey & ->)];
    try (simpl SF2R; rewrite ?Rmult_0_l, ?Rmult_0_r; apply rounded_zero).
  rewrite !SF2R_finite.
  unfold SF64mul, SFmul. cbn [xorb].
  destruct (valid_finite _ _ _ Vx) as [Cx _].
  destruct (valid_finite _ _ _ Vy) as [Cy _].
  set (A := Z.pos (mx * my)).
  assert (HA : (0 < A)%Z) by (unfold A; lia).
  replace (binary_round_aux prec emax false A (ex + ey) loc_Exact)
    with (binary_round_aux prec emax false (A / 1) (ex + ey) (loc_of A 1))
    by (rewrite Z.div_1_r; unfold loc_of; rewrite Z.mod_1_r; reflexivity).
  rewrite binary_round_aux_core by lia.
  replace (IZR (Z.pos mx) * bpow ex * (IZR (Z.pos my) * bpow ey))
    with (IZR A / IZR 1 * bpow (ex + ey))
    by (unfold A; rewrite Pos2Z.inj_mul, mult_IZR, bpow_add; field).
  apply pack_rounded; try lia.
  rewrite Z.div_1_r. unfold A. rewrite Pos2Z.inj_mul.
  pose proof (Zdigits2_mul (Z.pos mx) (Z.pos my) ltac:(lia) ltac:(lia)).
  destruct (canonical_digits _ _ Cx) as (? & ? & ?).
  destruct (canonical_digits _ _ Cy) as (? & ? & ?).
  pose proof (Zdigits2_pos (Z.pos mx) ltac:(lia)).
  pose proof (Zdigits2_pos (Z.pos my) ltac:(lia)).
  rewrite fexp_eq. lia.
Qed.

(** **** Division *)

Lemma new_location_loc_of (A B : Z) :
  (0 < B)%Z -> new_location B (A mod B) = loc_of A B.
Proof.
  intros HB. pose proof (Z.mod_pos_bound A B HB) as Hr.
  unfold new_location, new_location_even, new_location_odd, loc_of.
  destruct (Z.even B) eqn:E; [reflexivity |].
  destruct (Z.eqb (A mod B) 0); [reflexivity |]. f_equal.
  assert (O : Z.odd B = true) by (rewrite <- Z.negb_even, E; reflexivity).
  apply Z.odd_spec in O. destruct O as [k Hk].
  destruct (Z.compare_spec (2 * (A mod B) + 1) B);
    destruct (Z.compare_spec (2 * (A mod B)) B); try reflexivity; lia.
Qed.

Lemma SFdiv_core_spec (mx my : positive) (ex ey : Z) :
  let e' := Z.min (fexp (Zdigits2 (Z.pos mx) + ex - (Zdigits2 (Z.pos my) + ey)))
                  (ex - ey) in
  let A := (Z.pos mx * 2 ^ (ex - ey - e'))%Z in
  SFdiv_core_binary prec emax (Z.pos mx) ex (Z.pos my) ey =
  (A / Z.pos my, e', loc_of A (Z.pos my))%Z.
Proof.
  intros e' A. unfold SFdiv_core_binary. fold e'.
  assert (Hs : (0 <= ex - ey - e')%Z) by (unfold e'; lia).
  assert (Hm : match (ex - ey - e')%Z with
               | Z.pos _ => Z.shiftl (Z.pos mx) (ex - ey - e')
               | 0%Z => Z.pos mx
               | Z.neg _ => 0%Z
               end = A).
  { unfold A. destruct (ex - ey - e')%Z as [| p | p] eqn:E.
    - simpl. lia.
    - rewrite Z.shiftl_mul_pow2 by lia. reflexivity.
    - lia. }
  rewrite Hm.
  pose proof (new_location_loc_of A (Z.pos my) ltac:(lia)) as NL.
  unfold Z.modulo in NL. unfold Z.div.
  destruct (Z.div_eucl A (Z.pos my)) as [q r]. rewrite NL. reflexivity.
Qed.

Theorem SFdiv_rounded (x : spec_float) (my : positive) (ey : Z) :
  valid_binary x = true -> valid_binary (S754_finite false my ey) = true ->
  nn x ->
  rounded (SF2R x / SF2R (S754_finite false my ey))
          (SF64div x (S754_finite false my ey)).
Proof.
  intros Vx Vy Nx.
  pose proof (SF2R_finite_pos my ey) as Py.
  destruct (nn_cases x Nx) as [[sx ->] | (mx & ex & ->)].
  - simpl SF2R at 1. unfold Rdiv. rewrite Rmult_0_l. apply rounded_zero.
  - rewrite !SF2R_finite in *.
    unfold SF64div, SFdiv. cbn [xorb].
    rewrite SFdiv_core_spec.
    set (e' := Z.min (fexp (Zdigits2 (Z.pos mx) + ex - (Zdigits2 (Z.pos my) + ey)))
                     (ex - ey)).
    set (A := (Z.pos mx * 2 ^ (ex - ey - e'))%Z).
    assert (Hs : (0 <= ex - ey - e')%Z) by (unfold e'; lia).
    assert (H2 : (0 < 2 ^ (ex - ey - e'))%Z) by (apply Z.pow_pos_nonneg; lia).
    assert (HA : (0 < A)%Z) by (unfold A; apply Z.mul_pos_pos; lia).
    rewrite binary_round_aux_core by lia.
    replace (IZR (Z.pos mx) * bpow ex / (IZR (Z.pos my) * bpow ey))
      with (IZR A / IZR (Z.pos my) * bpow e').
    + apply pack_rounded; try lia.
      set (d1 := Zdigits2 (Z.pos mx)) in *. set (d2 := Zdigits2 (Z.pos my)) in *.
      assert (Hd : (d1 + (ex - ey - e') - d2 <= Zdigits2 (A / Z.pos my))%Z).
      { destruct (Z_le_gt_dec (d1 + (ex - ey - e') - d2) 0) as [L | G].
        - pose proof (Zdigits2_nonneg (A / Z.pos my)). lia.
        - apply Zdigits2_ge_pow; [| lia].
          pose proof (Zdigits2_bounds (Z.pos mx) ltac:(lia)) as [L1 _].
          pose proof (Zdigits2_bounds (Z.pos my) ltac:(lia)) as [_ U2].
          fold d1 in L1. fold d2 in U2.
          pose proof (Zdigits2_pos (Z.pos mx) ltac:(lia)) as P1. fold d1 in P1.
          pose proof (Zdigits2_pos (Z.pos my) ltac:(lia)) as P2. fold d2 in P2.
          apply Z.div_le_lower_bound; [lia |].
          assert (E : (2 ^ (d1 + (ex - ey - e') - d2 - 1) * 2 ^ d2 =
                       2 ^ (d1 - 1) * 2 ^ (ex - ey - e'))%Z).
          { rewrite <- !Z.pow_add_r by lia. f_equal. lia. }
          assert (0 < 2 ^ (d1 + (ex - ey - e') - d2 - 1))%Z
            by (apply Z.pow_pos_nonneg; lia).
          unfold A. nia. }
      unfold e' in *. rewrite !fexp_eq in *. lia.
    + unfold A. rewrite mult_IZR.
      replace ex with ((ex - ey - e') + e' + ey)%Z at 2 by lia.
      rewrite !bpow_add, <- (bpow_IZR (ex - ey - e')) by lia.
      pose proof (bpow_pos ey). pose proof (bpow_pos e').
      assert (0 < IZR (Z.pos my)) by (apply IZR_lt; lia).
      field. split; lra.
Qed.


(** **** Addition *)

Lemma SFadd_finite (mx my : positive) (ex ey : Z) :
  let ez := Z.min ex ey in
  exists p,
    SF64add (S754_finite false mx ex) (S754_finite false my ey) =
    binary_round prec emax false p ez /\
    IZR (Z.pos p) * bpow ez =
    SF2R (S754_finite false mx ex) + SF2R (S754_finite false my ey).
Proof.
  intros ez. unfold SF64add, SFadd. fold ez. cbn [cond_Zopp].
  pose proof (shl_align_spec mx ex ez) as [_ Sx].
  pose proof (shl_align_spec my ey ez) as [_ Sy].
  rewrite (Z.min_r ex ez) in Sx by (unfold ez; lia).
  rewrite (Z.min_r ey ez) in Sy by (unfold ez; lia).
  set (a := fst (shl_align mx ex ez)) in *.
  set (b := fst (shl_align my ey ez)) in *.
  exists (a + b)%positive. split; [reflexivity |].
  rewrite Pos2Z.inj_add, plus_IZR, Sx, Sy, !mult_IZR, !SF2R_finite.
  rewrite (bpow_split ex ez), (bpow_split ey ez) by (unfold ez; lia). ring.
Qed.

Theorem SFadd_rounded (x y : spec_float) :
  valid_binary x = true -> valid_binary y = true -> nn x -> nn y ->
  rounded (SF2R x + SF2R y) (SF64add x y) /\
  (SF64add x y = S754_infinity false \/
   (nn (SF64add x y) /\
    Rabs (SF2R (SF64add x y) - (SF2R x + SF2R y)) <= u * (SF2R x + SF2R y))).
Proof.
  intros Vx Vy Nx Ny.
  assert (Hself : forall z, valid_binary z = true -> nn z ->
            rounded (SF2R z) z /\
            (z = S754_infinity false \/
             (nn z /\ Rabs (SF2R z - SF2R z) <= u * SF2R z))).
  { intros z Vz Nz. split; [apply rounded_self; assumption | right].
    split; [assumption |]. unfold Rminus. rewrite Rplus_opp_r, Rabs_R0.
    pose proof (SF2R_nonneg z Nz). assert (0 < u) by apply bpow_pos. nra. }
  destruct (nn_cases x Nx) as [[sx ->] | (mx & ex & ->)];
    destruct (nn_cases y Ny) as [[sy ->] | (my & ey & ->)].
  - replace (SF2R (S754_zero sx) + SF2R (S754_zero sy))
      with (SF2R (SF64add (S754_zero sx) (S754_zero sy)))
      by (destruct sx, sy; simpl; lra).
    apply Hself; destruct sx, sy; simpl; auto.
  - replace (SF2R (S754_zero sx) + SF2R (S754_finite false my ey))
      with (SF2R (S754_finite false my ey)) by (simpl; lra).
    apply (Hself (S754_finite false my ey)); assumption.
  - replace (SF2R (S754_finite false mx ex) + SF2R (S754_zero sy))
      with (SF2R (S754_finite false mx ex)) by (simpl; lra).
    apply (Hself (S754_finite false mx ex)); assumption.
  - destruct (SFadd_finite mx my ex ey) as (p & -> & <-).
    destruct (valid_finite _ _ _ Vx) as [Cx _].
    destruct (valid_finite _ _ _ Vy) as [Cy _].
    destruct (canonical_digits _ _ Cx) as (_ & ? & _).
    destruct (canonical_digits _ _ Cy) as (_ & ? & _).
    split; [apply binary_round_rounded |].
    apply binary_round_relative. lia.
Qed.

(** A sum of two floats that are not negative is not below either. *)
Theorem SFadd_ge (x y : spec_float) :
  valid_binary x = true -> valid_binary y = true -> nn x -> nn y ->
  SF64add x y = S754_infinity false \/
  (nn (SF64add x y) /\ SF2R x <= SF2R (SF64add x y) /\
   SF2R y <= SF2R (SF64add x y)).
Proof.
  intros Vx Vy Nx Ny.
  destruct (nn_cases x Nx) as [[sx ->] | (mx & ex & ->)];
    destruct (nn_cases y Ny) as [[sy ->] | (my & ey & ->)].
  - right. destruct sx, sy; simpl; repeat split; lra.
  - right. pose proof (SF2R_finite_pos my ey).
    change (SF64add (S754_zero sx) (S754_finite false my ey))
      with (S754_finite false my ey).
    simpl (SF2R (S754_zero sx)). repeat split; lra.
  - right. pose proof (SF2R_finite_pos mx ex).
    change (SF64add (S754_finite false mx ex) (S754_zero sy))
      with (S754_finite false mx ex).
    simpl (SF2R (S754_zero sy)). repeat split; lra.
  - destruct (SFadd_finite mx my ex ey) as (p & E & V). rewrite E.
    pose proof (SF2R_finite_pos mx ex) as Px.
    pose proof (SF2R_finite_pos my ey) as Py.
    rewrite !SF2R_finite in *.
    destruct (binary_round_down p (Z.min ex ey) mx ex Vx ltac:(lra))
      as [I | [N Lx]]; [left; exact I | right].
    destruct (binary_round_down p (Z.min ex ey) my ey Vy ltac:(lra))
      as [I | [_ Ly]]; [rewrite I in N; contradiction |].
    repeat split; assumption.
Qed.

(** **** Conversion of an integer *)

Theorem of_Z_rounded (n : Z) :
  (0 <= n)%Z -> rounded (IZR n) (binary_normalize prec emax n 0 false).
Proof.
  intros Hn. destruct n as [| p | p]; [| | lia].
  - apply rounded_zero.
  - simpl binary_normalize.
    replace (IZR (Z.pos p)) with (IZR (Z.pos p) * bpow 0)
      by (rewrite bpow_0; ring).
    apply binary_round_rounded.
Qed.

Lemma bounded_2p53 : SpecFloat.bounded prec emax 4503599627370496 1 = true.
Proof. reflexivity. Qed.

Theorem of_Z_exact (n : Z) :
  (0 <= n <= 2 ^ 53)%Z ->
  let r := binary_normalize prec emax n 0 false in
  valid_binary r = true /\ nn r /\ SF2R r = IZR n.
Proof.
  intros Hn r. destruct (of_Z_rounded n ltac:(lia)) as (V & _ & Up).
  fold r in V, Up. split; [assumption |].
  destruct (Up _ _ bounded_2p53) as [N _].
  { rewrite bpow_1. replace (IZR 4503599627370496 * 2) with (IZR (2 ^ 53))
      by (simpl; lra). apply IZR_le. lia. }
  split; [assumption |].
  destruct (Z.eq_dec n (2 ^ 53)) as [Q | Q].
  { unfold r. rewrite Q.
    replace (binary_normalize prec emax (2 ^ 53) 0 false)
      with (S754_finite false 4503599627370496 1) by (vm_compute; reflexivity).
    rewrite SF2R_finite, bpow_1. simpl. lra. }
  destruct n as [| p | p]; [reflexivity | | lia].
  unfold r in *. simpl binary_normalize in *.
  destruct (binary_round_same p 0) as [E | [_ E]].
  - assert (Zdigits2 (Z.pos p) <= 53)%Z by (apply Zdigits2_lt_pow; lia).
    rewrite fexp_eq. lia.
  - rewrite E in N. contradiction.
  - rewrite E, bpow_0. ring.
Qed.


(** **** Comparison *)

Lemma SFcompare_finite (mx my : positive) (ex ey : Z) :
  canonical (Z.pos mx) ex -> canonical (Z.pos my) ey ->
  let x := S754_finite false mx ex in
  let y := S754_finite false my ey in
  match SFcompare x y with
  | Some Lt => SF2R x < SF2R y
  | Some Eq => SF2R x = SF2R y
  | Some Gt => SF2R y < SF2R x
  | None => False
  end.
Proof.
  intros Cx Cy x y. unfold x, y. rewrite !SF2R_finite. simpl SFcompare.
  destruct (Z.compare_spec ex ey) as [E | L | G].
  - subst ey. rewrite Pos.compare_cont_spec. cbn [Pos.switch_Eq].
    pose proof (bpow_pos ex).
    destruct (Pos.compare_spec mx my) as [E | L | G]; cbn [Pos.switch_Eq].
    + subst. reflexivity.
    + apply Rmult_lt_compat_r; [assumption |].
      apply IZR_lt, Pos2Z.pos_lt_pos, L.
    + apply Rmult_lt_compat_r; [assumption |].
      apply IZR_lt, Pos2Z.pos_lt_pos, G.
  - apply Rnot_le_lt. intros H.
    pose proof (canonical_le (Z.pos my) ey (Z.pos mx) ex
                  ltac:(lia) ltac:(lia) Cy Cx H). lia.
  - apply Rnot_le_lt. intros H.
    pose proof (canonical_le (Z.pos mx) ex (Z.pos my) ey
                  ltac:(lia) ltac:(lia) Cx Cy H). lia.
Qed.

Lemma SFcompare_nn (x y : spec_float) :
  valid_binary x = true -> valid_binary y = true -> nn x -> nn y ->
  match SFcompare x y with
  | Some Lt => SF2R x < SF2R y
  | Some Eq => SF2R x = SF2R y
  | Some Gt => SF2R y < SF2R x
  | None => False
  end.
Proof.
  intros Vx Vy Nx Ny.
  destruct (nn_cases x Nx) as [[sx ->] | (mx & ex & ->)];
    destruct (nn_cases y Ny) as [[sy ->] | (my & ey & ->)].
  - simpl. reflexivity.
  - cbn [SFcompare]. rewrite SF2R_finite.
    pose proof (SF2R_finite_pos my ey) as P. rewrite SF2R_finite in P.
    simpl SF2R. exact P.
  - cbn [SFcompare]. rewrite SF2R_finite.
    pose proof (SF2R_finite_pos mx ex) as P. rewrite SF2R_finite in P.
    simpl SF2R. exact P.
  - apply SFcompare_finite.
    + apply (valid_finite _ _ _ Vx).
    + apply (valid_finite _ _ _ Vy).
Qed.

Lemma SFltb_nn (x y : spec_float) :
  valid_binary x = true -> valid_binary y = true -> nn x -> nn y ->
  (SFltb x y = true <-> SF2R x < SF2R y).
Proof.
  intros Vx Vy Nx Ny. pose proof (SFcompare_nn x y Vx Vy Nx Ny) as H.
  unfold SFltb. destruct (SFcompare x y) as [[| |] |];
    split; intros K; try discriminate; try reflexivity; try lra; tauto.
Qed.

Lemma SFleb_nn (x y : spec_float) :
  valid_binary x = true -> valid_binary y = true -> nn x -> nn y ->
  (SFleb x y = true <-> SF2R x <= SF2R y).
Proof.
  intros Vx Vy Nx Ny. pose proof (SFcompare_nn x y Vx Vy Nx Ny) as H.
  unfold SFleb. destruct (SFcompare x y) as [[| |] |];
    split; intros K; try discriminate; try reflexivity; try lra; tauto.
Qed.

(** What lies above a positive finite float. *)
Lemma SFltb_above (f z : spec_float) :
  nn f -> SFltb f z = true -> z = S754_infinity false \/ nn z.
Proof.
  intros Nf. unfold SFltb.
  destruct (nn_cases f Nf) as [[sf ->] | (mf & ef & ->)];
    destruct z as [s | [|] | | [|] m e]; simpl; auto; discriminate.
Qed.

Lemma SFltb_le_lt (r f z : spec_float) :
  valid_binary r = true -> valid_binary f = true -> valid_binary z = true ->
  nn r -> nn f -> SF2R r <= SF2R f ->
  SFltb f z = true -> SFltb r z = true.
Proof.
  intros Vr Vf Vz Nr Nf Le Lt.
  destruct (SFltb_above f z Nf Lt) as [-> | Nz].
  - destruct (nn_cases r Nr) as [[s ->] | (m & e & ->)]; reflexivity.
  - apply SFltb_nn; try assumption.
    apply (SFltb_nn f z) in Lt; try assumption. lra.
Qed.

(** What lies at or above zero. *)
Lemma SFleb_zero (z : spec_float) :
  SFleb (S754_zero false) z = true -> z = S754_infinity false \/ nn z.
Proof.
  unfold SFleb. destruct z as [s | [|] | | [|] m e]; simpl; auto; discriminate.
Qed.


End B64Facts.

(** * Facts about the primitive floats of the model *)

Module F64.
Import B64 B64Facts.
Local Open Scope R_scope.

Lemma Prim2SF_zero : Prim2SF 0%float = S754_zero false.
Proof. reflexivity. Qed.

Lemma Prim2SF_infinity : Prim2SF infinity = S754_infinity false.
Proof. reflexivity. Qed.

(** A float that is at least zero and below infinity is zero or positive
    and finite. *)
Lemma nn_of_bounds (w : float) :
  (0 <=? w)%float = true -> (w <? infinity)%float = true -> nn (Prim2SF w).
Proof.
  rewrite FloatAxioms.leb_spec, FloatAxioms.ltb_spec, Prim2SF_zero, Prim2SF_infinity.
  intros L U. destruct (SFleb_zero _ L) as [E | N]; [| assumption].
  rewrite E in U. discriminate.
Qed.

Lemma val_nonneg (w : float) : nn (Prim2SF w) -> 0 <= val w.
Proof. apply SF2R_nonneg. Qed.

Lemma pos_of_ltb (w : float) :
  nn (Prim2SF w) -> (0 <? w)%float = true -> 0 < val w.
Proof.
  intros N. rewrite FloatAxioms.ltb_spec, Prim2SF_zero. intros L.
  apply (SFltb_nn (S754_zero false)) in L;
    [exact L | reflexivity | apply Prim2SF_valid | exact I | assumption].
Qed.

Lemma mul_rounded (x y : float) :
  nn (Prim2SF x) -> nn (Prim2SF y) ->
  rounded (val x * val y) (Prim2SF (x * y)).
Proof.
  intros Nx Ny. rewrite FloatAxioms.mul_spec.
  apply SFmul_rounded; auto using Prim2SF_valid.
Qed.

Lemma add_rounded (x y : float) :
  nn (Prim2SF x) -> nn (Prim2SF y) ->
  rounded (val x + val y) (Prim2SF (x + y)) /\
  (Prim2SF (x + y) = S754_infinity false \/
   (nn (Prim2SF (x + y)) /\
    Rabs (val (x + y) - (val x + val y)) <= u * (val x + val y))).
Proof.
  intros Nx Ny. unfold val. rewrite FloatAxioms.add_spec.
  apply SFadd_rounded; auto using Prim2SF_valid.
Qed.

Lemma div_rounded (x y : float) :
  nn (Prim2SF x) -> nn (Prim2SF y) -> 0 < val y ->
  rounded (val x / val y) (Prim2SF (x / y)).
Proof.
  intros Nx Ny Py. unfold val in *. rewrite FloatAxioms.div_spec.
  pose proof (Prim2SF_valid y) as Vy.
  destruct (nn_cases _ Ny) as [[s E] | (m & e & E)]; rewrite E in *.
  - simpl in Py. lra.
  - apply SFdiv_rounded; auto using Prim2SF_valid.
Qed.

Lemma Prim2SF_float_of_Z (n : Z) :
  (0 <= n)%Z ->
  Prim2SF (Np.float_of_Z n) = binary_normalize prec emax n 0 false.
Proof.
  intros Hn. unfold Np.float_of_Z. apply Prim2SF_SF2Prim.
  apply (of_Z_rounded n Hn).
Qed.

Lemma float_of_Z_rounded (n : Z) :
  (0 <= n)%Z -> rounded (IZR n) (Prim2SF (Np.float_of_Z n)).
Proof.
  intros Hn. rewrite Prim2SF_float_of_Z by assumption.
  apply of_Z_rounded. assumption.
Qed.

Lemma float_of_Z_exact (n : Z) :
  (0 <= n <= 2 ^ 53)%Z ->
  nn (Prim2SF (Np.float_of_Z n)) /\ val (Np.float_of_Z n) = IZR n.
Proof.
  intros Hn. unfold val. rewrite Prim2SF_float_of_Z by lia.
  apply (of_Z_exact n Hn).
Qed.

(** The cast gives back an integer that was converted exactly. *)
Lemma astype_int_float_of_Z (z : Z) :
  (0 <= z <= 2 ^ 53)%Z -> Np.astype_int (Np.float_of_Z z) = z.
Proof.
  intros Hz. destruct (of_Z_exact z Hz) as (Vr & Nr & Er).
  unfold Np.astype_int. rewrite Prim2SF_float_of_Z by lia.
  destruct (nn_cases _ Nr) as [[s' E'] | (m' & e' & E')]; rewrite E' in *.
  - simpl in Er. apply eq_IZR. lra.
  - rewrite SF2R_finite in Er. cbv zeta.
    assert (Ht : Np.floor_of false m' e' = z).
    { unfold Np.floor_of. destruct (Z.leb_spec 0 e') as [P | P].
      - apply eq_IZR. rewrite mult_IZR, <- bpow_IZR by assumption.
        exact Er.
      - assert (Q : (Z.pos m' = z * 2 ^ (- e'))%Z).
        { apply eq_IZR. rewrite mult_IZR, <- bpow_IZR by lia.
          rewrite <- Er, Rmult_assoc, <- bpow_add.
          replace (e' + - e')%Z with 0%Z by lia. rewrite bpow_0. ring. }
        rewrite Q. apply Z.div_mul.
        assert (0 < 2 ^ (- e'))%Z by (apply Z.pow_pos_nonneg; lia). lia. }
    rewrite Ht. unfold Np.int64_min, Np.int64_max.
    destruct (Z.leb_spec (- 2 ^ 63) z); [| lia].
    destruct (Z.leb_spec z (2 ^ 63 - 1)); [| lia]. reflexivity.
Qed.

(** [floor] then [astype(int)] is the integer part. *)
Lemma astype_int_floor (x : float) :
  nn (Prim2SF x) -> val x < IZR (2 ^ 63) ->
  let c := Np.astype_int (Np.floor x) in
  (0 <= c)%Z /\ IZR c <= val x < IZR c + 1.
Proof.
  intros N B. pose proof (Prim2SF_valid x) as V. unfold val in *.
  unfold Np.floor.
  destruct (nn_cases _ N) as [[s E] | (m & e & E)]; rewrite E in *.
  - cbv zeta. unfold Np.astype_int. rewrite E. simpl. split; [lia | lra].
  - cbv zeta. rewrite SF2R_finite in *.
    destruct (valid_finite _ _ _ V) as [C _].
    destruct (canonical_digits _ _ C) as (D & _ & _).
    pose proof (Zdigits2_bounds (Z.pos m) ltac:(lia)) as [_ Um].
    assert (Hm : (Z.pos m < 2 ^ 53)%Z).
    { eapply Z.lt_le_trans; [exact Um |]. apply Z.pow_le_mono_r; lia. }
    destruct (Z.leb_spec 0 e) as [He | He].
    + unfold Np.astype_int. rewrite E. unfold Np.floor_of.
      destruct (Z.leb_spec 0 e) as [_ |]; [| lia].
      rewrite bpow_IZR, <- mult_IZR in * by assumption.
      apply lt_IZR in B.
      assert (0 < 2 ^ e)%Z by (apply Z.pow_pos_nonneg; lia).
      unfold Np.int64_min, Np.int64_max.
      destruct (Z.leb_spec (- 2 ^ 63) (Z.pos m * 2 ^ e)); [| nia].
      destruct (Z.leb_spec (Z.pos m * 2 ^ e) (2 ^ 63 - 1)); [| lia].
      simpl andb. cbv iota. split; [nia | lra].
    + set (z := Np.floor_of false m e).
      assert (Hz : z = (Z.pos m / 2 ^ (- e))%Z).
      { unfold z, Np.floor_of. destruct (Z.leb_spec 0 e); [lia | reflexivity]. }
      assert (H2 : (0 < 2 ^ (- e))%Z) by (apply Z.pow_pos_nonneg; lia).
      assert (Hz0 : (0 <= z)%Z) by (rewrite Hz; apply Z.div_pos; lia).
      assert (Hzm : (z <= Z.pos m)%Z).
      { rewrite Hz. apply Z.div_le_upper_bound; [lia |]. nia. }
      rewrite astype_int_float_of_Z by lia.
      split; [assumption |].
      replace e with (- (- e))%Z by lia. rewrite bpow_opp, bpow_IZR by lia.
      assert (P2 : 0 < IZR (2 ^ (- e))) by (apply IZR_lt; assumption).
      pose proof (Z.mul_div_le (Z.pos m) (2 ^ (- e)) H2) as L.
      pose proof (Z.mul_succ_div_gt (Z.pos m) (2 ^ (- e)) H2) as U.
      rewrite <- Hz in L, U.
      apply IZR_le in L. apply IZR_lt in U.
      rewrite mult_IZR in L. rewrite mult_IZR, succ_IZR in U.
      split.
      * apply Rmult_le_reg_r with (IZR (2 ^ (- e))); [assumption |].
        rewrite Rmult_assoc, Rinv_l by lra. lra.
      * apply Rmult_lt_reg_r with (IZR (2 ^ (- e))); [assumption |].
        rewrite Rmult_assoc, Rinv_l by lra. lra.
Qed.

End F64.

(** * The counts of a [SplitIndexer] *)

Module CountsFacts.
Import Splitting B64 B64Facts F64.
Local Open Scope R_scope.

Lemma Rabs_bounds (x y : R) : Rabs x <= y -> - y <= x <= y.
Proof. unfold Rabs. destruct (Rcase_abs x); lra. Qed.

Lemma u_val : u = / 9007199254740992.
Proof.
  unfold u. change (bpow (-53)) with (bpow (Z.opp 53)).
  rewrite bpow_opp, (bpow_IZR 53) by lia. reflexivity.
Qed.

Lemma eta_le : eta <= / 81129638414606681695789005144064.
Proof.
  unfold eta. apply Rle_trans with (bpow (-106)); [apply bpow_le; lia |].
  change (bpow (-106)) with (bpow (Z.opp 106)).
  rewrite bpow_opp, (bpow_IZR 106) by lia. apply Rle_refl.
Qed.

Lemma eta_pos : 0 < eta.
Proof. apply bpow_pos. Qed.

Lemma bounded_two : SpecFloat.bounded prec emax 4503599627370496 (-51) = true.
Proof. reflexivity. Qed.

Lemma bounded_2p52 : SpecFloat.bounded prec emax 4503599627370496 0 = true.
Proof. reflexivity. Qed.

Lemma two_val : IZR 4503599627370496 * bpow (-51) = 2.
Proof.
  change (bpow (-51)) with (bpow (Z.opp 51)).
  rewrite bpow_opp, (bpow_IZR 51) by lia.
  change (2 ^ 51)%Z with 2251799813685248%Z. lra.
Qed.

(** An infinite left operand absorbs a finite right one. *)
Lemma add_inf_l (x y : float) :
  Prim2SF x = S754_infinity false -> nn (Prim2SF y) ->
  Prim2SF (x + y) = S754_infinity false.
Proof.
  intros E N. rewrite FloatAxioms.add_spec, E.
  destruct (nn_cases _ N) as [[s ->] | (m & e & ->)]; reflexivity.
Qed.

(** A finite value divided by infinity is zero. *)
Lemma div_inf_r (x y : float) :
  nn (Prim2SF x) -> Prim2SF y = S754_infinity false ->
  nn (Prim2SF (x / y)) /\ val (x / y) = 0.
Proof.
  intros N E. unfold val. rewrite FloatAxioms.div_spec, E.
  destruct (nn_cases _ N) as [[s ->] | (m & e & ->)]; simpl; auto.
Qed.

(** A product with a zero factor is zero. *)
Lemma mul_zero_l (x y : float) :
  nn (Prim2SF x) -> val x = 0 -> nn (Prim2SF y) ->
  nn (Prim2SF (x * y)) /\ val (x * y) = 0.
Proof.
  intros Nx Zx Ny. unfold val in *. rewrite FloatAxioms.mul_spec.
  destruct (nn_cases _ Nx) as [[s E] | (m & e & E)]; rewrite E in *.
  - destruct (nn_cases _ Ny) as [[s' ->] | (m' & e' & ->)]; simpl; auto.
  - pose proof (SF2R_finite_pos m e). lra.
Qed.

Section Sum.
Variables w1 w2 w3 : float.
Hypothesis N1 : nn (Prim2SF w1).
Hypothesis N2 : nn (Prim2SF w2).
Hypothesis N3 : nn (Prim2SF w3).

(** One addition of the sum: it overflows or loses at most one part in
    [2^53]. *)
Lemma add_lower (x y : float) :
  nn (Prim2SF x) -> nn (Prim2SF y) ->
  Prim2SF (x + y) = S754_infinity false \/
  (nn (Prim2SF (x + y)) /\ (val x + val y) * (1 - u) <= val (x + y)).
Proof.
  intros Nx Ny. destruct (add_rounded x y Nx Ny) as [_ [E | [N H]]];
    [left; assumption | right].
  split; [assumption |].
  apply Rabs_bounds in H. lra.
Qed.

Lemma sum3_lower :
  let s := sum3 w1 w2 w3 in
  Prim2SF s = S754_infinity false \/
  (nn (Prim2SF s) /\
   (val w1 + val w2 + val w3) * ((1 - u) * (1 - u) * (1 - u)) <= val s).
Proof.
  intros s. unfold s, sum3.
  assert (N0 : nn (Prim2SF 0%float)) by (rewrite Prim2SF_zero; exact I).
  assert (V0 : val 0%float = 0) by (unfold val; rewrite Prim2SF_zero; reflexivity).
  assert (U : 0 < u < 1).
  { rewrite u_val. lra. }
  pose proof (val_nonneg w1 N1). pose proof (val_nonneg w2 N2).
  pose proof (val_nonneg w3 N3).
  destruct (add_lower 0%float w1 N0 N1) as [E1 | [Na La]].
  { left. apply add_inf_l; [| assumption]. apply add_inf_l; assumption. }
  rewrite V0 in La.
  destruct (add_lower (0 + w1)%float w2 Na N2) as [E2 | [Nb Lb]].
  { left. apply add_inf_l; assumption. }
  destruct (add_lower (0 + w1 + w2)%float w3 Nb N3) as [E3 | [Nc Lc]].
  { left. assumption. }
  right. split; [assumption |].
  set (a := val (0 + w1)%float) in *. set (b := val (0 + w1 + w2)%float) in *.
  set (c := val (0 + w1 + w2 + w3)%float) in *.
  rewrite u_val in *. lra.
Qed.

End Sum.


(** A proportion [w / s] of a sum that lost at most three roundings: it is
    finite, at most two, and within the standard error of the quotient. *)
Lemma proportion_spec (w s : float) (W : R) :
  nn (Prim2SF w) -> val w <= W -> 0 < W ->
  Prim2SF s = S754_infinity false \/
    (nn (Prim2SF s) /\ W * ((1 - u) * (1 - u) * (1 - u)) <= val s) ->
  nn (Prim2SF (w / s)) /\ val (w / s) <= 2 /\
  (val (w / s) = 0 \/
   (0 < val s /\ val (w / s) <= (1 + u) * (val w / val s) + eta)).
Proof.
  intros Nw Hw HW [E | [Ns Hs]].
  - destruct (div_inf_r w s Nw E) as [N Z]. rewrite Z.
    split; [assumption | split; [lra | left; reflexivity]].
  - pose proof (val_nonneg w Nw) as Pw.
    assert (Ps : 0 < val s /\ val w <= 2 * val s).
    { rewrite u_val in Hs. lra. }
    destruct Ps as [Ps Hws].
    assert (HX : val w / val s <= 2).
    { apply Rmult_le_reg_r with (val s); [assumption |].
      unfold Rdiv. rewrite Rmult_assoc, Rinv_l by lra. lra. }
    assert (HX0 : 0 <= val w / val s).
    { apply Rmult_le_pos; [assumption |].
      apply Rlt_le, Rinv_0_lt_compat. assumption. }
    destruct (div_rounded w s Nw Ns Ps) as (_ & Err & Up).
    destruct (Up _ _ bounded_two) as [N L]; [rewrite two_val; assumption |].
    rewrite two_val in L.
    split; [assumption | split; [exact L | right]].
    split; [assumption |].
    destruct Err as [E | [_ H]].
    + rewrite E in N. contradiction.
    + apply Rabs_bounds in H. fold (val (w / s)) in H.
      rewrite u_val in *. lra.
Qed.

(** A count: the floor of a proportion scaled by the dataset length. *)
Lemma count_spec (p : float) (n : Z) :
  nn (Prim2SF p) -> val p <= 2 -> (0 <= n <= 2 ^ 50)%Z ->
  let c := Np.astype_int (Np.floor (p * Np.float_of_Z n)) in
  Contract.is_floor c (p * Np.float_of_Z n) /\
  IZR c <= (1 + u) * (val p * IZR n) + eta.
Proof.
  intros Np Hp Hn c.
  destruct (float_of_Z_exact n ltac:(lia)) as [Nn Vn].
  pose proof (val_nonneg p Np) as Pp.
  assert (Hn' : 0 <= IZR n <= 1125899906842624).
  { split; [apply IZR_le; lia |].
    change 1125899906842624 with (IZR (2 ^ 50)). apply IZR_le. lia. }
  assert (HX : val p * IZR n <= 4503599627370496).
  { apply Rle_trans with (2 * 1125899906842624); [| lra].
    apply Rmult_le_compat; lra. }
  assert (HX0 : 0 <= val p * IZR n) by (apply Rmult_le_pos; lra).
  destruct (mul_rounded p (Np.float_of_Z n) Np Nn) as (_ & Err & Up).
  rewrite Vn in *.
  destruct (Up _ _ bounded_2p52) as [N L]; [rewrite bpow_0; lra |].
  rewrite bpow_0 in L.
  destruct (astype_int_floor (p * Np.float_of_Z n) N) as [C0 [CL CU]].
  { unfold val. change (IZR (2 ^ 63)) with 9223372036854775808. lra. }
  fold c in C0, CL, CU.
  split; [split; [exact N | split; [exact C0 | split; [exact CL | exact CU]]] |].
  destruct Err as [E | [_ H]].
  - rewrite E in N. contradiction.
  - apply Rabs_bounds in H. fold (val (p * Np.float_of_Z n)) in H.
    rewrite u_val in *. lra.
Qed.

(** The counts of the constructor are not negative and do not exceed the
    dataset length, for a length up to [2^50]. *)
Theorem unnormalised_bounds (w1 w2 w3 : float) (n : Z) :
  nn (Prim2SF w1) -> nn (Prim2SF w2) -> nn (Prim2SF w3) ->
  0 < val w1 + val w2 + val w3 ->
  (0 <= n <= 2 ^ 50)%Z ->
  let s := sum3 w1 w2 w3 in
  let c := unnormalised ((w1 / s)%float, (w2 / s)%float, (w3 / s)%float)
             n true in
  Contract.is_floor (fst (fst c)) (w1 / s * Np.float_of_Z n) /\
  Contract.is_floor (snd (fst c)) (w2 / s * Np.float_of_Z n) /\
  Contract.is_floor (snd c) (w3 / s * Np.float_of_Z n) /\
  (fst (fst c) + snd (fst c) + snd c <= n)%Z.
Proof.
  intros N1 N2 N3 HW Hn s c.
  pose proof (val_nonneg w1 N1) as P1. pose proof (val_nonneg w2 N2) as P2.
  pose proof (val_nonneg w3 N3) as P3.
  pose proof (sum3_lower w1 w2 w3 N1 N2 N3) as Hs. fold s in Hs.
  set (W := val w1 + val w2 + val w3) in *.
  destruct (proportion_spec w1 s W N1 ltac:(unfold W; lra) HW Hs)
    as (Np1 & B1 & Q1).
  destruct (proportion_spec w2 s W N2 ltac:(unfold W; lra) HW Hs)
    as (Np2 & B2 & Q2).
  destruct (proportion_spec w3 s W N3 ltac:(unfold W; lra) HW Hs)
    as (Np3 & B3 & Q3).
  destruct (count_spec (w1 / s) n Np1 B1 Hn) as [C1 L1].
  destruct (count_spec (w2 / s) n Np2 B2 Hn) as [C2 L2].
  destruct (count_spec (w3 / s) n Np3 B3 Hn) as [C3 L3].
  pose proof (proj1 (proj2 C1)) as C10. pose proof (proj1 (proj2 C2)) as C20.
  pose proof (proj1 (proj2 C3)) as C30.
  unfold c, unnormalised. cbn [fst snd].
  set (c1 := Np.astype_int (Np.floor (w1 / s * Np.float_of_Z n))) in *.
  set (c2 := Np.astype_int (Np.floor (w2 / s * Np.float_of_Z n))) in *.
  set (c3 := Np.astype_int (Np.floor (w3 / s * Np.float_of_Z n))) in *.
  split; [exact C1 | split; [exact C2 | split; [exact C3 |]]].
  apply Z.lt_succ_r. apply lt_IZR. rewrite succ_IZR, !plus_IZR.
  pose proof (val_nonneg _ Np1) as PP1. pose proof (val_nonneg _ Np2) as PP2.
  pose proof (val_nonneg _ Np3) as PP3.
  set (p1 := val (w1 / s)) in *. set (p2 := val (w2 / s)) in *.
  set (p3 := val (w3 / s)) in *.
  assert (Hn' : 0 <= IZR n <= 1125899906842624).
  { split; [apply IZR_le; lia |].
    change 1125899906842624 with (IZR (2 ^ 50)). apply IZR_le. lia. }
  pose proof eta_le as He. pose proof eta_pos as He0.
  assert (HP : p1 + p2 + p3 <=
               (1 + u) * (1 + 4 * u) + 3 * eta).
  { destruct Hs as [E | [Ns Ls]].
    - (* an infinite sum: every proportion is zero *)
      destruct (div_inf_r w1 s N1 E) as [_ Z1].
      destruct (div_inf_r w2 s N2 E) as [_ Z2].
      destruct (div_inf_r w3 s N3 E) as [_ Z3].
      fold p1 in Z1. fold p2 in Z2. fold p3 in Z3.
      rewrite u_val. lra.
    - assert (Ps : 0 < val s) by (rewrite u_val in Ls; lra).
      assert (HQ : W / val s <= 1 + 4 * u).
      { apply Rmult_le_reg_r with (val s); [assumption |].
        unfold Rdiv. rewrite Rmult_assoc, Rinv_l by lra.
        rewrite u_val in *. lra. }
      assert (HS : val w1 / val s + val w2 / val s + val w3 / val s
                   = W / val s) by (unfold W, Rdiv; ring).
      assert (X1 : 0 <= val w1 / val s).
      { apply Rmult_le_pos; [assumption |].
        apply Rlt_le, Rinv_0_lt_compat; assumption. }
      assert (X2 : 0 <= val w2 / val s).
      { apply Rmult_le_pos; [assumption |].
        apply Rlt_le, Rinv_0_lt_compat; assumption. }
      assert (X3 : 0 <= val w3 / val s).
      { apply Rmult_le_pos; [assumption |].
        apply Rlt_le, Rinv_0_lt_compat; assumption. }
      set (x1 := val w1 / val s) in *. set (x2 := val w2 / val s) in *.
      set (x3 := val w3 / val s) in *. set (q := W / val s) in *.
      rewrite u_val in *.
      destruct Q1 as [Q1 | [_ Q1]]; destruct Q2 as [Q2 | [_ Q2]];
        destruct Q3 as [Q3 | [_ Q3]]; lra. }
  assert (HY : p1 * IZR n + p2 * IZR n + p3 * IZR n <=
               ((1 + u) * (1 + 4 * u) + 3 * eta) * IZR n).
  { replace (p1 * IZR n + p2 * IZR n + p3 * IZR n)
      with ((p1 + p2 + p3) * IZR n) by ring.
    apply Rmult_le_compat_r; lra. }
  set (y1 := p1 * IZR n) in *. set (y2 := p2 * IZR n) in *.
  set (y3 := p3 * IZR n) in *.
  assert (HE : eta * IZR n <= / 72057594037927936).
  { apply Rle_trans with (/ 81129638414606681695789005144064 * 1125899906842624).
    - apply Rmult_le_compat; lra.
    - lra. }
  set (en := eta * IZR n) in *.
  replace (((1 + u) * (1 + 4 * u) + 3 * eta) * IZR n)
    with ((1 + u) * (1 + 4 * u) * IZR n + 3 * en) in HY by (unfold en; ring).
  rewrite u_val in *. lra.
Qed.

End CountsFacts.

(** * The pseudo-percentage of a digest *)

Module PercentageFacts.
Import Splitting B64 B64Facts F64.
Local Open Scope R_scope.

Lemma Prim2SF_hundred :
  Prim2SF 100%float = S754_finite false 7036874417766400 (-46).
Proof. reflexivity. Qed.

(** [100.0 / sys.maxsize] is [100 * 2^-63]: the divisor rounds to [2^63]. *)
Lemma Prim2SF_scale :
  Prim2SF (100 / Np.float_of_Z sys_maxsize)%float =
  S754_finite false 7036874417766400 (-109).
Proof. vm_compute. reflexivity. Qed.

Lemma bounded_2p63 : SpecFloat.bounded prec emax 4503599627370496 11 = true.
Proof. reflexivity. Qed.

Lemma bounded_hundred :
  SpecFloat.bounded prec emax 7036874417766400 (-46) = true.
Proof. reflexivity. Qed.

Lemma reduced_range (digest : Z) :
  (0 <= digest mod (sys_maxsize + 1) < 2 ^ 63)%Z.
Proof. apply Z.mod_pos_bound. reflexivity. Qed.

(** The pseudo-percentage is a finite float between [0] and [100]. *)
Theorem percentage_of_bounds (digest : Z) :
  nn (Prim2SF (percentage_of digest)) /\
  val (percentage_of digest) <= SF2R (Prim2SF 100%float).
Proof.
  unfold percentage_of.
  set (y := Np.float_of_Z (digest mod (sys_maxsize + 1))).
  set (c := (100 / Np.float_of_Z sys_maxsize)%float).
  pose proof (reduced_range digest) as Hr.
  destruct (float_of_Z_rounded (digest mod (sys_maxsize + 1)) ltac:(lia))
    as (_ & _ & Upy).
  fold y in Upy.
  destruct (Upy _ _ bounded_2p63) as [Ny Ly].
  { rewrite (bpow_IZR 11), <- mult_IZR by lia. apply IZR_le.
    change (4503599627370496 * 2 ^ 11)%Z with (2 ^ 63)%Z. lia. }
  fold (val y) in Ly.
  assert (Nc : nn (Prim2SF c)) by (unfold c; rewrite Prim2SF_scale; exact I).
  assert (Vc : val c = IZR 7036874417766400 * bpow (-109)).
  { unfold val, c. rewrite Prim2SF_scale. apply SF2R_finite. }
  destruct (mul_rounded y c Ny Nc) as (_ & _ & Up).
  rewrite Prim2SF_hundred, SF2R_finite.
  apply (Up _ _ bounded_hundred).
  rewrite Vc.
  pose proof (val_nonneg y Ny) as Py.
  assert (E : bpow (-46) = IZR 4503599627370496 * bpow 11 * bpow (-109)).
  { rewrite (bpow_IZR 11), <- mult_IZR, Rmult_comm by lia.
    change (4503599627370496 * 2 ^ 11)%Z with (2 ^ 63)%Z.
    rewrite <- (bpow_IZR 63), <- bpow_add by lia. reflexivity. }
  rewrite E. pose proof (bpow_pos (-109)).
  assert (0 < IZR 7036874417766400) by lra.
  nra.
Qed.

(** In the floats of the source: [0 <= percentage <= 100]. *)
Corollary percentage_of_range (digest : Z) :
  (0 <=? percentage_of digest)%float = true /\
  (percentage_of digest <=? 100)%float = true.
Proof.
  destruct (percentage_of_bounds digest) as [N L].
  rewrite !FloatAxioms.leb_spec. split.
  - apply SFleb_nn; try apply Prim2SF_valid; try assumption.
    + rewrite Prim2SF_zero. exact I.
    + rewrite Prim2SF_zero. simpl SF2R at 1. apply SF2R_nonneg. assumption.
  - apply SFleb_nn; try apply Prim2SF_valid; try assumption.
    rewrite Prim2SF_hundred. exact I.
Qed.

(** A threshold above [100] is above every pseudo-percentage. *)
Theorem percentage_of_below (digest : Z) (t : float) :
  (100 <? t)%float = true -> (percentage_of digest <? t)%float = true.
Proof.
  destruct (percentage_of_bounds digest) as [N L].
  rewrite !FloatAxioms.ltb_spec. intros H.
  apply (SFltb_le_lt _ (Prim2SF 100%float));
    try apply Prim2SF_valid; try assumption.
  rewrite Prim2SF_hundred. exact I.
Qed.

End PercentageFacts.

(** * Floats that are not negative: sums and comparisons *)

Module OrderFacts.
Import Splitting B64 B64Facts F64 CountsFacts.
Local Open Scope R_scope.

(** A sum of two floats that are not negative is not below either. *)
Lemma add_ge (x y : float) :
  nn (Prim2SF x) -> nn (Prim2SF y) ->
  Prim2SF (x + y) = S754_infinity false \/
  (nn (Prim2SF (x + y)) /\ val x <= val (x + y) /\ val y <= val (x + y)).
Proof.
  intros Nx Ny. unfold val. rewrite FloatAxioms.add_spec.
  apply SFadd_ge; auto using Prim2SF_valid.
Qed.

(** A float at or above zero is infinite, or finite and not negative. *)
Lemma nonneg_cases (v : float) :
  (0 <=? v)%float = true ->
  Prim2SF v = S754_infinity false \/ nn (Prim2SF v).
Proof.
  rewrite FloatAxioms.leb_spec, Prim2SF_zero. apply SFleb_zero.
Qed.

Lemma SFltb_inf (p : spec_float) :
  nn p -> SFltb p (S754_infinity false) = true.
Proof.
  intros N. destruct (nn_cases p N) as [[s ->] | (m & e & ->)]; reflexivity.
Qed.

Lemma add_inf_r (x y : float) :
  nn (Prim2SF x) -> Prim2SF y = S754_infinity false ->
  Prim2SF (x + y) = S754_infinity false.
Proof.
  intros N E. rewrite FloatAxioms.add_spec, E.
  destruct (nn_cases _ N) as [[s ->] | (m & e & ->)]; reflexivity.
Qed.

Lemma add_inf_inf (x y : float) :
  Prim2SF x = S754_infinity false -> Prim2SF y = S754_infinity false ->
  Prim2SF (x + y) = S754_infinity false.
Proof. intros Ex Ey. rewrite FloatAxioms.add_spec, Ex, Ey. reflexivity. Qed.

(** Nothing that is not negative is below a threshold that is not
    positive. *)
Lemma ltb_nonpos (p t : float) :
  nn (Prim2SF p) -> (0 <? t)%float = false -> (p <? t)%float = false.
Proof.
  rewrite !FloatAxioms.ltb_spec, Prim2SF_zero. intros N.
  destruct (nn_cases _ N) as [[s ->] | (m & e & ->)];
    destruct (Prim2SF t) as [st | [|] | | [|] mt et];
    cbn; intros H; try reflexivity; try discriminate.
Qed.

(** Adding a threshold that is not negative keeps what is below. *)
Lemma ltb_add (p v t : float) :
  nn (Prim2SF p) -> (0 <=? v)%float = true ->
  (p <? t)%float = true -> (p <? v + t)%float = true.
Proof.
  intros N Hv Hp. rewrite FloatAxioms.ltb_spec in *.
  pose proof (Prim2SF_valid p) as Vp. pose proof (Prim2SF_valid t) as Vt.
  destruct (SFltb_above _ _ N Hp) as [Et | Nt];
    destruct (nonneg_cases v Hv) as [Ev | Nv].
  - rewrite (add_inf_inf v t Ev Et). apply SFltb_inf. exact N.
  - rewrite (add_inf_r v t Nv Et). apply SFltb_inf. exact N.
  - rewrite (add_inf_l v t Ev Nt). apply SFltb_inf. exact N.
  - destruct (add_ge v t Nv Nt) as [E | (Ns & _ & L)].
    + rewrite E. apply SFltb_inf. exact N.
    + apply SFltb_nn; try assumption; [apply Prim2SF_valid |].
      apply (SFltb_nn _ _ Vp Vt N Nt) in Hp. unfold val in L. lra.
Qed.

(** The sum of the weights is not below any of them. *)
Lemma sum3_ge (w1 w2 w3 : float) :
  nn (Prim2SF w1) -> nn (Prim2SF w2) -> nn (Prim2SF w3) ->
  let s := sum3 w1 w2 w3 in
  Prim2SF s = S754_infinity false \/
  (nn (Prim2SF s) /\ val w1 <= val s /\ val w2 <= val s /\ val w3 <= val s).
Proof.
  intros N1 N2 N3 s. unfold s, sum3.
  assert (N0 : nn (Prim2SF 0%float)) by (rewrite Prim2SF_zero; exact I).
  destruct (add_ge 0%float w1 N0 N1) as [E1 | (Na & _ & La)].
  { left. apply add_inf_l; [| assumption]. apply add_inf_l; assumption. }
  destruct (add_ge (0 + w1)%float w2 Na N2) as [E2 | (Nb & Lb1 & Lb2)].
  { left. apply add_inf_l; assumption. }
  destruct (add_ge (0 + w1 + w2)%float w3 Nb N3) as [E3 | (Nc & Lc1 & Lc2)].
  { left. assumption. }
  right. split; [assumption |]. repeat split; lra.
Qed.

Lemma bounded_one : SpecFloat.bounded prec emax 4503599627370496 (-52) = true.
Proof. reflexivity. Qed.

Lemma one_val : IZR 4503599627370496 * bpow (-52) = 1.
Proof.
  change (bpow (-52)) with (bpow (Z.opp 52)).
  rewrite bpow_opp, (bpow_IZR 52) by lia.
  change (2 ^ 52)%Z with 4503599627370496%Z. field.
Qed.

(** A weight divided by the sum of the weights is at most one. *)
Lemma proportion_le_one (w s : float) :
  nn (Prim2SF w) ->
  Prim2SF s = S754_infinity false \/ (nn (Prim2SF s) /\ val w <= val s) ->
  0 < val w \/ 0 < val s \/ Prim2SF s = S754_infinity false ->
  nn (Prim2SF (w / s)) /\ 0 <= val (w / s) <= 1.
Proof.
  intros Nw [E | [Ns L]] P.
  - destruct (div_inf_r w s Nw E) as [N Z]. rewrite Z. split; [exact N | lra].
  - pose proof (val_nonneg w Nw) as Pw.
    assert (Ps : 0 < val s).
    { destruct P as [P | [P | P]]; [lra | lra |].
      rewrite P in Ns. contradiction. }
    destruct (div_rounded w s Nw Ns Ps) as (_ & _ & Up).
    destruct (Up _ _ bounded_one) as [N U].
    { rewrite one_val. apply Rmult_le_reg_r with (val s); [assumption |].
      unfold Rdiv. rewrite Rmult_assoc, Rinv_l by lra. lra. }
    rewrite one_val in U. split; [exact N |].
    split; [apply val_nonneg; exact N | exact U].
Qed.

End OrderFacts.

(** * Slices, and the selections of a [SplitIndexer] *)

Module SliceFacts.
Local Open Scope Z_scope.

Section Slices.
Context {A : Type}.
Variable l : list A.
Let len : Z := Z.of_nat (length l).

Lemma slice_bound_some (d i : Z) :
  slice_bound len d (Some i) =
  Z.max 0 (Z.min len (if i <? 0 then i + len else i)).
Proof.
  unfold slice_bound.
  assert (0 <= len) by (unfold len; lia).
  destruct (Z.ltb_spec i 0);
    repeat match goal with
           | |- context [Z.ltb ?x ?y] => destruct (Z.ltb_spec x y)
           end; lia.
Qed.

Lemma slice_eq (lo hi : option Z) (a b : Z) :
  slice_bound len 0 lo = a -> slice_bound len len hi = b ->
  slice l lo hi = firstn (Z.to_nat (b - a)) (skipn (Z.to_nat a) l).
Proof. intros <- <-. reflexivity. Qed.

Lemma slice_prefix (a : Z) :
  0 <= a <= len -> slice l None (Some a) = firstn (Z.to_nat a) l.
Proof.
  intros H. rewrite (slice_eq None (Some a) 0 a).
  - rewrite Z.sub_0_r. reflexivity.
  - reflexivity.
  - rewrite slice_bound_some. destruct (Z.ltb_spec a 0); lia.
Qed.

Lemma slice_from (a : Z) :
  0 <= a <= len -> slice l (Some a) None = skipn (Z.to_nat a) l.
Proof.
  intros H. rewrite (slice_eq (Some a) None a len).
  - apply firstn_all2. rewrite length_skipn. unfold len in *. lia.
  - rewrite slice_bound_some. destruct (Z.ltb_spec a 0); lia.
  - reflexivity.
Qed.

Lemma slice_middle (a c : Z) :
  0 <= a -> 0 < c -> a + c <= len ->
  slice l (Some a) (Some (- c)) =
  firstn (Z.to_nat (len - c - a)) (skipn (Z.to_nat a) l).
Proof.
  intros Ha Hc H. rewrite (slice_eq (Some a) (Some (- c)) a (len - c)).
  - reflexivity.
  - rewrite slice_bound_some. destruct (Z.ltb_spec a 0); lia.
  - rewrite slice_bound_some. destruct (Z.ltb_spec (- c) 0); lia.
Qed.

Lemma slice_suffix (c : Z) :
  0 < c <= len -> slice l (Some (- c)) None = skipn (Z.to_nat (len - c)) l.
Proof.
  intros H. rewrite (slice_eq (Some (- c)) None (len - c) len).
  - apply firstn_all2. rewrite length_skipn. unfold len in *. lia.
  - rewrite slice_bound_some. destruct (Z.ltb_spec (- c) 0); lia.
  - reflexivity.
Qed.

(** A list cut at two places. *)
Lemma cut3 (a k : nat) :
  l = firstn a l ++ firstn k (skipn a l) ++ skipn (a + k) l.
Proof.
  rewrite <- (firstn_skipn a l) at 1. f_equal.
  rewrite <- (firstn_skipn k (skipn a l)) at 1. f_equal.
  rewrite skipn_skipn. f_equal. lia.
Qed.

End Slices.

Lemma NoDup_app_disjoint {A : Type} (l1 l2 : list A) :
  NoDup (l1 ++ l2) -> Contract.disjoint l1 l2.
Proof.
  induction l1 as [| x l1 IH]; simpl; intros H y H1 H2; [contradiction |].
  inversion H as [| ? ? Hx Hn]; subst. destruct H1 as [-> | H1].
  - apply Hx. apply in_or_app. right. assumption.
  - apply (IH Hn y); assumption.
Qed.

Lemma NoDup_app_r {A : Type} (l1 l2 : list A) : NoDup (l1 ++ l2) -> NoDup l2.
Proof.
  induction l1 as [| x l1 IH]; simpl; intros H; [assumption |].
  inversion H; auto.
Qed.

Lemma NoDup_range (n : Z) : NoDup (range n).
Proof.
  unfold range. generalize (seq_NoDup (Z.to_nat n) 0).
  induction (seq 0 (Z.to_nat n)) as [| x l IH]; simpl; intros H.
  - constructor.
  - inversion H as [| ? ? Hx Hl]; subst. constructor; [| apply IH, Hl].
    rewrite in_map_iff. intros (y & E & Hy).
    apply Nat2Z.inj in E. subst. contradiction.
Qed.

Lemma length_range (n : Z) : length (range n) = Z.to_nat n.
Proof. unfold range. rewrite length_map, length_seq. reflexivity. Qed.

Lemma permutation_facts (perm : list Z) (n : Z) :
  0 <= n -> Permutation perm (range n) ->
  Z.of_nat (length perm) = n /\ NoDup perm.
Proof.
  intros Hn P. split.
  - rewrite (Permutation_length P), length_range. lia.
  - apply (Permutation_NoDup (Permutation_sym P)), NoDup_range.
Qed.

End SliceFacts.

Module IndexerFacts.
Import Splitting Contract SliceFacts.
Local Open Scope Z_scope.

Section Selections.
Context {A : Type}.
Variable self : SplitIndexer.
Variable ind : list A.
Let len : Z := Z.of_nat (length ind).
Hypothesis Htrain : 0 <= training_num self.
Hypothesis Htest : 0 <= testing_num self.
Hypothesis Hlen : training_num self + testing_num self <= len.

Lemma int64_neg_testing :
  Np.int64_neg (testing_num self) = - testing_num self.
Proof.
  unfold Np.int64_neg, Np.int64_min.
  destruct (Z.eqb_spec (testing_num self) (- 2 ^ 63)); lia.
Qed.

(** Training: the first [training_num] entries. *)
Lemma select_train_indices_eq :
  select_train_indices self ind = firstn (Z.to_nat (training_num self)) ind.
Proof.
  unfold select_train_indices. apply slice_prefix. fold len. lia.
Qed.

(** Validation: nothing when [validation_num] is zero, and otherwise the
    whole block between the training entries and the testing entries. *)
Lemma select_validation_indices_eq :
  select_validation_indices self ind =
  if validation_num self =? 0 then []
  else firstn (Z.to_nat (len - training_num self - testing_num self))
         (skipn (Z.to_nat (training_num self)) ind).
Proof.
  unfold select_validation_indices.
  destruct (validation_num self =? 0); [reflexivity |].
  destruct (Z.eqb_spec (testing_num self) 0) as [E | E].
  - rewrite slice_from by (fold len; lia).
    symmetry. apply firstn_all2. rewrite length_skipn. unfold len in *. lia.
  - rewrite int64_neg_testing, slice_middle by (fold len; lia).
    fold len. f_equal. lia.
Qed.

(** Testing: the last [testing_num] entries. *)
Lemma select_testing_indices_eq :
  select_testing_indices self ind =
  skipn (Z.to_nat (len - testing_num self)) ind.
Proof.
  unfold select_testing_indices.
  destruct (Z.eqb_spec (testing_num self) 0) as [E | E].
  - symmetry. apply skipn_all2. unfold len in *. lia.
  - rewrite int64_neg_testing. apply slice_suffix. fold len. lia.
Qed.

(** The three blocks, with what lies between them when there is no
    validation block. *)
Lemma selections_cut :
  ind = firstn (Z.to_nat (training_num self)) ind
        ++ firstn (Z.to_nat (len - training_num self - testing_num self))
             (skipn (Z.to_nat (training_num self)) ind)
        ++ skipn (Z.to_nat (len - testing_num self)) ind.
Proof.
  rewrite (cut3 ind (Z.to_nat (training_num self))
             (Z.to_nat (len - training_num self - testing_num self))) at 1.
  do 3 f_equal. lia.
Qed.

(** With a validation block, the three selections are the whole list. *)
Lemma selections_cover :
  validation_num self <> 0 ->
  select_train_indices self ind ++ select_validation_indices self ind
    ++ select_testing_indices self ind = ind.
Proof.
  intros Hv. rewrite select_train_indices_eq, select_validation_indices_eq,
    select_testing_indices_eq.
  destruct (Z.eqb_spec (validation_num self) 0); [contradiction |].
  symmetry. apply selections_cut.
Qed.

Lemma selections_disjoint :
  NoDup ind ->
  disjoint (select_train_indices self ind) (select_validation_indices self ind)
  /\ disjoint (select_train_indices self ind) (select_testing_indices self ind)
  /\ disjoint (select_validation_indices self ind)
       (select_testing_indices self ind).
Proof.
  intros ND. rewrite selections_cut in ND.
  rewrite select_train_indices_eq, select_validation_indices_eq,
    select_testing_indices_eq.
  set (t := firstn (Z.to_nat (training_num self)) ind) in *.
  set (v := firstn (Z.to_nat (len - training_num self - testing_num self))
              (skipn (Z.to_nat (training_num self)) ind)) in *.
  set (e := skipn (Z.to_nat (len - testing_num self)) ind) in *.
  pose proof (NoDup_app_disjoint _ _ ND) as Dt.
  pose proof (NoDup_app_disjoint _ _ (NoDup_app_r _ _ ND)) as Dv.
  assert (Dtv : disjoint t v).
  { intros x H1 H2. apply (Dt x H1). apply in_or_app. left. assumption. }
  assert (Dte : disjoint t e).
  { intros x H1 H2. apply (Dt x H1). apply in_or_app. right. assumption. }
  destruct (validation_num self =? 0).
  - repeat split; try assumption; intros x H; contradiction.
  - repeat split; assumption.
Qed.

(** With no validation block, the entries between the training block and
    the testing block are in no selection. *)
Lemma selections_leftover :
  NoDup ind -> validation_num self = 0 ->
  forall x,
    In x (firstn (Z.to_nat (len - training_num self - testing_num self))
            (skipn (Z.to_nat (training_num self)) ind)) ->
    ~ In x (select_train_indices self ind) /\
    ~ In x (select_validation_indices self ind) /\
    ~ In x (select_testing_indices self ind).
Proof.
  intros ND Hv x Hx. rewrite selections_cut in ND.
  rewrite select_train_indices_eq, select_validation_indices_eq,
    select_testing_indices_eq, Hv. simpl.
  pose proof (NoDup_app_disjoint _ _ ND) as Dt.
  pose proof (NoDup_app_disjoint _ _ (NoDup_app_r _ _ ND)) as Dv.
  repeat split.
  - intros H. apply (Dt x H). apply in_or_app. left. assumption.
  - intros H. contradiction.
  - intros H. apply (Dv x Hx H).
Qed.

End Selections.

End IndexerFacts.

(** * The rotating generator meets the contract *)

Module RotationFacts.
Import Contract.

Lemma rotate_Permutation {A : Type} (k : nat) (l : list A) :
  Permutation (Rotation.rotate k l) l.
Proof.
  unfold Rotation.rotate.
  rewrite <- (firstn_skipn k l) at 3. apply Permutation_app_comm.
Qed.

Lemma rotation_permutes : permutes Rotation.permutation.
Proof. intros n st _. apply rotate_Permutation. Qed.

End RotationFacts.

(** * Dictionaries *)

Module DictFacts.

Section Dict.
Context {K V : Type} `{Key K}.

Lemma key_eqb_refl (k : K) : key_eqb k k = true.
Proof. apply key_eqb_eq. reflexivity. Qed.

Lemma key_eqb_neq (k k' : K) : k <> k' -> key_eqb k k' = false.
Proof.
  intros N. destruct (key_eqb k k') eqn:E; [| reflexivity].
  apply key_eqb_eq in E. contradiction.
Qed.

Lemma getitem_setitem_same (d : dict K V) (k : K) (v : V) :
  getitem (setitem d k v) k = Ok v.
Proof.
  induction d as [| [k' v'] d IH]; simpl.
  - rewrite key_eqb_refl. reflexivity.
  - destruct (key_eqb k k') eqn:E; simpl; rewrite E; auto.
Qed.

Lemma getitem_setitem_other (d : dict K V) (k k' : K) (v : V) :
  k <> k' -> getitem (setitem d k v) k' = getitem d k'.
Proof.
  intros N. induction d as [| [k1 v1] d IH]; simpl.
  - rewrite key_eqb_neq by congruence. reflexivity.
  - destruct (key_eqb k k1) eqn:E; simpl.
    + apply key_eqb_eq in E. subst k1.
      rewrite key_eqb_neq by congruence. reflexivity.
    + rewrite IH. reflexivity.
Qed.

Lemma getitem_raises (d : dict K V) (k : K) (e : exn) :
  getitem d k = Raise e -> e = KeyError.
Proof.
  induction d as [| [k' v'] d IH]; cbn [getitem]; intros G.
  - congruence.
  - destruct (key_eqb k k'); [discriminate | auto].
Qed.

Lemma getitem_In (d : dict K V) (k : K) (v : V) :
  wf d -> In (k, v) d -> getitem d k = Ok v.
Proof.
  unfold wf, keys. induction d as [| [k1 v1] d IH]; simpl; intros W I.
  - contradiction.
  - inversion W as [| ? ? Hk Hd]; subst. destruct I as [E | I].
    + inversion E; subst. rewrite key_eqb_refl. reflexivity.
    + rewrite key_eqb_neq; [apply IH; assumption |].
      intros ->. apply Hk. apply (in_map fst) in I. exact I.
Qed.

Lemma getitem_Ok_In (d : dict K V) (k : K) (v : V) :
  getitem d k = Ok v -> exists k', In (k', v) d.
Proof.
  induction d as [| [k1 v1] d IH]; simpl; intros G.
  - discriminate.
  - destruct (key_eqb k k1).
    + inversion G; subst. exists k1. auto.
    + destruct (IH G) as [k' I]. exists k'. auto.
Qed.

End Dict.

End DictFacts.

(** * The content-hash splitter *)

Module HashFacts.
Import Splitting Contract DictFacts.
Local Open Scope string_scope.

(** ** The pattern *)

Lemma strip_prefix_app (p x s : string) :
  (String.length p <= String.length x)%nat ->
  strip_prefix p (x ++ s) =
  match strip_prefix p x with
  | Some r => Some (r ++ s)
  | None => None
  end.
Proof.
  revert x. induction p as [| a p IH]; intros x L; simpl.
  - reflexivity.
  - destruct x as [| b x]; simpl in *; [lia |].
    destruct (Ascii.eqb a b); [| reflexivity]. apply IH. lia.
Qed.

Lemma skip_line_app (r s : string) :
  no_newline s = true ->
  skip_line (r ++ s) = if no_newline r then "" else skip_line r ++ s.
Proof.
  intros Hs. induction r as [| a r IH]; simpl.
  - induction s as [| b s IHs]; simpl in *; [reflexivity |].
    apply andb_true_iff in Hs. destruct Hs as [Hb Hs].
    destruct (Ascii.eqb b newline); [discriminate | auto].
  - destruct (Ascii.eqb a newline); simpl; [reflexivity | exact IH].
Qed.

Lemma skip_line_head (r : string) :
  no_newline r = false ->
  exists t, skip_line r = String newline t.
Proof.
  induction r as [| a r IH]; simpl; intros H; [discriminate |].
  destruct (Ascii.eqb a newline) eqn:E.
  - apply Ascii.eqb_eq in E. subst. eauto.
  - apply IH. exact H.
Qed.

(** A match that starts at least eight characters before a tail with no
    newline depends on what precedes the tail only. *)
Lemma match_here_app (x s : string) :
  (8 <= String.length x)%nat -> no_newline s = true -> s <> "" ->
  match_here (x ++ s) =
  match strip_prefix marker x with
  | Some r => if no_newline r then Some "" else None
  | None => None
  end.
Proof.
  intros L Hs Ne. unfold match_here.
  rewrite strip_prefix_app by exact L.
  destruct (strip_prefix marker x) as [r |]; [| reflexivity].
  rewrite skip_line_app by exact Hs.
  destruct (no_newline r) eqn:E; [reflexivity |].
  destruct (skip_line_head r E) as [t ->]. simpl.
  destruct (t ++ s) eqn:Et; [| reflexivity].
  destruct t; simpl in Et; [contradiction | discriminate].
Qed.

Lemma length_append (a b : string) :
  String.length (a ++ b) = (String.length a + String.length b)%nat.
Proof. induction a; simpl; auto. Qed.

Lemma append_assoc (a b c : string) : (a ++ b) ++ c = a ++ (b ++ c).
Proof. induction a; simpl; congruence. Qed.

(** Two texts that agree up to and including the marker, and go on without
    a newline, are rewritten to the same text. *)
Lemma re_sub_nohash_marker (pre s1 s2 : string) :
  no_newline s1 = true -> s1 <> "" -> no_newline s2 = true -> s2 <> "" ->
  re_sub_nohash (pre ++ marker ++ s1) = re_sub_nohash (pre ++ marker ++ s2).
Proof.
  intros H1 E1 H2 E2. induction pre as [| a pre IH].
  - change ("" ++ marker ++ s1) with (marker ++ s1).
    change ("" ++ marker ++ s2) with (marker ++ s2).
    assert (M : forall s, no_newline s = true -> s <> "" ->
                re_sub_nohash (marker ++ s) = "").
    { intros s Hs Ns.
      change (marker ++ s) with (String "_" ("nohash_" ++ s)).
      cbn [re_sub_nohash].
      change (String "_" ("nohash_" ++ s)) with (marker ++ s).
      rewrite (match_here_app marker s) by (simpl; auto with arith).
      reflexivity. }
    rewrite !M by assumption. reflexivity.
  - change (String a pre ++ marker ++ s1)
      with (String a (pre ++ marker ++ s1)).
    change (String a pre ++ marker ++ s2)
      with (String a (pre ++ marker ++ s2)).
    cbn [re_sub_nohash].
    assert (M : forall s, no_newline s = true -> s <> "" ->
                match_here (String a (pre ++ marker ++ s)) =
                match strip_prefix marker (String a pre ++ marker) with
                | Some r => if no_newline r then Some "" else None
                | None => None
                end).
    { intros s Hs Ns.
      replace (String a (pre ++ marker ++ s))
        with ((String a pre ++ marker) ++ s)
        by (rewrite append_assoc; reflexivity).
      apply match_here_app; try assumption.
      rewrite length_append. simpl. lia. }
    rewrite !M by assumption.
    destruct (strip_prefix marker (String a pre ++ marker)) as [r |].
    + destruct (no_newline r); [reflexivity | congruence].
    + congruence.
Qed.

Lemma strip_prefix_Some (p s r : string) :
  strip_prefix p s = Some r -> s = p ++ r.
Proof.
  revert s. induction p as [| a p IH]; intros s; cbn [strip_prefix].
  - intros E. inversion E. reflexivity.
  - destruct s as [| b s]; [discriminate |].
    destruct (Ascii.eqb a b) eqn:E; [| discriminate].
    apply Ascii.eqb_eq in E. subst b. intros H.
    rewrite (IH s H). reflexivity.
Qed.

Lemma last_char_app (a b : string) (d : ascii) :
  last_char (a ++ b) d = last_char b (last_char a d).
Proof.
  revert d. induction a as [| c a IH]; intros d; [reflexivity |].
  change (String c a ++ b) with (String c (a ++ b)).
  cbn [last_char]. apply IH.
Qed.

(** In a text that does not end with a newline, the end of a line is the
    end of the text only when the text has one line. *)
Lemma skip_line_last (r : string) :
  forall d, d <> newline -> last_char r d <> newline ->
    at_end (skip_line r) = true -> skip_line r = "".
Proof.
  induction r as [| c r IH]; intros d Hd Hl He; [reflexivity |].
  cbn [skip_line] in *. destruct (Ascii.eqb c newline) eqn:E.
  - apply Ascii.eqb_eq in E. subst c. exfalso.
    destruct r as [| c' r]; [apply Hl; reflexivity |].
    cbn [at_end] in He. discriminate.
  - apply (IH c); [| exact Hl | exact He].
    intros ->. rewrite Ascii.eqb_refl in E. discriminate.
Qed.

(** A match that starts before the end of the marker, in a text that goes
    on without a newline, depends on what precedes the end of the marker
    only. *)
Lemma match_here_marker (y s : string) :
  no_newline s = true ->
  match_here ((y ++ marker) ++ s) =
  match strip_prefix marker (y ++ marker) with
  | Some r => if no_newline r then Some "" else None
  | None => None
  end.
Proof.
  intros Hs. unfold match_here.
  rewrite strip_prefix_app by (rewrite length_append; simpl; lia).
  destruct (strip_prefix marker (y ++ marker)) as [r |] eqn:E;
    [| reflexivity].
  rewrite skip_line_app by exact Hs.
  destruct (no_newline r) eqn:N; [reflexivity |].
  destruct (skip_line_head r N) as [t Et].
  assert (Ht : exists c t', t = String c t').
  { destruct t as [| c t']; [exfalso | eauto].
    assert (L : last_char r "_" = "_"%char).
    { apply strip_prefix_Some in E.
      pose proof (f_equal (fun x => last_char x "_") E) as Q. cbv beta in Q.
      rewrite !last_char_app in Q. symmetry. exact Q. }
    assert (Z : skip_line r = "").
    { apply (skip_line_last r "_").
      - discriminate.
      - rewrite L. discriminate.
      - rewrite Et. cbn [at_end]. apply Ascii.eqb_refl. }
    rewrite Z in Et. discriminate. }
  destruct Ht as (c & t' & ->). rewrite Et. reflexivity.
Qed.

(** Two texts that agree up to and including the marker, and go on without
    a newline (or end there), are rewritten to the same text. *)
Lemma re_sub_nohash_suffix (pre s1 s2 : string) :
  no_newline s1 = true -> no_newline s2 = true ->
  re_sub_nohash (pre ++ marker ++ s1) = re_sub_nohash (pre ++ marker ++ s2).
Proof.
  intros H1 H2. induction pre as [| a pre IH].
  - change ("" ++ marker ++ s1) with (marker ++ s1).
    change ("" ++ marker ++ s2) with (marker ++ s2).
    assert (M : forall s, no_newline s = true ->
                re_sub_nohash (marker ++ s) = "").
    { intros s Hs.
      change (marker ++ s) with (String "_" ("nohash_" ++ s)).
      cbn [re_sub_nohash].
      change (String "_" ("nohash_" ++ s)) with (("" ++ marker) ++ s).
      rewrite (match_here_marker "" s Hs). reflexivity. }
    rewrite !M by assumption. reflexivity.
  - change (String a pre ++ marker ++ s1)
      with (String a (pre ++ marker ++ s1)).
    change (String a pre ++ marker ++ s2)
      with (String a (pre ++ marker ++ s2)).
    cbn [re_sub_nohash].
    assert (M : forall s, no_newline s = true ->
                match_here (String a (pre ++ marker ++ s)) =
                match strip_prefix marker (String a pre ++ marker) with
                | Some r => if no_newline r then Some "" else None
                | None => None
                end).
    { intros s Hs.
      replace (String a (pre ++ marker ++ s))
        with ((String a pre ++ marker) ++ s)
        by (rewrite append_assoc; reflexivity).
      apply match_here_marker. exact Hs. }
    rewrite !M by assumption.
    destruct (strip_prefix marker (String a pre ++ marker)) as [r |].
    + destruct (no_newline r); [reflexivity | congruence].
    + congruence.
Qed.

(** A label with no underscore is left as it is: the substitution acts on
    the name alone. *)
Lemma re_sub_nohash_label (c s : string) :
  no_underscore c = true ->
  re_sub_nohash (c ++ s) = c ++ re_sub_nohash s.
Proof.
  induction c as [| a c IH]; intros H; [reflexivity |].
  cbn [no_underscore] in H.
  apply andb_true_iff in H. destruct H as [Ha Hc].
  apply negb_true_iff in Ha.
  change (String a c ++ s) with (String a (c ++ s)).
  change (String a c ++ re_sub_nohash s)
    with (String a (c ++ re_sub_nohash s)).
  cbn [re_sub_nohash].
  assert (M : match_here (String a (c ++ s)) = None).
  { unfold match_here. change marker with (String "_" "nohash_").
    cbn [strip_prefix]. rewrite Ascii.eqb_sym, Ha. reflexivity. }
  rewrite M, IH by assumption. reflexivity.
Qed.

(** ** The loops *)

Lemma Split_eqb_refl (s : Split) : Split_eqb s s = true.
Proof. destruct s; reflexivity. Qed.

Lemma assign_fold (c : string) (v t : float) (vs : list Path) :
  forall acc,
    fold_left (assign c v t) vs acc =
    {| training_images := training_images acc ++ selected c v t Training vs;
       testing_images := testing_images acc ++ selected c v t Testing vs;
       validation_images :=
         validation_images acc ++ selected c v t Validation vs |}.
Proof.
  induction vs as [| f vs IH]; intros acc; simpl.
  - unfold selected. simpl. rewrite !app_nil_r. destruct acc; reflexivity.
  - rewrite IH. unfold assign, selected, split_of. simpl.
    destruct (percentage_hash c f <? v + t)%float;
      [destruct (percentage_hash c f <? t)%float |];
      simpl; rewrite <- ?app_assoc; reflexivity.
Qed.

Lemma split_category_eq (v t : float)
    (result : dict string (dict Split (list Path))) (c : string)
    (vs : list Path) :
  split_category v t result (c, vs) =
  setitem result c (category_result c v t vs).
Proof.
  unfold split_category. rewrite assign_fold. reflexivity.
Qed.

Lemma fold_getitem_other (v t : float) (c : string)
    (cats : dict string (list Path)) :
  ~ In c (keys cats) ->
  forall result,
    getitem (fold_left (split_category v t) cats result) c = getitem result c.
Proof.
  induction cats as [| [c' vs'] cats IH]; intros N result;
    cbn [fold_left keys map fst In] in *.
  - reflexivity.
  - rewrite IH by tauto. rewrite split_category_eq.
    apply getitem_setitem_other. intros ->. tauto.
Qed.

(** What the result binds to a category of a well-formed input. *)
Theorem train_valid_test_split_getitem (categories : dict string (list Path))
    (v t : float) (c : string) (vs : list Path) :
  wf categories -> In (c, vs) categories ->
  getitem (train_valid_test_split categories v t) c =
  Ok (category_result c v t vs).
Proof.
  unfold train_valid_test_split, wf, keys. generalize (@nil (string * dict Split (list Path))).
  induction categories as [| [c' vs'] cats IH]; intros r W I;
    cbn [fold_left map fst In] in *.
  - contradiction.
  - inversion W as [| ? ? Hc Hw]; subst. destruct I as [E | I].
    + inversion E; subst.
      rewrite fold_getitem_other by exact Hc.
      rewrite split_category_eq. apply getitem_setitem_same.
    + apply IH; assumption.
Qed.

Lemma getitem_category_result (c : string) (v t : float) (vs : list Path)
    (sp : Split) :
  getitem (category_result c v t vs) sp = Ok (selected c v t sp vs).
Proof. destruct sp; reflexivity. Qed.

Lemma In_selected (c : string) (v t : float) (sp : Split) (vs : list Path)
    (f : Path) :
  In f (selected c v t sp vs) <-> In f vs /\ split_of c v t f = sp.
Proof.
  unfold selected. rewrite filter_In. rewrite Split_eqb_eq. reflexivity.
Qed.

(** An item of a category is in the list of a split exactly when the loop
    body takes the branch of that split for it. *)
Theorem assigned_iff (categories : dict string (list Path)) (v t : float)
    (c : string) (vs : list Path) (sp : Split) (f : Path) :
  wf categories -> In (c, vs) categories ->
  (assigned (train_valid_test_split categories v t) c sp f <->
   In f vs /\ split_of c v t f = sp).
Proof.
  intros W I. unfold assigned.
  rewrite (train_valid_test_split_getitem categories v t c vs W I).
  split.
  - intros (d & l & E & G & H). inversion E; subst d.
    rewrite getitem_category_result in G. inversion G; subst l.
    apply In_selected. exact H.
  - intros H. exists (category_result c v t vs), (selected c v t sp vs).
    split; [reflexivity | split; [apply getitem_category_result |]].
    apply In_selected. exact H.
Qed.

(** The branch depends on the rewritten text and the thresholds only. *)
Lemma split_of_key (c1 c2 : string) (f1 f2 : Path) (v t : float) :
  re_sub_nohash (c1 ++ name f1) = re_sub_nohash (c2 ++ name f2) ->
  split_of c1 v t f1 = split_of c2 v t f2.
Proof.
  intros E. unfold split_of, percentage_hash, b_rep. rewrite E. reflexivity.
Qed.

(** With thresholds that sum above [100], no item goes to training. *)
Lemma split_of_not_training (c : string) (v t : float) (f : Path) :
  (100 <? v + t)%float = true -> split_of c v t f <> Training.
Proof.
  intros H. unfold split_of, percentage_hash.
  rewrite (PercentageFacts.percentage_of_below _ _ H).
  destruct (_ <? t)%float; discriminate.
Qed.

End HashFacts.

(** * The projection [select_split] *)

Module SelectFacts.
Import Splitting Contract DictFacts.

Section Select.
Context {K A : Type} `{Key K}.

(** The items of a category for a split, or nothing when the split is
    missing. *)
Definition items_of (split : Split) (v : dict Split (list A)) : list A :=
  match getitem v split with
  | Ok items => items
  | Raise _ => []
  end.

Lemma getitem_app_notin {V : Type} (d e : dict K V) (k : K) :
  ~ In k (keys d) -> getitem (d ++ e) k = getitem e k.
Proof.
  induction d as [| [k' v'] d IH]; cbn [app getitem keys map fst In];
    intros N.
  - reflexivity.
  - rewrite key_eqb_neq by (intros ->; tauto). apply IH. tauto.
Qed.

Lemma setitem_app_notin {V : Type} (d e : dict K V) (k : K) (x y : V) :
  ~ In k (keys d) -> setitem (d ++ (k, x) :: e) k y = d ++ (k, y) :: e.
Proof.
  induction d as [| [k' v'] d IH]; cbn [app setitem keys map fst In];
    intros N.
  - rewrite key_eqb_refl. reflexivity.
  - rewrite key_eqb_neq by (intros ->; tauto). rewrite IH by tauto.
    reflexivity.
Qed.

Lemma setitem_setitem {V : Type} (d : dict K V) (k : K) (x y : V) :
  setitem (setitem d k x) k y = setitem d k y.
Proof.
  induction d as [| [k' v'] d IH]; cbn [setitem].
  - rewrite key_eqb_refl. reflexivity.
  - destruct (key_eqb k k') eqn:E; cbn [setitem]; rewrite E; congruence.
Qed.

(** Appending the items one by one is appending them all. *)
Lemma append_items_eq (items : list A) :
  forall (data : dict K (list A)) (k : K) (l : list A),
    getitem data k = Ok l ->
    append_items data k items = Ok (setitem data k (l ++ items)).
Proof.
  unfold append_items.
  induction items as [| item items IH]; intros data k l G; cbn [fold_left].
  - rewrite app_nil_r. f_equal. clear - G.
    induction data as [| [k' v'] data IH]; cbn [getitem setitem] in *;
      [discriminate |].
    destruct (key_eqb k k'); [congruence | f_equal; apply IH; exact G].
  - cbn [bind]. rewrite G. cbn [bind].
    rewrite (IH _ k (l ++ [item])) by apply getitem_setitem_same.
    rewrite setitem_setitem, <- app_assoc. reflexivity.
Qed.

Definition step (split : Split) (acc : result (dict K (list A)))
    (kv : K * dict Split (list A)) : result (dict K (list A)) :=
  bind acc (fun data =>
  bind (getitem (snd kv) split) (fun items =>
  append_items data (fst kv) items)).

Lemma step_Ok (split : Split) (data : dict K (list A)) (k : K)
    (v : dict Split (list A)) :
  step split (Ok data) (k, v) =
  bind (getitem v split) (fun items => append_items data k items).
Proof. reflexivity. Qed.

Lemma select_split_unfold (d : dict K (dict Split (list A))) (split : Split) :
  select_split d split =
  fold_left (step split) d (Ok (map (fun kv => (fst kv, @nil A)) d)).
Proof. reflexivity. Qed.

Lemma fold_step_ok (split : Split) (todo : dict K (dict Split (list A))) :
  forall done : dict K (list A),
    (forall kv, In kv todo -> exists items, getitem (snd kv) split = Ok items) ->
    NoDup (keys done ++ keys todo) ->
    fold_left (step split) todo
      (Ok (done ++ map (fun kv => (fst kv, @nil A)) todo)) =
    Ok (done ++ map (fun kv => (fst kv, items_of split (snd kv))) todo).
Proof.
  induction todo as [| [k v] todo IH]; intros done Hall ND;
    cbn [fold_left map fst snd].
  - reflexivity.
  - assert (Nk : ~ In k (keys done)).
    { intros I. cbn [keys map fst] in ND. apply NoDup_remove_2 in ND.
      apply ND. apply in_or_app. left. exact I. }
    destruct (Hall (k, v) (or_introl eq_refl)) as [items G]. cbn [snd] in G.
    rewrite step_Ok, G. cbn [bind].
    rewrite (append_items_eq items _ k [])
      by (rewrite getitem_app_notin by exact Nk;
          cbn [getitem]; rewrite key_eqb_refl; reflexivity).
    rewrite setitem_app_notin by exact Nk. cbn [app].
    unfold items_of at 1. rewrite G.
    replace (done ++ (k, items) :: map (fun kv => (fst kv, @nil A)) todo)
      with ((done ++ [(k, items)]) ++ map (fun kv => (fst kv, @nil A)) todo)
      by (rewrite <- app_assoc; reflexivity).
    rewrite IH.
    + rewrite <- app_assoc. reflexivity.
    + intros kv I. apply Hall. right. exact I.
    + unfold keys in *. rewrite map_app, <- app_assoc. exact ND.
Qed.

(** With the split bound in every category, the result binds each category
    to its items for the split, in the order of the input. *)
Theorem select_split_ok (d : dict K (dict Split (list A))) (split : Split) :
  wf d ->
  (forall kv, In kv d -> exists items, getitem (snd kv) split = Ok items) ->
  select_split d split =
  Ok (map (fun kv => (fst kv, items_of split (snd kv))) d).
Proof.
  intros W Hall. rewrite select_split_unfold.
  apply (fold_step_ok split d [] Hall). exact W.
Qed.

Lemma fold_step_raise (split : Split) (todo : dict K (dict Split (list A)))
    (e : exn) :
  fold_left (step split) todo (Raise e) = Raise e.
Proof. induction todo as [| kv todo IH]; cbn [fold_left]; auto. Qed.

Lemma append_items_raises (items : list A) (data : dict K (list A)) (k : K)
    (e : exn) :
  append_items data k items = Raise e -> e = KeyError.
Proof.
  unfold append_items.
  assert (G : forall acc : result (dict K (list A)),
            (forall e', acc = Raise e' -> e' = KeyError) ->
            forall e',
              fold_left
                (fun acc item =>
                   bind acc (fun data =>
                   bind (getitem data k) (fun l =>
                   Ok (setitem data k (l ++ [item])))))
                items acc = Raise e' -> e' = KeyError).
  { induction items as [| item items IH]; intros acc Hacc e'; cbn [fold_left].
    - apply Hacc.
    - apply IH. intros e1. destruct acc as [data' | e2]; cbn [bind].
      + destruct (getitem data' k) eqn:E; cbn [bind]; [discriminate |].
        intros Q. inversion Q; subst. apply (getitem_raises _ _ _ E).
      + intros Q. apply Hacc. exact Q. }
  apply G. intros e' Q. discriminate.
Qed.

Lemma fold_step_raises (split : Split) (todo : dict K (dict Split (list A))) :
  forall acc,
    (forall e, acc = Raise e -> e = KeyError) ->
    forall e, fold_left (step split) todo acc = Raise e -> e = KeyError.
Proof.
  induction todo as [| kv todo IH]; intros acc Hacc e; cbn [fold_left].
  - apply Hacc.
  - apply IH. intros e1. unfold step.
    destruct acc as [data | e2]; cbn [bind].
    + destruct (getitem (snd kv) split) eqn:E; cbn [bind].
      * apply append_items_raises.
      * intros Q. inversion Q; subst. apply (getitem_raises _ _ _ E).
    + intros Q. apply Hacc. exact Q.
Qed.

(** With the split missing from a category, the call raises [KeyError]. *)
Theorem select_split_keyerror (d : dict K (dict Split (list A)))
    (split : Split) :
  (exists kv, In kv d /\ getitem (snd kv) split = Raise KeyError) ->
  select_split d split = Raise KeyError.
Proof.
  intros (kv & I & G). rewrite select_split_unfold.
  assert (R : forall todo acc,
            (forall e, acc = Raise e -> e = KeyError) ->
            In kv todo ->
            exists e, fold_left (step split) todo acc = Raise e).
  { induction todo as [| kv' todo IH]; intros acc Hacc I'; [contradiction |].
    cbn [fold_left]. destruct I' as [-> | I'].
    - assert (S : exists e, step split acc kv = Raise e).
      { unfold step. destruct acc; cbn [bind]; [rewrite G; cbn [bind] |]; eauto. }
      destruct S as [e ->]. rewrite fold_step_raise. eauto.
    - apply IH; [| exact I'].
      intros e Q. apply (fold_step_raises split [kv'] acc Hacc e Q). }
  destruct (R d (Ok (map (fun kv => (fst kv, @nil A)) d))) as [e E];
    [intros e' Q; discriminate | exact I |].
  rewrite E. f_equal.
  eapply fold_step_raises; [| exact E]. intros e' Q. discriminate.
Qed.

End Select.

End SelectFacts.

(** * The constructor under its contract *)

Module InitFacts.
Import Splitting Contract B64 B64Facts F64 CountsFacts.
Local Open Scope Z_scope.

(** What the constructor stores. *)
Lemma init_fields (n : Z) (w1 w2 w3 : float) (self : SplitIndexer) :
  init n w1 w2 w3 = Ok self ->
  let s := sum3 w1 w2 w3 in
  let normalised := ((w1 / s)%float, (w2 / s)%float, (w3 / s)%float) in
  total_num self = n /\
  normalised_split self = normalised /\
  counts self =
  (fst (fst (unnormalised normalised n true)),
   snd (fst (unnormalised normalised n true)),
   snd (unnormalised normalised n true)).
Proof.
  unfold init. cbv zeta. unfold unnormalised. intros E.
  inversion E; subst self; clear E. repeat split.
Qed.

(** One of three weights of the contract is positive: so is their sum. *)
Lemma weights_sum_pos (w1 w2 w3 : float) :
  weight w1 -> weight w2 -> weight w3 -> not_all_zero w1 w2 w3 ->
  nn (Prim2SF w1) /\ nn (Prim2SF w2) /\ nn (Prim2SF w3) /\
  (0 < val w1 + val w2 + val w3)%R.
Proof.
  intros [L1 U1] [L2 U2] [L3 U3] P.
  pose proof (nn_of_bounds w1 L1 U1) as N1.
  pose proof (nn_of_bounds w2 L2 U2) as N2.
  pose proof (nn_of_bounds w3 L3 U3) as N3.
  pose proof (val_nonneg w1 N1). pose proof (val_nonneg w2 N2).
  pose proof (val_nonneg w3 N3).
  split; [assumption | split; [assumption | split; [assumption |]]].
  unfold not_all_zero in P.
  apply orb_true_iff in P. destruct P as [P | P].
  - apply orb_true_iff in P. destruct P as [P | P].
    + pose proof (pos_of_ltb w1 N1 P). lra.
    + pose proof (pos_of_ltb w2 N2 P). lra.
  - pose proof (pos_of_ltb w3 N3 P). lra.
Qed.

(** Under the contract, and for a length up to [2^50], each count is the
    integer part of its scaled proportion and the counts fit in the length. *)
Theorem init_contract (n : Z) (w1 w2 w3 : float) (self : SplitIndexer) :
  0 <= n <= 2 ^ 50 ->
  weight w1 -> weight w2 -> weight w3 -> not_all_zero w1 w2 w3 ->
  init n w1 w2 w3 = Ok self ->
  let s := sum3 w1 w2 w3 in
  total_num self = n /\
  is_floor (training_num self) (w1 / s * Np.float_of_Z n) /\
  is_floor (validation_num self) (w2 / s * Np.float_of_Z n) /\
  is_floor (testing_num self) (w3 / s * Np.float_of_Z n) /\
  training_num self + validation_num self + testing_num self <= n.
Proof.
  intros Hn W1 W2 W3 P E s.
  destruct (weights_sum_pos w1 w2 w3 W1 W2 W3 P) as (N1 & N2 & N3 & Pos).
  destruct (init_fields n w1 w2 w3 self E) as (T & _ & C).
  pose proof (unnormalised_bounds w1 w2 w3 n N1 N2 N3 Pos Hn) as B.
  cbv zeta in B, C. fold s in B, C.
  unfold counts in C. inversion C as [[Ca Cb Cc]].
  rewrite Ca, Cb, Cc. split; [exact T |]. exact B.
Qed.

(** The consequences the slices need. *)
Corollary init_contract_bounds (n : Z) (w1 w2 w3 : float)
    (self : SplitIndexer) :
  0 <= n <= 2 ^ 50 ->
  weight w1 -> weight w2 -> weight w3 -> not_all_zero w1 w2 w3 ->
  init n w1 w2 w3 = Ok self ->
  total_num self = n /\ 0 <= training_num self /\ 0 <= validation_num self /\
  0 <= testing_num self /\
  training_num self + validation_num self + testing_num self <= n.
Proof.
  intros Hn W1 W2 W3 P E.
  destruct (init_contract n w1 w2 w3 self Hn W1 W2 W3 P E)
    as (T & (_ & A & _) & (_ & B & _) & (_ & C & _) & S).
  auto.
Qed.

(** The constructor raises nothing. *)
Lemma init_Ok (n : Z) (w1 w2 w3 : float) :
  exists self, init n w1 w2 w3 = Ok self.
Proof. unfold init. cbv zeta. unfold unnormalised. eexists. reflexivity. Qed.

End InitFacts.

(** * The statements of the specification *)

Module Claims.
Import Splitting Contract.
Import DictFacts HashFacts SliceFacts IndexerFacts InitFacts SelectFacts.
Local Open Scope string_scope.
Local Open Scope Z_scope.

(** ** Shared steps *)

(** Two items whose loop bodies take the same branch are in the same lists,
    also across two inputs. *)
Lemma assigned_same (cats1 cats2 : dict string (list Path)) (v t : float)
    (c : string) (vs1 vs2 : list Path) (sp : Split) (f1 f2 : Path) :
  wf cats1 -> wf cats2 -> In (c, vs1) cats1 -> In (c, vs2) cats2 ->
  In f1 vs1 -> In f2 vs2 ->
  split_of c v t f1 = split_of c v t f2 ->
  (assigned (train_valid_test_split cats1 v t) c sp f1 <->
   assigned (train_valid_test_split cats2 v t) c sp f2).
Proof.
  intros W1 W2 I1 I2 F1 F2 E.
  rewrite (assigned_iff cats1 v t c vs1 sp f1 W1 I1).
  rewrite (assigned_iff cats2 v t c vs2 sp f2 W2 I2).
  rewrite E. tauto.
Qed.

Lemma selected_none (c : string) (v t : float) (sp : Split) (vs : list Path) :
  (forall f, In f vs -> split_of c v t f <> sp) -> selected c v t sp vs = [].
Proof.
  intros N. unfold selected. induction vs as [| f vs IH]; [reflexivity |].
  cbn [filter]. destruct (Split_eqb (split_of c v t f) sp) eqn:E.
  - apply Split_eqb_eq in E. exfalso. apply (N f); [left; reflexivity | exact E].
  - apply IH. intros g G. apply N. right. exact G.
Qed.

Lemma wf_singleton {K V : Type} (k : K) (x : V) : NoDup (map fst [(k, x)]).
Proof. repeat constructor. intros []. Qed.

(** ** The content-hash splitter *)

(** C1, as the source has it.  The pattern is applied to the category label
    concatenated with the item's name, so the split of an item is a function
    of that rewritten text and of the two thresholds: two items of a category
    (of one input or of two) whose rewritten texts agree are in the same
    split.  Hence an item keeps its split when the category changes around
    it; two names that differ after [_nohash_] only, in suffixes that hold
    no newline, share a split; and for a label with no underscore two items
    with the same stripped name share a split. *)
Theorem C1_split_by_rewritten_text
    (cats1 cats2 : dict string (list Path)) (v t : float) (c : string)
    (vs1 vs2 : list Path) (sp : Split) :
  wf cats1 -> wf cats2 -> In (c, vs1) cats1 -> In (c, vs2) cats2 ->
  let r1 := train_valid_test_split cats1 v t in
  let r2 := train_valid_test_split cats2 v t in
  (forall f1 f2, In f1 vs1 -> In f2 vs2 ->
     re_sub_nohash (c ++ name f1) = re_sub_nohash (c ++ name f2) ->
     (assigned r1 c sp f1 <-> assigned r2 c sp f2)) /\
  (forall f, In f vs1 -> In f vs2 ->
     (assigned r1 c sp f <-> assigned r2 c sp f)) /\
  (forall f1 f2 x s1 s2, In f1 vs1 -> In f2 vs2 ->
     name f1 = x ++ "_nohash_" ++ s1 -> name f2 = x ++ "_nohash_" ++ s2 ->
     no_newline s1 = true -> no_newline s2 = true ->
     (assigned r1 c sp f1 <-> assigned r2 c sp f2)) /\
  (no_underscore c = true ->
   forall f1 f2, In f1 vs1 -> In f2 vs2 ->
     re_sub_nohash (name f1) = re_sub_nohash (name f2) ->
     (assigned r1 c sp f1 <-> assigned r2 c sp f2)).
Proof.
  intros W1 W2 I1 I2 r1 r2.
  assert (S : forall f1 f2, In f1 vs1 -> In f2 vs2 ->
            re_sub_nohash (c ++ name f1) = re_sub_nohash (c ++ name f2) ->
            (assigned r1 c sp f1 <-> assigned r2 c sp f2)).
  { intros f1 f2 F1 F2 E.
    apply (assigned_same cats1 cats2 v t c vs1 vs2 sp f1 f2); try assumption.
    apply split_of_key. exact E. }
  split; [exact S | split; [| split]].
  - intros f F1 F2. apply S; [assumption | assumption | reflexivity].
  - intros f1 f2 x s1 s2 F1 F2 N1 N2 L1 L2.
    apply S; try assumption. rewrite N1, N2.
    change (re_sub_nohash (c ++ x ++ marker ++ s1) =
            re_sub_nohash (c ++ x ++ marker ++ s2)).
    rewrite <- (append_assoc c x (marker ++ s1)).
    rewrite <- (append_assoc c x (marker ++ s2)).
    apply (re_sub_nohash_suffix (c ++ x) s1 s2); assumption.
  - intros U f1 f2 F1 F2 E. apply S; try assumption.
    rewrite !re_sub_nohash_label by exact U. rewrite E. reflexivity.
Qed.

Lemma C1_split_by_rewritten_text_witness :
  let cats1 := [("cat", [["a"]; ["x_nohash_1"]])] in
  let cats2 := [("cat", [["a"]; ["x_nohash_2"]; ["c"]])] in
  let r1 := train_valid_test_split cats1 15 0 in
  let r2 := train_valid_test_split cats2 15 0 in
  (assigned r1 "cat" Training ["a"] <-> assigned r2 "cat" Training ["a"]) /\
  (assigned r1 "cat" Training ["x_nohash_1"] <->
   assigned r2 "cat" Training ["x_nohash_2"]).
Proof.
  intros cats1 cats2 r1 r2.
  assert (W1 : wf cats1) by apply wf_singleton.
  assert (W2 : wf cats2) by apply wf_singleton.
  assert (I1 : In ("cat", [["a"]; ["x_nohash_1"]]) cats1)
    by (left; reflexivity).
  assert (I2 : In ("cat", [["a"]; ["x_nohash_2"]; ["c"]]) cats2)
    by (left; reflexivity).
  destruct (C1_split_by_rewritten_text cats1 cats2 15 0 "cat" _ _ Training
              W1 W2 I1 I2) as (_ & Same & Suffix & _).
  split.
  - apply Same; simpl; auto.
  - apply (Suffix ["x_nohash_1"] ["x_nohash_2"] "x" "1" "2");
      simpl; auto.
Defined.

(** C1 as worded fails: the items [h] and [h_nohash_2] of the category
    [e_nohas] have the same stripped name, and one is put in validation, the
    other in training (the label and the name together hold the marker
    earlier than the name alone). *)
Lemma C1_same_stripped_name_two_splits :
  re_sub_nohash (name ["h"]) = re_sub_nohash (name ["h_nohash_2"]) /\
  train_valid_test_split [("e_nohas", [["h"]; ["h_nohash_2"]])] 15 0 =
  [("e_nohas",
    [(Training, [["h_nohash_2"]]); (Validation, [["h"]]); (Testing, [])])].
Proof. split; vm_compute; reflexivity. Qed.

(** C2, as the source has it.  Every item of a category is in the list of
    exactly one split.  The split is found from the text [c ++ name] with the
    first match of the pattern removed, its SHA-1 digest, and the
    pseudo-percentage of that digest, which lies between [0] and [100],
    both included: training unless the percentage is below the sum of the
    thresholds, and then testing if it is below the testing threshold,
    validation if not.  For a label with no underscore the text is the label
    followed by the stripped name. *)
Theorem C2_one_split_per_item
    (cats : dict string (list Path)) (v t : float) (c : string)
    (vs : list Path) (f : Path) :
  wf cats -> In (c, vs) cats -> In f vs ->
  let key := re_sub_nohash (c ++ name f) in
  let p := percentage_of (Sha1.digest_int (Sha1.bytes_of_string key)) in
  let sp := if (p <? v + t)%float
            then if (p <? t)%float then Testing else Validation
            else Training in
  let r := train_valid_test_split cats v t in
  (0 <=? p)%float = true /\ (p <=? 100)%float = true /\
  assigned r c sp f /\
  (forall sp', assigned r c sp' f -> sp' = sp) /\
  (no_underscore c = true -> key = c ++ re_sub_nohash (name f)).
Proof.
  intros W I F key p sp r.
  destruct (PercentageFacts.percentage_of_range
              (Sha1.digest_int (Sha1.bytes_of_string key))) as [L U].
  split; [exact L | split; [exact U | split; [| split]]].
  - apply (assigned_iff cats v t c vs sp f W I). split; [exact F | reflexivity].
  - intros sp' A. apply (assigned_iff cats v t c vs sp' f W I) in A.
    destruct A as [_ <-]. reflexivity.
  - intros N. apply re_sub_nohash_label. exact N.
Qed.

Lemma C2_one_split_per_item_witness :
  let cats := [("cat", [["a"]; ["b_nohash_7"]])] in
  let f := ["b_nohash_7"] in
  let key := re_sub_nohash ("cat" ++ name f) in
  let p := percentage_of (Sha1.digest_int (Sha1.bytes_of_string key)) in
  let sp := if (p <? 15 + 0)%float
            then if (p <? 0)%float then Testing else Validation
            else Training in
  let r := train_valid_test_split cats 15 0 in
  (0 <=? p)%float = true /\ (p <=? 100)%float = true /\
  assigned r "cat" sp f /\
  (forall sp', assigned r "cat" sp' f -> sp' = sp) /\
  (no_underscore "cat" = true -> key = "cat" ++ re_sub_nohash (name f)).
Proof.
  exact (C2_one_split_per_item
           [("cat", [["a"]; ["b_nohash_7"]])] 15 0 "cat"
           [["a"]; ["b_nohash_7"]] ["b_nohash_7"]
           (wf_singleton _ _) (or_introl eq_refl)
           (or_intror (or_introl eq_refl))).
Defined.

(** C2 as worded fails: for the item [h_nohash_2] of the category [e_nohas]
    the procedure of the specification hashes [e_nohash] and answers
    validation; the source hashes [e] and puts the item in training. *)
Lemma C2_suffix_stripped_after_concatenation :
  Spec.split_of "e_nohas" 15 0 ["h_nohash_2"] = Validation /\
  train_valid_test_split [("e_nohas", [["h_nohash_2"]])] 15 0 =
  [("e_nohas",
    [(Training, [["h_nohash_2"]]); (Validation, []); (Testing, [])])].
Proof. split; vm_compute; reflexivity. Qed.

(** C10.  With thresholds whose sum is above [100], the training list of
    every category is empty and every item is in the validation list or in
    the testing list. *)
Theorem C10_no_training_above_hundred
    (cats : dict string (list Path)) (v t : float) (c : string)
    (vs : list Path) :
  wf cats -> (100 <? v + t)%float = true -> In (c, vs) cats ->
  let r := train_valid_test_split cats v t in
  (exists d, getitem r c = Ok d /\ getitem d Training = Ok []) /\
  (forall f, In f vs -> assigned r c Validation f \/ assigned r c Testing f) /\
  (forall f, ~ assigned r c Training f).
Proof.
  intros W H I r.
  pose proof (fun f => split_of_not_training c v t f H) as N.
  split; [| split].
  - exists (category_result c v t vs). split.
    + apply train_valid_test_split_getitem; assumption.
    + rewrite getitem_category_result. f_equal.
      apply selected_none. intros f _. apply N.
  - intros f F.
    destruct (split_of c v t f) eqn:E.
    + exfalso. apply (N f E).
    + left. apply (assigned_iff cats v t c vs Validation f W I). auto.
    + right. apply (assigned_iff cats v t c vs Testing f W I). auto.
  - intros f A. apply (assigned_iff cats v t c vs Training f W I) in A.
    destruct A as [_ E]. apply (N f E).
Qed.

Lemma C10_no_training_above_hundred_witness :
  let cats := [("cat", [["a"]; ["b"]])] in
  let r := train_valid_test_split cats 60 50 in
  (exists d, getitem r "cat" = Ok d /\ getitem d Training = Ok []) /\
  (forall f, In f [["a"]; ["b"]] ->
     assigned r "cat" Validation f \/ assigned r "cat" Testing f) /\
  (forall f, ~ assigned r "cat" Training f).
Proof.
  intros cats r.
  apply (C10_no_training_above_hundred cats 60 50 "cat" [["a"]; ["b"]]).
  - apply wf_singleton.
  - reflexivity.
  - left. reflexivity.
Defined.

(** ** The proportional indexer *)

(** C3, within the range where the floats carry it.  For a dataset length
    from [0] to [2^50] and three finite weights that are not negative and
    not all zero, the constructor succeeds, each count is the integer part
    of the float [weight / sum * length] the source computes, and the counts
    sum to at most the length.  [SplitIndexer(100, 0.7, 0.2, 0.1)] has the
    counts [(70, 20, 10)]. *)
Theorem C3_counts_are_floors (n : Z) (w1 w2 w3 : float) :
  0 <= n <= 2 ^ 50 ->
  weight w1 -> weight w2 -> weight w3 -> not_all_zero w1 w2 w3 ->
  let s := sum3 w1 w2 w3 in
  (exists self,
     init n w1 w2 w3 = Ok self /\
     total_num self = n /\
     is_floor (training_num self) (w1 / s * Np.float_of_Z n) /\
     is_floor (validation_num self) (w2 / s * Np.float_of_Z n) /\
     is_floor (testing_num self) (w3 / s * Np.float_of_Z n) /\
     training_num self + validation_num self + testing_num self <= n) /\
  (exists self,
     init 100 default_training default_validation default_testing = Ok self /\
     counts self = (70, 20, 10)).
Proof.
  intros Hn W1 W2 W3 P s. split.
  - destruct (init_Ok n w1 w2 w3) as [self E]. exists self.
    split; [exact E |].
    apply (init_contract n w1 w2 w3 self Hn W1 W2 W3 P E).
  - eexists. split; vm_compute; reflexivity.
Qed.

Lemma C3_counts_are_floors_witness :
  exists self,
    init 10 default_training default_validation default_testing = Ok self /\
    training_num self + validation_num self + testing_num self <= 10.
Proof.
  destruct (C3_counts_are_floors 10 default_training default_validation
              default_testing)
    as [(self & E & _ & _ & _ & _ & S) _].
  - lia.
  - split; reflexivity.
  - split; reflexivity.
  - split; reflexivity.
  - reflexivity.
  - exists self. split; [exact E | exact S].
Defined.

(** C3 as worded fails for a large length: with the default weights and a
    length of [2^60] the three counts sum to [2^60 + 144]. *)
Lemma C3_counts_exceed_large_length :
  exists self,
    init (2 ^ 60) default_training default_validation default_testing
    = Ok self /\
    training_num self + validation_num self + testing_num self = 2 ^ 60 + 144.
Proof. eexists. split; vm_compute; reflexivity. Qed.

(** C6, as the source has it.  With three zero weights the constructor
    raises nothing: numpy's division gives NaN for each proportion, and the
    cast of NaN gives the least 64-bit integer for each count. *)
Theorem C6_zero_weights_give_nan (n : Z) :
  exists self,
    init n 0 0 0 = Ok self /\
    normalised_split self = (nan, nan, nan) /\
    counts self = (Np.int64_min, Np.int64_min, Np.int64_min).
Proof.
  destruct (init_Ok n 0 0 0) as [self E]. exists self. split; [exact E |].
  destruct (init_fields n 0 0 0 self E) as (_ & Nrm & C).
  cbv zeta in Nrm, C.
  change (sum3 0 0 0) with 0%float in Nrm, C.
  change (0 / 0)%float with nan in Nrm, C.
  split; [exact Nrm |]. rewrite C. unfold unnormalised. cbn [fst snd].
  assert (M : Prim2SF (nan * Np.float_of_Z n) = S754_nan).
  { rewrite FloatAxioms.mul_spec. reflexivity. }
  assert (F : Np.astype_int (Np.floor (nan * Np.float_of_Z n)) = Np.int64_min).
  { unfold Np.floor. rewrite M. unfold Np.astype_int. rewrite M. reflexivity. }
  rewrite F. reflexivity.
Qed.

(** C6 as worded fails: the constructor returns an indexer for three zero
    weights, it does not raise [ZeroDivisionError]. *)
Lemma C6_zero_weights_do_not_raise :
  init 5 0 0 0 <> Raise ZeroDivisionError /\
  exists self, init 5 0 0 0 = Ok self.
Proof. split; [discriminate | eexists; reflexivity]. Qed.

Section Generator.
Variable rng : Type.
Variable np_random_seed : Z -> rng.
Variable np_random_permutation : Z -> rng -> list Z * rng.

(** C4.  The call seeds the generator before it draws the permutation: its
    result does not depend on the state it is called in, so a second call
    with the same seed, made in the state the first one left, returns the
    same sequence (or raises the same exception). *)
Theorem C4_same_seed_same_result (self : SplitIndexer) (split : value)
    (seed : Z) (st : rng) :
  let call :=
    select_shuffled_split_indices rng np_random_seed np_random_permutation
      self split seed in
  fst (call (snd (call st))) = fst (call st) /\
  forall st', fst (call st') = fst (call st).
Proof.
  intros call. unfold call, select_shuffled_split_indices.
  destruct (np_random_permutation (total_num self) (np_random_seed seed)).
  split; [reflexivity | intros st'; reflexivity].
Qed.

(** C8, as the source has it.  With a generator that returns permutations
    of [range(n)], the call draws a permutation [p] of
    [range(dataset_length)] after seeding and returns: for [Training] the
    slice [p[:training_num]]; for [Validation] nothing when
    [validation_num] is zero, [p[training_num:]] when [testing_num] is
    zero, and [p[training_num:-testing_num]] otherwise; for [Testing]
    nothing when [testing_num] is zero and [p[-testing_num:]] otherwise;
    these are the entries of [shuffled_indices] for the same draw; for
    counts that are not negative and fit in the length they are the first
    [training_num] entries, the entries up to the last [testing_num], and
    the last [testing_num] entries.  [None] gives [p] itself.  The argument
    is compared with [==], the argument's own [__eq__] first: an object
    that answers equal to a member is served as the first such member; an
    argument that is not [None] and is equal to no member raises
    [NotImplementedError]. *)
Theorem C8_dispatch_on_split (self : SplitIndexer) (seed : Z) (st : rng) :
  permutes np_random_permutation -> 0 <= total_num self ->
  let call split :=
    fst (select_shuffled_split_indices rng np_random_seed
           np_random_permutation self split seed st) in
  let n := total_num self in
  let a := training_num self in
  let b := validation_num self in
  let c := testing_num self in
  let p := fst (np_random_permutation n (np_random_seed seed)) in
  Permutation p (range n) /\
  call (VSplit Training) = Ok (slice p None (Some a)) /\
  call (VSplit Validation) =
  Ok (if b =? 0 then []
      else if c =? 0 then slice p (Some a) None
      else slice p (Some a) (Some (Np.int64_neg c))) /\
  call (VSplit Testing) =
  Ok (if c =? 0 then [] else slice p (Some (Np.int64_neg c)) None) /\
  call VNone = Ok p /\
  (forall sp,
     call (VSplit sp) =
     getitem
       (fst (shuffled_indices rng np_random_permutation self
               (np_random_seed seed))) sp) /\
  (0 <= a -> 0 <= c -> a + c <= n ->
   call (VSplit Training) = Ok (firstn (Z.to_nat a) p) /\
   call (VSplit Validation) =
   Ok (if b =? 0 then []
       else firstn (Z.to_nat (n - a - c)) (skipn (Z.to_nat a) p)) /\
   call (VSplit Testing) = Ok (skipn (Z.to_nat (n - c)) p)) /\
  (forall v, other_value v -> call v = Raise NotImplementedError) /\
  (forall eq,
     call (VObj eq) =
     if eq Training then call (VSplit Training)
     else if eq Validation then call (VSplit Validation)
     else if eq Testing then call (VSplit Testing)
     else Raise NotImplementedError).
Proof.
  intros Hp Hn call n a b c p.
  pose proof (Hp n (np_random_seed seed) Hn) as Perm. fold p in Perm.
  destruct (permutation_facts p n Hn Perm) as [Len _].
  assert (ET : call (VSplit Training) = Ok (select_train_indices self p)).
  { unfold call, p, n, select_shuffled_split_indices.
    destruct (np_random_permutation (total_num self) (np_random_seed seed)).
    reflexivity. }
  assert (EV : call (VSplit Validation)
               = Ok (select_validation_indices self p)).
  { unfold call, p, n, select_shuffled_split_indices.
    destruct (np_random_permutation (total_num self) (np_random_seed seed)).
    reflexivity. }
  assert (EE : call (VSplit Testing) = Ok (select_testing_indices self p)).
  { unfold call, p, n, select_shuffled_split_indices.
    destruct (np_random_permutation (total_num self) (np_random_seed seed)).
    reflexivity. }
  split; [exact Perm |].
  split; [exact ET |]. split; [exact EV |]. split; [exact EE |].
  split; [| split; [| split; [| split]]].
  - unfold call, p, n, select_shuffled_split_indices.
    destruct (np_random_permutation (total_num self) (np_random_seed seed)).
    reflexivity.
  - intros sp. unfold call, n, select_shuffled_split_indices,
      shuffled_indices.
    destruct (np_random_permutation (total_num self) (np_random_seed seed)).
    destruct sp; reflexivity.
  - intros A0 C0 S.
    assert (Hlen : training_num self + testing_num self
                   <= Z.of_nat (length p)) by (unfold a, c in *; lia).
    rewrite ET, EV, EE.
    rewrite (select_train_indices_eq self p A0 C0 Hlen),
      (select_validation_indices_eq self p A0 C0 Hlen),
      (select_testing_indices_eq self p A0 C0 Hlen), Len.
    repeat split.
  - intros v O. unfold call, select_shuffled_split_indices.
    destruct (np_random_permutation (total_num self) (np_random_seed seed)).
    destruct v as [| sp | s | z | eq]; try contradiction; try reflexivity.
    destruct O as (O1 & O2 & O3). cbn [value_eqb is_None fst].
    rewrite O1, O2, O3. reflexivity.
  - intros eq. unfold call, select_shuffled_split_indices.
    destruct (np_random_permutation (total_num self) (np_random_seed seed)).
    cbn [value_eqb is_None fst Split_eqb].
    destruct (eq Training); [reflexivity |].
    destruct (eq Validation); [reflexivity |].
    destruct (eq Testing); reflexivity.
Qed.

(** C7, under the contract and for a length up to [2^50].  The three
    sequences are blocks of the one permutation drawn: the first
    [training_num] entries, then (when [validation_num] is not zero) all the
    entries up to the last [testing_num], then the last [testing_num]
    entries; and they are pairwise disjoint. *)
Theorem C7_blocks_of_one_permutation (n : Z) (w1 w2 w3 : float)
    (self : SplitIndexer) (st : rng) :
  0 <= n <= 2 ^ 50 ->
  weight w1 -> weight w2 -> weight w3 -> not_all_zero w1 w2 w3 ->
  permutes np_random_permutation ->
  init n w1 w2 w3 = Ok self ->
  let p := fst (np_random_permutation n st) in
  let a := training_num self in
  let c := testing_num self in
  let T := firstn (Z.to_nat a) p in
  let V := if validation_num self =? 0 then []
           else firstn (Z.to_nat (n - a - c)) (skipn (Z.to_nat a) p) in
  let E := skipn (Z.to_nat (n - c)) p in
  Permutation p (range n) /\
  0 <= a /\ 0 <= c /\ a + c <= n /\
  fst (shuffled_indices rng np_random_permutation self st) =
  [(Training, T); (Validation, V); (Testing, E)] /\
  length T = Z.to_nat a /\ length E = Z.to_nat c /\
  disjoint T V /\ disjoint T E /\ disjoint V E.
Proof.
  intros Hn W1 W2 W3 P Hp E0 p a c T V E.
  destruct (init_contract_bounds n w1 w2 w3 self Hn W1 W2 W3 P E0)
    as (Tn & A0 & B0 & C0 & S).
  pose proof (Hp n st (proj1 Hn)) as Perm. fold p in Perm.
  destruct (permutation_facts p n (proj1 Hn) Perm) as [Len ND].
  assert (Hlen : training_num self + testing_num self
                 <= Z.of_nat (length p)) by lia.
  pose proof (select_train_indices_eq self p A0 C0 Hlen) as ET.
  pose proof (select_validation_indices_eq self p A0 C0 Hlen) as EV.
  pose proof (select_testing_indices_eq self p A0 C0 Hlen) as EE.
  pose proof (selections_disjoint self p A0 C0 Hlen ND) as D.
  rewrite ET, EV, EE, Len in D. rewrite Len in EV, EE.
  fold a c in ET, EV, EE, D. fold T V E in D.
  split; [exact Perm |].
  split; [exact A0 | split; [exact C0 | split; [unfold a, c; lia |]]].
  split.
  - unfold shuffled_indices. rewrite Tn. fold p.
    destruct (np_random_permutation n st) as [ind st'] eqn:Eq.
    cbn [fst] in *. subst p. rewrite ET, EV, EE. reflexivity.
  - split; [| split; [| exact D]].
    + unfold T. rewrite length_firstn. unfold a in *. lia.
    + unfold E. rewrite length_skipn. unfold c in *. lia.
Qed.

(** C5, as the source has it.  Under the contract and for a length up to
    [2^50]: when [validation_num] is not zero the validation block runs up
    to the testing block, so the three sequences together are the whole
    permutation and no index is left out; when [validation_num] is zero the
    entries between the training block and the testing block are in none of
    the three sequences. *)
Theorem C5_leftover_goes_to_validation (n : Z) (w1 w2 w3 : float)
    (self : SplitIndexer) (st : rng) :
  0 <= n <= 2 ^ 50 ->
  weight w1 -> weight w2 -> weight w3 -> not_all_zero w1 w2 w3 ->
  permutes np_random_permutation ->
  init n w1 w2 w3 = Ok self ->
  let p := fst (np_random_permutation n st) in
  let a := training_num self in
  let c := testing_num self in
  exists T V E,
    fst (shuffled_indices rng np_random_permutation self st) =
    [(Training, T); (Validation, V); (Testing, E)] /\
    (validation_num self <> 0 ->
     (T ++ V ++ E)%list = p /\ Z.of_nat (length V) = n - a - c) /\
    (validation_num self = 0 ->
     V = [] /\
     forall x, In x (firstn (Z.to_nat (n - a - c)) (skipn (Z.to_nat a) p)) ->
       ~ In x T /\ ~ In x V /\ ~ In x E).
Proof.
  intros Hn W1 W2 W3 P Hp E0 p a c.
  destruct (init_contract_bounds n w1 w2 w3 self Hn W1 W2 W3 P E0)
    as (Tn & A0 & B0 & C0 & S).
  pose proof (Hp n st (proj1 Hn)) as Perm. fold p in Perm.
  destruct (permutation_facts p n (proj1 Hn) Perm) as [Len ND].
  assert (Hlen : training_num self + testing_num self
                 <= Z.of_nat (length p)) by lia.
  exists (select_train_indices self p), (select_validation_indices self p),
    (select_testing_indices self p).
  split; [| split].
  - unfold shuffled_indices. rewrite Tn. fold p.
    destruct (np_random_permutation n st) as [ind st'] eqn:Eq.
    cbn [fst] in *. subst p. reflexivity.
  - intros Hv. split.
    + apply selections_cover; assumption.
    + rewrite (select_validation_indices_eq self p A0 C0 Hlen).
      destruct (Z.eqb_spec (validation_num self) 0); [contradiction |].
      rewrite length_firstn, length_skipn. unfold a, c. lia.
  - intros Hv. split.
    + unfold select_validation_indices. rewrite Hv. reflexivity.
    + intros x Hx.
      apply (selections_leftover self p A0 C0 Hlen ND Hv).
      rewrite Len. exact Hx.
Qed.

End Generator.

Lemma C8_dispatch_on_split_witness :
  exists self,
    init 10 default_training default_validation default_testing
    = Ok self /\
    let call split :=
      fst (select_shuffled_split_indices Rotation.rng Rotation.seed
             Rotation.permutation self split 3 0) in
    call (VSplit Training) = Ok [3; 4; 5; 6; 7; 8; 9] /\
    call (VSplit Validation) = Ok [0; 1] /\
    call (VSplit Testing) = Ok [2] /\
    call VNone = Ok [3; 4; 5; 6; 7; 8; 9; 0; 1; 2] /\
    call (VStr "training") = Raise NotImplementedError /\
    call (VInt 0) = Raise NotImplementedError.
Proof.
  eexists. split; [vm_compute; reflexivity |].
  match goal with
  | |- context [select_shuffled_split_indices _ _ _ ?s] => set (self := s)
  end.
  intros call.
  destruct (C8_dispatch_on_split Rotation.rng Rotation.seed
              Rotation.permutation self 3 0 RotationFacts.rotation_permutes)
    as (_ & T & V & E & N & _ & _ & O & _).
  - vm_compute. discriminate.
  - subst call. cbv beta.
    split; [rewrite T; reflexivity |]. split; [rewrite V; reflexivity |].
    split; [rewrite E; reflexivity |]. split; [rewrite N; reflexivity |].
    split; apply O; exact I.
Defined.

(** C8 as worded fails: an object that is no member of [Split] and answers
    equal to every value (as [unittest.mock.ANY] does) is served the
    training slice; the call does not raise [NotImplementedError]. *)
Lemma C8_equal_object_is_served :
  exists self,
    init 10 default_training default_validation default_testing
    = Ok self /\
    fst (select_shuffled_split_indices Rotation.rng Rotation.seed
           Rotation.permutation self (VObj (fun _ => true)) 3 0)
    = Ok [3; 4; 5; 6; 7; 8; 9].
Proof. eexists. split; vm_compute; reflexivity. Qed.

Lemma C7_blocks_of_one_permutation_witness :
  exists self,
    init 10 default_training default_validation default_testing = Ok self /\
    fst (shuffled_indices Rotation.rng Rotation.permutation self 3) =
    [(Training, [3; 4; 5; 6; 7; 8; 9]); (Validation, [0; 1]); (Testing, [2])].
Proof.
  destruct (init_Ok 10 default_training default_validation default_testing)
    as [self E].
  exists self. split; [exact E |].
  destruct (C7_blocks_of_one_permutation Rotation.rng Rotation.permutation
              10 default_training default_validation default_testing self 3)
    as (_ & _ & _ & _ & S & _).
  - lia.
  - split; reflexivity.
  - split; reflexivity.
  - split; reflexivity.
  - reflexivity.
  - exact RotationFacts.rotation_permutes.
  - exact E.
  - rewrite S. vm_compute in E. inversion E. reflexivity.
Defined.

(** C7 as worded fails outside the contract and beyond the lengths the
    floats carry.  With the weights [(1, -0.5, 0.5)] and a length of [10]
    the counts are [(10, -5, 5)], and the training and the testing sequences
    share the last five entries of the permutation.  With the weights
    [(1, 0, 4)] and a length of [2^54] the training count and the testing
    count together exceed the length by one, so the first [training_num]
    entries and the last [testing_num] entries of any permutation share an
    entry. *)
Lemma C7_blocks_overlap :
  (exists self,
     init 10 1 (-0.5) 0.5 = Ok self /\
     counts self = (10, -5, 5) /\
     fst (shuffled_indices Rotation.rng Rotation.permutation self 0) =
     [(Training, [0; 1; 2; 3; 4; 5; 6; 7; 8; 9]); (Validation, []);
      (Testing, [5; 6; 7; 8; 9])]) /\
  (exists self,
     init (2 ^ 54) 1 0 4 = Ok self /\
     training_num self + testing_num self = 2 ^ 54 + 1).
Proof.
  split; eexists.
  - split; [| split]; vm_compute; reflexivity.
  - split; vm_compute; reflexivity.
Qed.

Lemma C5_leftover_goes_to_validation_witness :
  exists self T V E,
    init 11 default_training default_validation default_testing = Ok self /\
    fst (shuffled_indices Rotation.rng Rotation.permutation self 0) =
    [(Training, T); (Validation, V); (Testing, E)] /\
    (T ++ V ++ E)%list = fst (Rotation.permutation 11 0).
Proof.
  destruct (init_Ok 11 default_training default_validation default_testing)
    as [self E0].
  destruct (C5_leftover_goes_to_validation Rotation.rng Rotation.permutation
              11 default_training default_validation default_testing self 0)
    as (T & V & E & S & Cover & _).
  - lia.
  - split; reflexivity.
  - split; reflexivity.
  - split; reflexivity.
  - reflexivity.
  - exact RotationFacts.rotation_permutes.
  - exact E0.
  - exists self, T, V, E. split; [exact E0 | split; [exact S |]].
    apply Cover. vm_compute in E0. inversion E0. discriminate.
Defined.

(** C5 as worded fails: for a length of [11] and the default weights the
    counts are [(7, 2, 1)], and the entry at position [9], which is beyond
    the first [7 + 2] and before the last one, is in the validation
    sequence. *)
Lemma C5_leftover_index_is_assigned :
  exists self,
    init 11 default_training default_validation default_testing = Ok self /\
    counts self = (7, 2, 1) /\
    fst (Rotation.permutation 11 0) = [0; 1; 2; 3; 4; 5; 6; 7; 8; 9; 10] /\
    fst (shuffled_indices Rotation.rng Rotation.permutation self 0) =
    [(Training, [0; 1; 2; 3; 4; 5; 6]); (Validation, [7; 8; 9]);
     (Testing, [10])].
Proof. eexists. repeat split; vm_compute; reflexivity. Qed.

(** ** The projection *)

(** C9.  For a well-formed mapping: when every category binds the split,
    the result has the keys of the input in their order, each bound to the
    category's sequence for the split; when some category does not bind the
    split, the call raises [KeyError]. *)
Theorem C9_projection_or_KeyError {K A : Type} `{Key K}
    (d : dict K (dict Split (list A))) (split : Split) :
  wf d ->
  ((forall k v, In (k, v) d -> exists items, getitem v split = Ok items) ->
   exists r,
     select_split d split = Ok r /\ keys r = keys d /\
     forall k v items,
       In (k, v) d -> getitem v split = Ok items -> getitem r k = Ok items) /\
  ((exists k v, In (k, v) d /\ getitem v split = Raise KeyError) ->
   select_split d split = Raise KeyError).
Proof.
  intros W. split.
  - intros Hall.
    exists (map (fun kv => (fst kv, items_of split (snd kv))) d).
    split; [| split].
    + apply select_split_ok; [exact W |].
      intros [k v] I. apply (Hall k v I).
    + unfold keys. rewrite map_map. reflexivity.
    + intros k v items I G. apply getitem_In.
      * unfold wf, keys. rewrite map_map. exact W.
      * apply in_map_iff. exists (k, v). split; [| exact I].
        cbn [fst snd]. unfold items_of. rewrite G. reflexivity.
  - intros (k & v & I & G). apply select_split_keyerror.
    exists (k, v). split; [exact I | exact G].
Qed.

Lemma C9_projection_or_KeyError_witness :
  let d := [("a", [(Training, [1; 2]); (Validation, []); (Testing, [3])]);
            ("b", [(Training, []); (Validation, [4]); (Testing, [])])] in
  (exists r, select_split d Training = Ok r /\ keys r = ["a"; "b"] /\
     getitem r "a" = Ok [1; 2] /\ getitem r "b" = Ok []) /\
  select_split [("a", [(Training, [1])]); ("b", [(Validation, [2])])] Training
  = Raise KeyError.
Proof.
  intros d. split.
  - destruct (C9_projection_or_KeyError d Training) as [Ok_ _].
    + repeat constructor; simpl; intuition discriminate.
    + destruct Ok_ as (r & E & Ks & G).
      * intros k v [E | [E | []]]; inversion E; subst; eexists; reflexivity.
      * exists r. split; [exact E | split; [exact Ks | split]].
        -- apply (G "a" [(Training, [1; 2]); (Validation, []); (Testing, [3])]);
             [left; reflexivity | reflexivity].
        -- apply (G "b" [(Training, []); (Validation, [4]); (Testing, [])]);
             [right; left; reflexivity | reflexivity].
  - apply (C9_projection_or_KeyError
             [("a", [(Training, [1])]); ("b", [(Validation, [2])])] Training).
    + repeat constructor; simpl; intuition discriminate.
    + exists "b", [(Validation, [2])]. split; [right; left |]; reflexivity.
Defined.

End Claims.

(** * Further properties of the module *)

Module Extras.
Import Splitting Contract.
Import B64 B64Facts F64 OrderFacts PercentageFacts.
Import DictFacts HashFacts SliceFacts IndexerFacts InitFacts SelectFacts.
Local Open Scope string_scope.
Local Open Scope Z_scope.

(** ** The model of SHA-1 on the test vectors of FIPS 180 *)

Example sha1_empty :
  Sha1.digest_int (Sha1.bytes_of_string "") =
  0xda39a3ee5e6b4b0d3255bfef95601890afd80709.
Proof. vm_compute. reflexivity. Qed.

Example sha1_abc :
  Sha1.digest_int (Sha1.bytes_of_string "abc") =
  0xa9993e364706816aba3e25717850c26c9cd0d89d.
Proof. vm_compute. reflexivity. Qed.

Example sha1_two_blocks :
  Sha1.digest_int
    (Sha1.bytes_of_string
       "abcdbcdecdefdefgefghfghighijhijkijkljklmklmnlmnomnopnopq") =
  0x84983e441c3bd26ebaae4aa1f95129e5e54670f1.
Proof. vm_compute. reflexivity. Qed.

(** The pseudo-percentage of the largest reduced digest is [100.0]: the
    range is closed at [100]. *)
Example percentage_of_maxsize : percentage_of sys_maxsize = 100%float.
Proof. vm_compute. reflexivity. Qed.

(** ** The content-hash splitter as a whole *)

Lemma singleton_wf {K V : Type} (k : K) (x : V) : NoDup (map fst [(k, x)]).
Proof. repeat constructor. intros []. Qed.

Lemma setitem_new {K V : Type} `{Key K} (d : dict K V) (k : K) (x : V) :
  ~ In k (keys d) -> setitem d k x = (d ++ [(k, x)])%list.
Proof.
  induction d as [| [k' v'] d IH]; cbn [setitem keys map fst In app];
    intros N.
  - reflexivity.
  - rewrite key_eqb_neq by (intros ->; tauto).
    unfold keys in IH. rewrite IH by tauto. reflexivity.
Qed.

Lemma fold_split_category (v t : float) (cats : dict string (list Path)) :
  forall r : dict string (dict Split (list Path)),
    NoDup (keys r ++ keys cats) ->
    fold_left (split_category v t) cats r =
    (r ++ map (fun kv => (fst kv, category_result (fst kv) v t (snd kv)))
           cats)%list.
Proof.
  induction cats as [| [c vs] cats IH]; intros r ND;
    cbn [fold_left map fst snd].
  - rewrite app_nil_r. reflexivity.
  - assert (Nc : ~ In c (keys r)).
    { cbn [keys map fst] in ND. apply NoDup_remove_2 in ND.
      intros I. apply ND. apply in_or_app. left. exact I. }
    rewrite split_category_eq, (setitem_new r c _ Nc), IH.
    + rewrite <- app_assoc. reflexivity.
    + unfold keys in *. rewrite map_app, <- app_assoc. exact ND.
Qed.

(** The result, category by category. *)
Lemma train_valid_test_split_map (cats : dict string (list Path))
    (v t : float) :
  wf cats ->
  train_valid_test_split cats v t =
  map (fun kv => (fst kv, category_result (fst kv) v t (snd kv))) cats.
Proof.
  intros W. unfold train_valid_test_split.
  apply (fold_split_category v t cats []). exact W.
Qed.

Lemma split_of_cases (c : string) (v t : float) (f : Path) :
  Split_eqb (split_of c v t f) Training
  || Split_eqb (split_of c v t f) Validation
  || Split_eqb (split_of c v t f) Testing = true.
Proof. destruct (split_of c v t f); reflexivity. Qed.

Lemma selected_Permutation (c : string) (v t : float) (vs : list Path) :
  Permutation
    (selected c v t Training vs ++ selected c v t Validation vs
       ++ selected c v t Testing vs)%list vs.
Proof.
  unfold selected. induction vs as [| f vs IH]; [constructor |].
  cbn [filter]. destruct (split_of c v t f); cbn [Split_eqb app].
  - constructor. exact IH.
  - apply Permutation_sym. eapply Permutation_trans;
      [| apply Permutation_middle].
    constructor. apply Permutation_sym. exact IH.
  - apply Permutation_sym.
    rewrite app_assoc. eapply Permutation_trans;
      [| apply Permutation_middle].
    rewrite <- app_assoc. constructor. apply Permutation_sym. exact IH.
Qed.

(** X1.  For a dict of categories, the result has the keys of the input in
    their order; each category is bound to the three splits, in the order
    training, validation, testing; each of the three lists holds the items
    of the category for which the loop body takes that branch, in their
    order; and the three lists together are a permutation of the items of
    the category: no item is lost and none is added. *)
Theorem X1_result_partitions_each_category
    (cats : dict string (list Path)) (v t : float) :
  wf cats ->
  let r := train_valid_test_split cats v t in
  keys r = keys cats /\
  forall c vs, In (c, vs) cats ->
    getitem r c =
    Ok [(Training, filter (fun f => Split_eqb (split_of c v t f) Training) vs);
        (Validation,
         filter (fun f => Split_eqb (split_of c v t f) Validation) vs);
        (Testing, filter (fun f => Split_eqb (split_of c v t f) Testing) vs)]
    /\ Permutation
         (filter (fun f => Split_eqb (split_of c v t f) Training) vs
          ++ filter (fun f => Split_eqb (split_of c v t f) Validation) vs
          ++ filter (fun f => Split_eqb (split_of c v t f) Testing) vs)%list
         vs.
Proof.
  intros W r. split.
  - unfold r. rewrite (train_valid_test_split_map cats v t W).
    unfold keys. rewrite map_map. reflexivity.
  - intros c vs I. split.
    + apply (train_valid_test_split_getitem cats v t c vs W I).
    + apply selected_Permutation.
Qed.

Lemma X1_result_partitions_each_category_witness :
  let cats := [("cat", [["a"]; ["b_nohash_1"]]); ("dog", [])] in
  let r := train_valid_test_split cats 15 0 in
  keys r = ["cat"; "dog"] /\
  getitem r "dog" = Ok [(Training, []); (Validation, []); (Testing, [])].
Proof.
  intros cats r.
  assert (W : wf cats) by (repeat constructor; simpl; intuition discriminate).
  destruct (X1_result_partitions_each_category cats 15 0 W) as [Ks G].
  split; [exact Ks |].
  destruct (G "dog" [] (or_intror (or_introl eq_refl))) as [E _]. exact E.
Defined.

(** X2.  Projecting the result of [train_valid_test_split] on a split never
    raises: it binds every category, in the order of the input, to the
    items of the category for which the loop body takes the branch of that
    split, in their order. *)
Theorem X2_select_split_of_result
    (cats : dict string (list Path)) (v t : float) (sp : Split) :
  wf cats ->
  select_split (train_valid_test_split cats v t) sp =
  Ok (map (fun kv =>
             (fst kv,
              filter (fun f => Split_eqb (split_of (fst kv) v t f) sp)
                (snd kv)))
        cats).
Proof.
  intros W. rewrite (train_valid_test_split_map cats v t W).
  rewrite select_split_ok.
  - rewrite map_map. f_equal. apply map_ext. intros [c vs]. cbn [fst snd].
    unfold items_of. rewrite getitem_category_result. reflexivity.
  - unfold wf, keys. rewrite map_map. exact W.
  - intros kv I. apply in_map_iff in I. destruct I as ([c vs] & <- & _).
    cbn [fst snd]. eexists. apply getitem_category_result.
Qed.

Lemma X2_select_split_of_result_witness :
  let cats := [("cat", [["a"]; ["b"]; ["c"]; ["d"]; ["e"]; ["f"]]);
               ("dog", [])] in
  select_split (train_valid_test_split cats 30 20) Validation
  = Ok [("cat", [["a"]; ["c"]; ["e"]]); ("dog", [])] /\
  select_split (train_valid_test_split cats 30 20) Testing
  = Ok [("cat", [["d"]]); ("dog", [])] /\
  select_split (train_valid_test_split cats 30 20) Training
  = Ok [("cat", [["b"]; ["f"]]); ("dog", [])].
Proof.
  intros cats.
  assert (W : wf cats) by (repeat constructor; simpl; intuition discriminate).
  rewrite !(X2_select_split_of_result cats 30 20 _ W).
  split; [| split]; vm_compute; reflexivity.
Defined.

Lemma percentage_hash_nn (c : string) (f : Path) :
  nn (Prim2SF (percentage_hash c f)).
Proof. unfold percentage_hash. apply percentage_of_bounds. Qed.

Lemma filter_all {A : Type} (p : A -> bool) (l : list A) :
  (forall x, In x l -> p x = true) -> filter p l = l.
Proof.
  induction l as [| x l IH]; intros H; [reflexivity |].
  cbn [filter]. rewrite (H x (or_introl eq_refl)). f_equal.
  apply IH. intros y I. apply H. right. exact I.
Qed.

Lemma filter_none {A : Type} (p : A -> bool) (l : list A) :
  (forall x, In x l -> p x = false) -> filter p l = [].
Proof.
  induction l as [| x l IH]; intros H; [reflexivity |].
  cbn [filter]. rewrite (H x (or_introl eq_refl)).
  apply IH. intros y I. apply H. right. exact I.
Qed.

(** X3.  A threshold that is not above zero selects nothing.  With a
    testing threshold that is not positive (the default is [0]) the testing
    list of every category is empty; with thresholds whose sum is not
    positive every item is put in training. *)
Theorem X3_thresholds_not_positive
    (cats : dict string (list Path)) (v t : float) (c : string)
    (vs : list Path) :
  wf cats -> In (c, vs) cats ->
  let r := train_valid_test_split cats v t in
  ((0 <? t)%float = false ->
   exists T V,
     getitem r c = Ok [(Training, T); (Validation, V); (Testing, [])]) /\
  ((0 <? v + t)%float = false ->
   getitem r c = Ok [(Training, vs); (Validation, []); (Testing, [])]).
Proof.
  intros W I r. unfold r.
  rewrite (train_valid_test_split_getitem cats v t c vs W I).
  unfold category_result, selected. split.
  - intros Ht.
    exists (filter (fun f => Split_eqb (split_of c v t f) Training) vs),
      (filter (fun f => Split_eqb (split_of c v t f) Validation) vs).
    rewrite (filter_none (fun f => Split_eqb (split_of c v t f) Testing) vs);
      [reflexivity |].
    intros f _. unfold split_of.
    rewrite (ltb_nonpos _ t (percentage_hash_nn c f) Ht).
    destruct (percentage_hash c f <? v + t)%float; reflexivity.
  - intros Hs.
    assert (E : forall f, split_of c v t f = Training).
    { intros f. unfold split_of.
      rewrite (ltb_nonpos _ (v + t) (percentage_hash_nn c f) Hs).
      reflexivity. }
    rewrite (filter_all _ vs), !(filter_none _ vs);
      try reflexivity; intros f _; rewrite E; reflexivity.
Qed.

Lemma X3_thresholds_not_positive_witness :
  let r := train_valid_test_split [("cat", [["a"]; ["b"]])] 0 0 in
  ((0 <? 0)%float = false ->
   exists T V,
     getitem r "cat" = Ok [(Training, T); (Validation, V); (Testing, [])]) /\
  ((0 <? 0 + 0)%float = false ->
   getitem r "cat" =
   Ok [(Training, [["a"]; ["b"]]); (Validation, []); (Testing, [])]).
Proof.
  exact (X3_thresholds_not_positive [("cat", [["a"]; ["b"]])] 0 0 "cat"
           [["a"]; ["b"]] (singleton_wf _ _) (or_introl eq_refl)).
Defined.

Lemma split_of_decide (c : string) (v t : float) (f : Path) :
  (0 <=? v)%float = true ->
  split_of c v t f = Spec.decide (percentage_hash c f) v t.
Proof.
  intros Hv. unfold split_of, Spec.decide. cbv zeta.
  destruct (percentage_hash c f <? t)%float eqn:Et.
  - rewrite (ltb_add _ v t (percentage_hash_nn c f) Hv Et). reflexivity.
  - destruct (percentage_hash c f <? v + t)%float; reflexivity.
Qed.

(** X4.  With a validation threshold that is not negative, the nested
    tests of the loop body decide as the sequence: testing if the
    pseudo-percentage is below the testing threshold; if not, validation if
    it is below the sum of the thresholds; if not, training. *)
Theorem X4_tests_in_sequence
    (cats : dict string (list Path)) (v t : float) (c : string)
    (vs : list Path) (f : Path) (sp : Split) :
  wf cats -> In (c, vs) cats -> (0 <=? v)%float = true ->
  let p := percentage_hash c f in
  assigned (train_valid_test_split cats v t) c sp f <->
  In f vs /\
  (if (p <? t)%float then Testing
   else if (p <? v + t)%float then Validation else Training) = sp.
Proof.
  intros W I Hv p.
  rewrite (assigned_iff cats v t c vs sp f W I).
  rewrite (split_of_decide c v t f Hv). reflexivity.
Qed.

Lemma X4_tests_in_sequence_witness :
  let cats := [("cat", [["a"]; ["b"]])] in
  let p := percentage_hash "cat" ["a"] in
  assigned (train_valid_test_split cats 15 10) "cat" Testing ["a"] <->
  In ["a"] [["a"]; ["b"]] /\
  (if (p <? 10)%float then Testing
   else if (p <? 15 + 10)%float then Validation else Training) = Testing.
Proof.
  exact (X4_tests_in_sequence [("cat", [["a"]; ["b"]])] 15 10 "cat"
           [["a"]; ["b"]] ["a"] Testing
           (singleton_wf _ _) (or_introl eq_refl) eq_refl).
Defined.

(** X11.  Thresholds above [100] select everything.  With a testing
    threshold above [100] and a validation threshold that is not negative,
    every item of every category is put in testing; with a testing
    threshold that is not positive and a sum of thresholds above [100],
    every item is put in validation. *)
Theorem X11_thresholds_above_hundred
    (cats : dict string (list Path)) (v t : float) (c : string)
    (vs : list Path) :
  wf cats -> In (c, vs) cats ->
  let r := train_valid_test_split cats v t in
  ((100 <? t)%float = true -> (0 <=? v)%float = true ->
   getitem r c = Ok [(Training, []); (Validation, []); (Testing, vs)]) /\
  ((100 <? v + t)%float = true -> (0 <? t)%float = false ->
   getitem r c = Ok [(Training, []); (Validation, vs); (Testing, [])]).
Proof.
  intros W I r. unfold r.
  rewrite (train_valid_test_split_getitem cats v t c vs W I).
  unfold category_result, selected. split.
  - intros Ht Hv.
    assert (E : forall f, split_of c v t f = Testing).
    { intros f. unfold split_of. cbv zeta.
      assert (B : (percentage_hash c f <? t)%float = true)
        by (apply percentage_of_below; exact Ht).
      rewrite (ltb_add _ v t (percentage_hash_nn c f) Hv B), B.
      reflexivity. }
    rewrite (filter_all (fun f => Split_eqb (split_of c v t f) Testing) vs),
      !(filter_none _ vs);
      try reflexivity; intros f _; rewrite E; reflexivity.
  - intros Hs Ht.
    assert (E : forall f, split_of c v t f = Validation).
    { intros f. unfold split_of. cbv zeta.
      rewrite (ltb_nonpos _ t (percentage_hash_nn c f) Ht).
      unfold percentage_hash. rewrite (percentage_of_below _ _ Hs).
      reflexivity. }
    rewrite (filter_all (fun f => Split_eqb (split_of c v t f) Validation) vs),
      !(filter_none _ vs);
      try reflexivity; intros f _; rewrite E; reflexivity.
Qed.

Lemma X11_thresholds_above_hundred_witness :
  let r := train_valid_test_split [("cat", [["a"]; ["b"]])] 0 101 in
  ((100 <? 101)%float = true -> (0 <=? 0)%float = true ->
   getitem r "cat" =
   Ok [(Training, []); (Validation, []); (Testing, [["a"]; ["b"]])]) /\
  ((100 <? 0 + 101)%float = true -> (0 <? 101)%float = false ->
   getitem r "cat" =
   Ok [(Training, []); (Validation, [["a"]; ["b"]]); (Testing, [])]).
Proof.
  exact (X11_thresholds_above_hundred [("cat", [["a"]; ["b"]])] 0 101 "cat"
           [["a"]; ["b"]] (singleton_wf _ _) (or_introl eq_refl)).
Defined.

(** ** The pattern *)












(** ** The selections of an indexer in any state *)

Lemma slice_block {A : Type} (l : list A) (lo hi : option Z) :
  block (slice l lo hi) l.
Proof.
  unfold slice, block.
  set (a := Z.to_nat (slice_bound (Z.of_nat (length l)) 0 lo)).
  set (k := Z.to_nat _).
  exists (firstn a l), (skipn k (skipn a l)).
  rewrite (firstn_skipn k (skipn a l)), (firstn_skipn a l). reflexivity.
Qed.

Lemma nil_block {A : Type} (l : list A) : block [] l.
Proof. exists [], l. reflexivity. Qed.

Lemma block_In {A : Type} (b l : list A) (x : A) :
  block b l -> In x b -> In x l.
Proof.
  intros (pre & post & ->) I.
  apply in_or_app. right. apply in_or_app. left. exact I.
Qed.

(** X6.  Whatever the counts of the indexer are (negative or above the
    length included) and whatever the sequence is, each of the three
    selections is a run of consecutive entries of the sequence, in their
    order: a selection never reorders, repeats or invents an entry. *)
Theorem X6_selections_are_blocks {A : Type} (self : SplitIndexer)
    (ind : list A) :
  block (select_train_indices self ind) ind /\
  block (select_validation_indices self ind) ind /\
  block (select_testing_indices self ind) ind.
Proof.
  unfold select_train_indices, select_validation_indices,
    select_testing_indices.
  split; [apply slice_block | split].
  - destruct (validation_num self =? 0); [apply nil_block |].
    destruct (testing_num self =? 0); apply slice_block.
  - destruct (testing_num self =? 0); [apply nil_block | apply slice_block].
Qed.

Lemma slice_bound_range (len d : Z) (b : option Z) :
  0 <= d <= len -> 0 <= slice_bound len d b <= len.
Proof.
  intros H. destruct b as [i |]; cbn [slice_bound]; [| exact H].
  destruct (Z.ltb_spec i 0);
    repeat match goal with
           | |- context [Z.ltb ?x ?y] => destruct (Z.ltb_spec x y)
           end; lia.
Qed.

Lemma length_slice {A : Type} (l : list A) (lo hi : option Z) :
  let len := Z.of_nat (length l) in
  Z.of_nat (length (slice l lo hi)) =
  Z.max 0 (slice_bound len len hi - slice_bound len 0 lo).
Proof.
  intros len. unfold slice. fold len.
  assert (Hl : 0 <= len) by (unfold len; lia).
  pose proof (slice_bound_range len 0 lo ltac:(lia)) as Ha.
  pose proof (slice_bound_range len len hi ltac:(lia)) as Hb.
  rewrite length_firstn, length_skipn. unfold len in *. lia.
Qed.

(** X12.  For counts that are not negative and a sequence of any length
    (not only one of the length the indexer was built for), the training
    selection has [min(training_num, len)] entries, the testing selection
    has [min(testing_num, len)] entries, and the validation selection, when
    [validation_num] is not zero, has the entries that remain between the
    two, if any: the counts are clamped to the sequence, nothing is
    raised. *)
Theorem X12_selection_lengths {A : Type} (self : SplitIndexer)
    (ind : list A) :
  0 <= training_num self -> 0 <= testing_num self ->
  let len := Z.of_nat (length ind) in
  let a := Z.min (training_num self) len in
  let c := Z.min (testing_num self) len in
  Z.of_nat (length (select_train_indices self ind)) = a /\
  Z.of_nat (length (select_testing_indices self ind)) = c /\
  Z.of_nat (length (select_validation_indices self ind)) =
  (if validation_num self =? 0 then 0 else Z.max 0 (len - c - a)).
Proof.
  intros Ha Hc len a c.
  assert (Hl : 0 <= len) by (unfold len; lia).
  assert (Hneg : Np.int64_neg (testing_num self) = - testing_num self).
  { unfold Np.int64_neg, Np.int64_min.
    destruct (Z.eqb_spec (testing_num self) (- 2 ^ 63)); lia. }
  unfold select_train_indices, select_validation_indices,
    select_testing_indices.
  split; [| split].
  - rewrite length_slice, slice_bound_some. cbn [slice_bound]. fold len.
    destruct (Z.ltb_spec (training_num self) 0); unfold a; lia.
  - destruct (Z.eqb_spec (testing_num self) 0) as [E | E].
    + cbn [length]. unfold c. lia.
    + rewrite length_slice, slice_bound_some, Hneg. cbn [slice_bound].
      fold len.
      destruct (Z.ltb_spec (- testing_num self) 0); unfold c; lia.
  - destruct (Z.eqb_spec (validation_num self) 0) as [Ev | Ev];
      [reflexivity |].
    destruct (Z.eqb_spec (testing_num self) 0) as [E | E].
    + rewrite length_slice, slice_bound_some. cbn [slice_bound]. fold len.
      destruct (Z.ltb_spec (training_num self) 0); unfold a, c; lia.
    + rewrite length_slice, !slice_bound_some, Hneg. fold len.
      destruct (Z.ltb_spec (training_num self) 0);
        destruct (Z.ltb_spec (- testing_num self) 0); unfold a, c; lia.
Qed.

Lemma X12_selection_lengths_witness :
  exists self,
    init 100 default_training default_validation default_testing
    = Ok self /\
    Z.of_nat (length (select_train_indices self [1; 2; 3])) = 3 /\
    Z.of_nat (length (select_testing_indices self [1; 2; 3])) = 3 /\
    Z.of_nat (length (select_validation_indices self [1; 2; 3])) = 0.
Proof.
  eexists. split; [vm_compute; reflexivity |].
  match goal with
  | |- context [select_train_indices ?s] => set (self := s)
  end.
  exact (X12_selection_lengths self [1; 2; 3]
           ltac:(vm_compute; discriminate) ltac:(vm_compute; discriminate)).
Defined.

(** With three zero weights every count is the least 64-bit integer. *)
Lemma zero_weights_counts (n : Z) (self : SplitIndexer) :
  init n 0 0 0 = Ok self ->
  total_num self = n /\
  counts self = (Np.int64_min, Np.int64_min, Np.int64_min).
Proof.
  intros E. destruct (init_fields n 0 0 0 self E) as (T & _ & C).
  split; [exact T |]. cbv zeta in C.
  change (sum3 0 0 0) with 0%float in C.
  change (0 / 0)%float with nan in C.
  rewrite C. unfold unnormalised. cbn [fst snd].
  assert (M : Prim2SF (nan * Np.float_of_Z n) = S754_nan).
  { rewrite FloatAxioms.mul_spec. reflexivity. }
  assert (F : Np.astype_int (Np.floor (nan * Np.float_of_Z n)) = Np.int64_min).
  { unfold Np.floor. rewrite M. unfold Np.astype_int. rewrite M. reflexivity. }
  rewrite F. reflexivity.
Qed.

(** X13.  An indexer built with three zero weights (its counts are the
    cast of NaN, the least 64-bit integer on x86-64) selects nothing for
    training and validation and the whole sequence for testing, for any
    sequence of fewer than [2^63] entries: the bound [-testing_num] wraps
    around to the least integer, and the slices clamp it to the start. *)
Theorem X13_zero_weights_select_all_for_testing {A : Type} (n : Z)
    (self : SplitIndexer) (ind : list A) :
  init n 0 0 0 = Ok self ->
  Z.of_nat (length ind) < 2 ^ 63 ->
  select_train_indices self ind = [] /\
  select_validation_indices self ind = [] /\
  select_testing_indices self ind = ind.
Proof.
  intros E Hl. destruct (zero_weights_counts n self E) as (_ & C).
  pose proof (f_equal (fun x => fst (fst x)) C) as Ca.
  pose proof (f_equal (fun x => snd (fst x)) C) as Cb.
  pose proof (f_equal snd C) as Cc.
  cbn [counts fst snd] in Ca, Cb, Cc.
  unfold select_train_indices, select_validation_indices,
    select_testing_indices.
  rewrite Ca, Cb, Cc.
  change (Np.int64_min =? 0) with false.
  change (Np.int64_neg Np.int64_min) with Np.int64_min. cbv iota.
  assert (B : forall d,
            slice_bound (Z.of_nat (length ind)) d (Some Np.int64_min) = 0).
  { intros d. rewrite slice_bound_some. unfold Np.int64_min.
    destruct (Z.ltb_spec (- 2 ^ 63) 0); lia. }
  split; [| split].
  - rewrite (slice_eq ind None (Some Np.int64_min) 0 0);
      [reflexivity | reflexivity | apply B].
  - rewrite (slice_eq ind (Some Np.int64_min) (Some Np.int64_min) 0 0);
      [reflexivity | apply B | apply B].
  - rewrite (slice_eq ind (Some Np.int64_min) None 0
               (Z.of_nat (length ind))); [| apply B | reflexivity].
    rewrite Z.sub_0_r, Nat2Z.id. cbn [Z.to_nat skipn]. apply firstn_all.
Qed.

Lemma X13_zero_weights_select_all_for_testing_witness :
  exists self,
    init 4 0 0 0 = Ok self /\
    select_testing_indices self [7; 8; 9] = [7; 8; 9].
Proof.
  destruct (init_Ok 4 0 0 0) as [self E]. exists self.
  split; [exact E |].
  apply (X13_zero_weights_select_all_for_testing 4 self [7; 8; 9] E).
  reflexivity.
Defined.

(** ** Counts and proportions *)

Lemma Prim2SF_one :
  Prim2SF 1%float = S754_finite false 4503599627370496 (-52).
Proof. reflexivity. Qed.

Lemma unit_interval (p : float) :
  nn (Prim2SF p) -> (0 <= val p <= 1)%R ->
  (0 <=? p)%float = true /\ (p <=? 1)%float = true.
Proof.
  intros N [L U]. unfold val in L, U. rewrite !FloatAxioms.leb_spec.
  assert (N0 : nn (Prim2SF 0)) by (rewrite Prim2SF_zero; exact I).
  assert (N1 : nn (Prim2SF 1)) by (rewrite Prim2SF_one; exact I).
  assert (V0 : SF2R (Prim2SF 0) = 0%R)
    by (rewrite Prim2SF_zero; reflexivity).
  assert (V1 : SF2R (Prim2SF 1) = 1%R)
    by (rewrite Prim2SF_one, SF2R_finite; apply one_val).
  split;
    (apply SFleb_nn;
     [apply Prim2SF_valid | apply Prim2SF_valid | assumption | assumption |]).
  - rewrite V0. exact L.
  - rewrite V1. exact U.
Qed.

(** X7.  For finite weights that are not negative and not all zero, and
    for any dataset length, each of the three proportions the constructor
    stores is a float between [0] and [1], both included: the rounding of
    the sum and of the quotient never takes a proportion above [1]. *)
Theorem X7_proportions_in_unit_interval (n : Z) (w1 w2 w3 : float)
    (self : SplitIndexer) :
  weight w1 -> weight w2 -> weight w3 -> not_all_zero w1 w2 w3 ->
  init n w1 w2 w3 = Ok self ->
  normalised_split self =
  (training_percentage self, validation_percentage self,
   testing_percentage self) /\
  ((0 <=? training_percentage self)%float = true /\
   (training_percentage self <=? 1)%float = true) /\
  ((0 <=? validation_percentage self)%float = true /\
   (validation_percentage self <=? 1)%float = true) /\
  ((0 <=? testing_percentage self)%float = true /\
   (testing_percentage self <=? 1)%float = true).
Proof.
  intros W1 W2 W3 P E.
  destruct (weights_sum_pos w1 w2 w3 W1 W2 W3 P) as (N1 & N2 & N3 & Pos).
  pose proof (val_nonneg w1 N1). pose proof (val_nonneg w2 N2).
  pose proof (val_nonneg w3 N3).
  unfold init in E. cbv zeta in E. unfold unnormalised in E.
  inversion E; subst self; clear E. cbn [normalised_split
    training_percentage validation_percentage testing_percentage].
  split; [reflexivity |].
  pose proof (sum3_ge w1 w2 w3 N1 N2 N3) as S. cbv zeta in S.
  set (s := sum3 w1 w2 w3) in *.
  assert (Q : forall w, nn (Prim2SF w) ->
            (Prim2SF s = S754_infinity false \/ (val w <= val s)%R) ->
            (0 <=? w / s)%float = true /\ (w / s <=? 1)%float = true).
  { intros w Nw Hw.
    destruct (proportion_le_one w s Nw) as [Np B].
    - destruct S as [I | (Ns & _)]; [left; exact I |].
      destruct Hw as [I | L]; [left; exact I | right; split; assumption].
    - destruct S as [I | (Ns & L1 & L2 & L3)];
        [right; right; exact I | right; left; lra].
    - apply unit_interval; assumption. }
  split; [| split]; apply Q; try assumption;
    (destruct S as [I | (Ns & L1 & L2 & L3)];
     [left; exact I | right; assumption]).
Qed.

Lemma X7_proportions_in_unit_interval_witness :
  exists self,
    init 10 default_training default_validation default_testing = Ok self /\
    (training_percentage self <=? 1)%float = true.
Proof.
  destruct (init_Ok 10 default_training default_validation default_testing)
    as [self E].
  exists self. split; [exact E |].
  destruct (X7_proportions_in_unit_interval 10 default_training
              default_validation default_testing self)
    as (_ & (_ & U) & _).
  - split; reflexivity.
  - split; reflexivity.
  - split; reflexivity.
  - reflexivity.
  - exact E.
  - exact U.
Defined.

(** The cast truncates, and truncating a float that is not negative is
    taking its integer part. *)
Lemma astype_int_floor_same (x : float) :
  nn (Prim2SF x) -> Np.astype_int (Np.floor x) = Np.astype_int x.
Proof.
  intros N. unfold Np.floor. pose proof (Prim2SF_valid x) as V.
  destruct (nn_cases _ N) as [[s E] | (m & e & E)]; rewrite E in *;
    [reflexivity |].
  destruct (Z.leb_spec 0 e) as [L | G]; [reflexivity |].
  destruct (valid_finite _ _ _ V) as [C _].
  destruct (canonical_digits _ _ C) as (D & _ & _).
  pose proof (Zdigits2_bounds (Z.pos m) ltac:(lia)) as [_ U].
  assert (U' : Z.pos m < 2 ^ 53).
  { eapply Z.lt_le_trans; [exact U |].
    apply Z.pow_le_mono_r; lia. }
  assert (T : 0 <= Np.floor_of false m e <= Z.pos m).
  { unfold Np.floor_of. destruct (Z.leb_spec 0 e); [lia |].
    assert (0 < 2 ^ (- e)) by (apply Z.pow_pos_nonneg; lia).
    split; [apply Z.div_pos; lia |].
    apply Z.div_le_upper_bound; [lia | nia]. }
  rewrite astype_int_float_of_Z by lia.
  unfold Np.astype_int. rewrite E. cbv zeta.
  unfold Np.int64_min, Np.int64_max.
  destruct (Z.leb_spec (- 2 ^ 63) (Np.floor_of false m e));
    destruct (Z.leb_spec (Np.floor_of false m e) (2 ^ 63 - 1));
    cbn [andb]; try reflexivity; lia.
Qed.

(** X8.  For an indexer built from finite weights that are not negative
    and not all zero, and for a number from [0] to [2^50], the method
    [unnormalised] returns the same counts with [floored=False] as with
    [floored=True]: the cast to integers truncates, and no scaled
    proportion is negative. *)
Theorem X8_floored_makes_no_difference (n num : Z) (w1 w2 w3 : float)
    (self : SplitIndexer) :
  weight w1 -> weight w2 -> weight w3 -> not_all_zero w1 w2 w3 ->
  init n w1 w2 w3 = Ok self ->
  0 <= num <= 2 ^ 50 ->
  unnormalised (normalised_split self) num false =
  unnormalised (normalised_split self) num true.
Proof.
  intros W1 W2 W3 P E Hn.
  destruct (weights_sum_pos w1 w2 w3 W1 W2 W3 P) as (N1 & N2 & N3 & Pos).
  destruct (init_fields n w1 w2 w3 self E) as (_ & -> & _).
  pose proof (CountsFacts.unnormalised_bounds w1 w2 w3 num N1 N2 N3 Pos Hn)
    as ((F1 & _) & (F2 & _) & (F3 & _) & _).
  unfold unnormalised.
  rewrite (astype_int_floor_same _ F1), (astype_int_floor_same _ F2),
    (astype_int_floor_same _ F3).
  reflexivity.
Qed.

Lemma X8_floored_makes_no_difference_witness :
  exists self,
    init 10 default_training default_validation default_testing = Ok self /\
    unnormalised (normalised_split self) 25 false =
    unnormalised (normalised_split self) 25 true.
Proof.
  destruct (init_Ok 10 default_training default_validation default_testing)
    as [self E].
  exists self. split; [exact E |].
  apply (X8_floored_makes_no_difference 10 25 default_training
           default_validation default_testing self).
  - split; reflexivity.
  - split; reflexivity.
  - split; reflexivity.
  - reflexivity.
  - exact E.
  - lia.
Defined.

(** ** The two ways to draw the selections *)

Section Generator.
Variable rng : Type.
Variable np_random_seed : Z -> rng.
Variable np_random_permutation : Z -> rng -> list Z * rng.

(** X9.  [select_shuffled_split_indices(split, seed)] returns, for a member
    of [Split], the entry that [shuffled_indices()] binds to that member
    when it is called right after [numpy.random.seed(seed)], and it leaves
    the generator in the same state. *)
Theorem X9_selection_is_entry_of_shuffled_indices (self : SplitIndexer)
    (sp : Split) (seed : Z) (st : rng) :
  let shuffled :=
    shuffled_indices rng np_random_permutation self (np_random_seed seed) in
  select_shuffled_split_indices rng np_random_seed np_random_permutation
    self (VSplit sp) seed st
  = (getitem (fst shuffled) sp, snd shuffled).
Proof.
  unfold select_shuffled_split_indices, shuffled_indices. cbv zeta.
  destruct (np_random_permutation (total_num self) (np_random_seed seed))
    as [ind st'].
  destruct sp; reflexivity.
Qed.

(** X10.  Under the contract and for a length up to [2^50], the calls of
    [select_shuffled_split_indices] with one seed and the four arguments
    succeed and fit together: the sequences for the three members of
    [Split] are pairwise disjoint, every entry of them is an entry of the
    permutation returned for [None], and when [validation_num] is not zero
    the three sequences, one after the other, are that permutation. *)
Theorem X10_calls_with_one_seed_fit_together (n : Z) (w1 w2 w3 : float)
    (self : SplitIndexer) (seed : Z) (st : rng) :
  0 <= n <= 2 ^ 50 ->
  weight w1 -> weight w2 -> weight w3 -> not_all_zero w1 w2 w3 ->
  permutes np_random_permutation ->
  init n w1 w2 w3 = Ok self ->
  let call split :=
    fst (select_shuffled_split_indices rng np_random_seed
           np_random_permutation self split seed st) in
  exists T V E p,
    call (VSplit Training) = Ok T /\
    call (VSplit Validation) = Ok V /\
    call (VSplit Testing) = Ok E /\
    call VNone = Ok p /\
    Permutation p (range n) /\
    disjoint T V /\ disjoint T E /\ disjoint V E /\
    (forall x, In x T \/ In x V \/ In x E -> In x p) /\
    (validation_num self <> 0 -> (T ++ V ++ E)%list = p).
Proof.
  intros Hn W1 W2 W3 P Hp E0 call.
  destruct (init_contract_bounds n w1 w2 w3 self Hn W1 W2 W3 P E0)
    as (Tn & A0 & B0 & C0 & S).
  unfold call, select_shuffled_split_indices. rewrite Tn.
  pose proof (Hp n (np_random_seed seed) (proj1 Hn)) as Perm.
  destruct (np_random_permutation n (np_random_seed seed)) as [p st'].
  cbn [fst] in *.
  destruct (permutation_facts p n (proj1 Hn) Perm) as [Len ND].
  assert (Hlen : training_num self + testing_num self
                 <= Z.of_nat (length p)) by lia.
  exists (select_train_indices self p), (select_validation_indices self p),
    (select_testing_indices self p), p.
  destruct (selections_disjoint self p A0 C0 Hlen ND) as (D1 & D2 & D3).
  repeat (split; [first [reflexivity | assumption] |]).
  split.
  - unfold select_train_indices, select_validation_indices,
      select_testing_indices.
    intros x [I | [I | I]]; revert I;
      repeat match goal with
             | |- context [Z.eqb ?a ?b] => destruct (Z.eqb a b)
             end;
      try (intros []); apply block_In, slice_block.
  - intros Hv. apply selections_cover; assumption.
Qed.

End Generator.

Lemma X10_calls_with_one_seed_fit_together_witness :
  exists self T V E p,
    init 10 default_training default_validation default_testing
    = Ok self /\
    fst (select_shuffled_split_indices Rotation.rng Rotation.seed
           Rotation.permutation self (VSplit Validation) 3 0)
    = Ok V /\
    fst (select_shuffled_split_indices Rotation.rng Rotation.seed
           Rotation.permutation self VNone 3 0)
    = Ok p /\
    disjoint T V /\ disjoint V E.
Proof.
  destruct (init_Ok 10 default_training default_validation default_testing)
    as [self E0].
  destruct (X10_calls_with_one_seed_fit_together Rotation.rng Rotation.seed
              Rotation.permutation 10 default_training default_validation
              default_testing self 3 0)
    as (T & V & E & p & _ & EV & _ & Ep & _ & D1 & _ & D3 & _).
  - lia.
  - split; reflexivity.
  - split; reflexivity.
  - split; reflexivity.
  - reflexivity.
  - exact RotationFacts.rotation_permutes.
  - exact E0.
  - exists self, T, V, E, p. repeat split; assumption.
Defined.

End Extras.
